(** * Avature job scraper: a shallow embedding of the crawl handlers

    The development follows the TypeScript sources:
    - [src/routes/extractors.ts]   ([createFieldExtractor], [parseDate], [parseSalary]),
    - [src/routes/utils.ts]        ([getRouteLabel], [getBaseUrl], [getSubdomain]),
    - [src/routes/listing.handler.ts], [src/routes/job-detail.handler.ts],
      [src/routes/default.handler.ts],
    - [src/main.ts]                (error table, [detectErrorInContent], the
      crawler's [requestHandler]).

    JavaScript strings are sequences of UTF-16 code units ([list N]); regular
    expressions are run by a backtracking matcher with the priorities of the
    ECMAScript semantics; the parsed page is a tree of elements and text nodes
    and the Cheerio calls of the handlers are functions on that tree. *)

From Stdlib Require Import NArith List String Ascii Bool Lia DecimalString.
From stdpp Require Import gmap.

Set Warnings "-register-all".

Local Open Scope string_scope.
Local Open Scope N_scope.
Local Open Scope list_scope.

(** ** Strings *)

Module Js.

Abbreviation jsstr := (list N).

(** A string literal of the source, as code units. *)
Definition js (s : string) : jsstr := map N_of_ascii (list_ascii_of_string s).

Definition jlen (s : jsstr) : nat := List.length s.

Fixpoint str_eqb (a b : jsstr) : bool :=
  match a, b with
  | [], [] => true
  | x :: a', y :: b' => (x =? y) && str_eqb a' b'
  | _, _ => false
  end.

(** [s.startsWith(p)] *)
Fixpoint startsWith (p s : jsstr) : bool :=
  match p, s with
  | [], _ => true
  | x :: p', y :: s' => (x =? y) && startsWith p' s'
  | _ :: _, [] => false
  end.

(** [s.includes(p)] *)
Fixpoint includes (p s : jsstr) : bool :=
  startsWith p s ||
  match s with
  | [] => false
  | _ :: s' => includes p s'
  end.

(** [s.indexOf(p)], [None] standing for -1. *)
Fixpoint indexOf (p s : jsstr) : option nat :=
  if startsWith p s then Some 0%nat
  else match s with
       | [] => None
       | _ :: s' => option_map S (indexOf p s')
       end.

(** [s.substring(i)] and [s.substring(0, n)] *)
Definition substring_from (i : nat) (s : jsstr) : jsstr := skipn i s.
Definition substring_to (n : nat) (s : jsstr) : jsstr := firstn n s.

(** White space and line terminators of ECMAScript: the set of [\s] and of
    [String.prototype.trim]. *)
Definition is_space (c : N) : bool :=
  ((9 <=? c) && (c <=? 13)) || (c =? 32) || (c =? 160) || (c =? 5760)
  || ((8192 <=? c) && (c <=? 8202)) || (c =? 8232) || (c =? 8233)
  || (c =? 8239) || (c =? 8287) || (c =? 12288) || (c =? 65279).

Definition is_digit (c : N) : bool := (48 <=? c) && (c <=? 57).
Definition is_upper (c : N) : bool := (65 <=? c) && (c <=? 90).
Definition is_lower (c : N) : bool := (97 <=? c) && (c <=? 122).
Definition is_alpha (c : N) : bool := is_upper c || is_lower c.

Fixpoint trimStart (s : jsstr) : jsstr :=
  match s with
  | c :: s' => if is_space c then trimStart s' else s
  | [] => []
  end.

Definition trimEnd (s : jsstr) : jsstr := rev (trimStart (rev s)).
Definition trim (s : jsstr) : jsstr := trimEnd (trimStart s).

(** *** Letter case

    [String.prototype.toLowerCase] works on the code points of the string and
    follows the Unicode default case conversion: the simple lower-case
    mappings of UnicodeData.txt, and of SpecialCasing.txt the two entries
    that do not depend on a language, U+0130 and the final sigma.  The tables
    are those of version 14 of the Unicode Character Database. *)

(** Code points of a string of code units: a high surrogate followed by a
    low one is one code point, every other code unit stands for itself. *)
Definition is_high (c : N) : bool := (55296 <=? c) && (c <=? 56319).
Definition is_low (c : N) : bool := (56320 <=? c) && (c <=? 57343).

Fixpoint codePoints (s : jsstr) : list N :=
  match s with
  | [] => []
  | c :: rest =>
      match rest with
      | d :: s' =>
          if is_high c && is_low d
          then 65536 + (c - 55296) * 1024 + (d - 56320) :: codePoints s'
          else c :: codePoints rest
      | [] => [c]
      end
  end.

Definition codeUnits (cp : N) : jsstr :=
  if cp <? 65536 then [cp]
  else [55296 + (cp - 65536) / 1024; 56320 + (cp - 65536) mod 1024].

(** The simple lower-case mappings outside ASCII: [(first, last, step, image)]
    maps [first], [first + step], ..., [last] to [image], [image + step], ... *)
Definition lower_mappings : list (N * N * N * N) :=
  [
    (192, 214, 1, 224); (216, 222, 1, 248); (256, 302, 2, 257); (306, 310, 2, 307);
    (313, 327, 2, 314); (330, 374, 2, 331); (376, 376, 1, 255); (377, 381, 2, 378);
    (385, 385, 1, 595); (386, 388, 2, 387); (390, 390, 1, 596); (391, 391, 1, 392);
    (393, 394, 1, 598); (395, 395, 1, 396); (398, 398, 1, 477); (399, 399, 1, 601);
    (400, 400, 1, 603); (401, 401, 1, 402); (403, 403, 1, 608); (404, 404, 1, 611);
    (406, 406, 1, 617); (407, 407, 1, 616); (408, 408, 1, 409); (412, 412, 1, 623);
    (413, 413, 1, 626); (415, 415, 1, 629); (416, 420, 2, 417); (422, 422, 1, 640);
    (423, 423, 1, 424); (425, 425, 1, 643); (428, 428, 1, 429); (430, 430, 1, 648);
    (431, 431, 1, 432); (433, 434, 1, 650); (435, 437, 2, 436); (439, 439, 1, 658);
    (440, 440, 1, 441); (444, 444, 1, 445); (452, 452, 1, 454); (453, 453, 1, 454);
    (455, 455, 1, 457); (456, 456, 1, 457); (458, 458, 1, 460); (459, 475, 2, 460);
    (478, 494, 2, 479); (497, 497, 1, 499); (498, 500, 2, 499); (502, 502, 1, 405);
    (503, 503, 1, 447); (504, 542, 2, 505); (544, 544, 1, 414); (546, 562, 2, 547);
    (570, 570, 1, 11365); (571, 571, 1, 572); (573, 573, 1, 410); (574, 574, 1, 11366);
    (577, 577, 1, 578); (579, 579, 1, 384); (580, 580, 1, 649); (581, 581, 1, 652);
    (582, 590, 2, 583); (880, 882, 2, 881); (886, 886, 1, 887); (895, 895, 1, 1011);
    (902, 902, 1, 940); (904, 906, 1, 941); (908, 908, 1, 972); (910, 911, 1, 973);
    (913, 929, 1, 945); (931, 939, 1, 963); (975, 975, 1, 983); (984, 1006, 2, 985);
    (1012, 1012, 1, 952); (1015, 1015, 1, 1016); (1017, 1017, 1, 1010); (1018, 1018, 1, 1019);
    (1021, 1023, 1, 891); (1024, 1039, 1, 1104); (1040, 1071, 1, 1072); (1120, 1152, 2, 1121);
    (1162, 1214, 2, 1163); (1216, 1216, 1, 1231); (1217, 1229, 2, 1218); (1232, 1326, 2, 1233);
    (1329, 1366, 1, 1377); (4256, 4293, 1, 11520); (4295, 4295, 1, 11559);
    (4301, 4301, 1, 11565); (5024, 5103, 1, 43888); (5104, 5109, 1, 5112);
    (7312, 7354, 1, 4304); (7357, 7359, 1, 4349); (7680, 7828, 2, 7681); (7838, 7838, 1, 223);
    (7840, 7934, 2, 7841); (7944, 7951, 1, 7936); (7960, 7965, 1, 7952); (7976, 7983, 1, 7968);
    (7992, 7999, 1, 7984); (8008, 8013, 1, 8000); (8025, 8031, 2, 8017); (8040, 8047, 1, 8032);
    (8072, 8079, 1, 8064); (8088, 8095, 1, 8080); (8104, 8111, 1, 8096); (8120, 8121, 1, 8112);
    (8122, 8123, 1, 8048); (8124, 8124, 1, 8115); (8136, 8139, 1, 8050); (8140, 8140, 1, 8131);
    (8152, 8153, 1, 8144); (8154, 8155, 1, 8054); (8168, 8169, 1, 8160); (8170, 8171, 1, 8058);
    (8172, 8172, 1, 8165); (8184, 8185, 1, 8056); (8186, 8187, 1, 8060); (8188, 8188, 1, 8179);
    (8486, 8486, 1, 969); (8490, 8490, 1, 107); (8491, 8491, 1, 229); (8498, 8498, 1, 8526);
    (8544, 8559, 1, 8560); (8579, 8579, 1, 8580); (9398, 9423, 1, 9424);
    (11264, 11311, 1, 11312); (11360, 11360, 1, 11361); (11362, 11362, 1, 619);
    (11363, 11363, 1, 7549); (11364, 11364, 1, 637); (11367, 11371, 2, 11368);
    (11373, 11373, 1, 593); (11374, 11374, 1, 625); (11375, 11375, 1, 592);
    (11376, 11376, 1, 594); (11378, 11378, 1, 11379); (11381, 11381, 1, 11382);
    (11390, 11391, 1, 575); (11392, 11490, 2, 11393); (11499, 11501, 2, 11500);
    (11506, 11506, 1, 11507); (42560, 42604, 2, 42561); (42624, 42650, 2, 42625);
    (42786, 42798, 2, 42787); (42802, 42862, 2, 42803); (42873, 42875, 2, 42874);
    (42877, 42877, 1, 7545); (42878, 42886, 2, 42879); (42891, 42891, 1, 42892);
    (42893, 42893, 1, 613); (42896, 42898, 2, 42897); (42902, 42920, 2, 42903);
    (42922, 42922, 1, 614); (42923, 42923, 1, 604); (42924, 42924, 1, 609);
    (42925, 42925, 1, 620); (42926, 42926, 1, 618); (42928, 42928, 1, 670);
    (42929, 42929, 1, 647); (42930, 42930, 1, 669); (42931, 42931, 1, 43859);
    (42932, 42946, 2, 42933); (42948, 42948, 1, 42900); (42949, 42949, 1, 642);
    (42950, 42950, 1, 7566); (42951, 42953, 2, 42952); (42960, 42960, 1, 42961);
    (42966, 42968, 2, 42967); (42997, 42997, 1, 42998); (65313, 65338, 1, 65345);
    (66560, 66599, 1, 66600); (66736, 66771, 1, 66776); (66928, 66938, 1, 66967);
    (66940, 66954, 1, 66979); (66956, 66962, 1, 66995); (66964, 66965, 1, 67003);
    (68736, 68786, 1, 68800); (71840, 71871, 1, 71872); (93760, 93791, 1, 93792);
    (125184, 125217, 1, 125218) ].

Fixpoint mapped (table : list (N * N * N * N)) (cp : N) : option N :=
  match table with
  | [] => None
  | (first, last, step, image) :: table' =>
      if (first <=? cp) && (cp <=? last) && ((cp - first) mod step =? 0)
      then Some (image + (cp - first))
      else mapped table' cp
  end.

Fixpoint in_ranges (table : list (N * N)) (cp : N) : bool :=
  match table with
  | [] => false
  | (first, last) :: table' => ((first <=? cp) && (cp <=? last)) || in_ranges table' cp
  end.

(** Case_Ignorable outside ASCII. *)
Definition case_ignorable_ranges : list (N * N) :=
  [
    (168, 168); (173, 173); (175, 175); (180, 180); (183, 184); (688, 879); (884, 885);
    (890, 890); (900, 901); (903, 903); (1155, 1161); (1369, 1369); (1375, 1375); (1425, 1469);
    (1471, 1471); (1473, 1474); (1476, 1477); (1479, 1479); (1524, 1524); (1536, 1541);
    (1552, 1562); (1564, 1564); (1600, 1600); (1611, 1631); (1648, 1648); (1750, 1757);
    (1759, 1768); (1770, 1773); (1807, 1807); (1809, 1809); (1840, 1866); (1958, 1968);
    (2027, 2037); (2042, 2042); (2045, 2045); (2070, 2093); (2137, 2139); (2184, 2184);
    (2192, 2193); (2200, 2207); (2249, 2306); (2362, 2362); (2364, 2364); (2369, 2376);
    (2381, 2381); (2385, 2391); (2402, 2403); (2417, 2417); (2433, 2433); (2492, 2492);
    (2497, 2500); (2509, 2509); (2530, 2531); (2558, 2558); (2561, 2562); (2620, 2620);
    (2625, 2626); (2631, 2632); (2635, 2637); (2641, 2641); (2672, 2673); (2677, 2677);
    (2689, 2690); (2748, 2748); (2753, 2757); (2759, 2760); (2765, 2765); (2786, 2787);
    (2810, 2815); (2817, 2817); (2876, 2876); (2879, 2879); (2881, 2884); (2893, 2893);
    (2901, 2902); (2914, 2915); (2946, 2946); (3008, 3008); (3021, 3021); (3072, 3072);
    (3076, 3076); (3132, 3132); (3134, 3136); (3142, 3144); (3146, 3149); (3157, 3158);
    (3170, 3171); (3201, 3201); (3260, 3260); (3263, 3263); (3270, 3270); (3276, 3277);
    (3298, 3299); (3328, 3329); (3387, 3388); (3393, 3396); (3405, 3405); (3426, 3427);
    (3457, 3457); (3530, 3530); (3538, 3540); (3542, 3542); (3633, 3633); (3636, 3642);
    (3654, 3662); (3761, 3761); (3764, 3772); (3782, 3782); (3784, 3789); (3864, 3865);
    (3893, 3893); (3895, 3895); (3897, 3897); (3953, 3966); (3968, 3972); (3974, 3975);
    (3981, 3991); (3993, 4028); (4038, 4038); (4141, 4144); (4146, 4151); (4153, 4154);
    (4157, 4158); (4184, 4185); (4190, 4192); (4209, 4212); (4226, 4226); (4229, 4230);
    (4237, 4237); (4253, 4253); (4348, 4348); (4957, 4959); (5906, 5908); (5938, 5939);
    (5970, 5971); (6002, 6003); (6068, 6069); (6071, 6077); (6086, 6086); (6089, 6099);
    (6103, 6103); (6109, 6109); (6155, 6159); (6211, 6211); (6277, 6278); (6313, 6313);
    (6432, 6434); (6439, 6440); (6450, 6450); (6457, 6459); (6679, 6680); (6683, 6683);
    (6742, 6742); (6744, 6750); (6752, 6752); (6754, 6754); (6757, 6764); (6771, 6780);
    (6783, 6783); (6823, 6823); (6832, 6862); (6912, 6915); (6964, 6964); (6966, 6970);
    (6972, 6972); (6978, 6978); (7019, 7027); (7040, 7041); (7074, 7077); (7080, 7081);
    (7083, 7085); (7142, 7142); (7144, 7145); (7149, 7149); (7151, 7153); (7212, 7219);
    (7222, 7223); (7288, 7293); (7376, 7378); (7380, 7392); (7394, 7400); (7405, 7405);
    (7412, 7412); (7416, 7417); (7468, 7530); (7544, 7544); (7579, 7679); (8125, 8125);
    (8127, 8129); (8141, 8143); (8157, 8159); (8173, 8175); (8189, 8190); (8203, 8207);
    (8216, 8217); (8228, 8228); (8231, 8231); (8234, 8238); (8288, 8292); (8294, 8303);
    (8305, 8305); (8319, 8319); (8336, 8348); (8400, 8432); (11388, 11389); (11503, 11505);
    (11631, 11631); (11647, 11647); (11744, 11775); (11823, 11823); (12293, 12293);
    (12330, 12333); (12337, 12341); (12347, 12347); (12441, 12446); (12540, 12542);
    (40981, 40981); (42232, 42237); (42508, 42508); (42607, 42610); (42612, 42621);
    (42623, 42623); (42652, 42655); (42736, 42737); (42752, 42785); (42864, 42864);
    (42888, 42890); (42994, 42996); (43000, 43001); (43010, 43010); (43014, 43014);
    (43019, 43019); (43045, 43046); (43052, 43052); (43204, 43205); (43232, 43249);
    (43263, 43263); (43302, 43309); (43335, 43345); (43392, 43394); (43443, 43443);
    (43446, 43449); (43452, 43453); (43471, 43471); (43493, 43494); (43561, 43566);
    (43569, 43570); (43573, 43574); (43587, 43587); (43596, 43596); (43632, 43632);
    (43644, 43644); (43696, 43696); (43698, 43700); (43703, 43704); (43710, 43711);
    (43713, 43713); (43741, 43741); (43756, 43757); (43763, 43764); (43766, 43766);
    (43867, 43871); (43881, 43883); (44005, 44005); (44008, 44008); (44013, 44013);
    (64286, 64286); (64434, 64450); (65024, 65039); (65043, 65043); (65056, 65071);
    (65106, 65106); (65109, 65109); (65279, 65279); (65287, 65287); (65294, 65294);
    (65306, 65306); (65342, 65342); (65344, 65344); (65392, 65392); (65438, 65439);
    (65507, 65507); (65529, 65531); (66045, 66045); (66272, 66272); (66422, 66426);
    (67456, 67461); (67463, 67504); (67506, 67514); (68097, 68099); (68101, 68102);
    (68108, 68111); (68152, 68154); (68159, 68159); (68325, 68326); (68900, 68903);
    (69291, 69292); (69446, 69456); (69506, 69509); (69633, 69633); (69688, 69702);
    (69744, 69744); (69747, 69748); (69759, 69761); (69811, 69814); (69817, 69818);
    (69821, 69821); (69826, 69826); (69837, 69837); (69888, 69890); (69927, 69931);
    (69933, 69940); (70003, 70003); (70016, 70017); (70070, 70078); (70089, 70092);
    (70095, 70095); (70191, 70193); (70196, 70196); (70198, 70199); (70206, 70206);
    (70367, 70367); (70371, 70378); (70400, 70401); (70459, 70460); (70464, 70464);
    (70502, 70508); (70512, 70516); (70712, 70719); (70722, 70724); (70726, 70726);
    (70750, 70750); (70835, 70840); (70842, 70842); (70847, 70848); (70850, 70851);
    (71090, 71093); (71100, 71101); (71103, 71104); (71132, 71133); (71219, 71226);
    (71229, 71229); (71231, 71232); (71339, 71339); (71341, 71341); (71344, 71349);
    (71351, 71351); (71453, 71455); (71458, 71461); (71463, 71467); (71727, 71735);
    (71737, 71738); (71995, 71996); (71998, 71998); (72003, 72003); (72148, 72151);
    (72154, 72155); (72160, 72160); (72193, 72202); (72243, 72248); (72251, 72254);
    (72263, 72263); (72273, 72278); (72281, 72283); (72330, 72342); (72344, 72345);
    (72752, 72758); (72760, 72765); (72767, 72767); (72850, 72871); (72874, 72880);
    (72882, 72883); (72885, 72886); (73009, 73014); (73018, 73018); (73020, 73021);
    (73023, 73029); (73031, 73031); (73104, 73105); (73109, 73109); (73111, 73111);
    (73459, 73460); (78896, 78904); (92912, 92916); (92976, 92982); (92992, 92995);
    (94031, 94031); (94095, 94111); (94176, 94177); (94179, 94180); (110576, 110579);
    (110581, 110587); (110589, 110590); (113821, 113822); (113824, 113827); (118528, 118573);
    (118576, 118598); (119143, 119145); (119155, 119170); (119173, 119179); (119210, 119213);
    (119362, 119364); (121344, 121398); (121403, 121452); (121461, 121461); (121476, 121476);
    (121499, 121503); (121505, 121519); (122880, 122886); (122888, 122904); (122907, 122913);
    (122915, 122916); (122918, 122922); (123184, 123197); (123566, 123566); (123628, 123631);
    (125136, 125142); (125252, 125259); (127995, 127999); (917505, 917505); (917536, 917631);
    (917760, 917999) ].

(** Cased and not Case_Ignorable, outside ASCII. *)
Definition cased_ranges : list (N * N) :=
  [
    (170, 170); (181, 181); (186, 186); (192, 214); (216, 246); (248, 442); (444, 447);
    (452, 659); (661, 687); (880, 883); (886, 887); (891, 893); (895, 895); (902, 902);
    (904, 906); (908, 908); (910, 929); (931, 1013); (1015, 1153); (1162, 1327); (1329, 1366);
    (1376, 1416); (4256, 4293); (4295, 4295); (4301, 4301); (4304, 4346); (4349, 4351);
    (5024, 5109); (5112, 5117); (7296, 7304); (7312, 7354); (7357, 7359); (7424, 7467);
    (7531, 7543); (7545, 7578); (7680, 7957); (7960, 7965); (7968, 8005); (8008, 8013);
    (8016, 8023); (8025, 8025); (8027, 8027); (8029, 8029); (8031, 8061); (8064, 8116);
    (8118, 8124); (8126, 8126); (8130, 8132); (8134, 8140); (8144, 8147); (8150, 8155);
    (8160, 8172); (8178, 8180); (8182, 8188); (8450, 8450); (8455, 8455); (8458, 8467);
    (8469, 8469); (8473, 8477); (8484, 8484); (8486, 8486); (8488, 8488); (8490, 8493);
    (8495, 8500); (8505, 8505); (8508, 8511); (8517, 8521); (8526, 8526); (8544, 8575);
    (8579, 8580); (9398, 9449); (11264, 11387); (11390, 11492); (11499, 11502); (11506, 11507);
    (11520, 11557); (11559, 11559); (11565, 11565); (42560, 42605); (42624, 42651);
    (42786, 42863); (42865, 42887); (42891, 42894); (42896, 42954); (42960, 42961);
    (42963, 42963); (42965, 42969); (42997, 42998); (43002, 43002); (43824, 43866);
    (43872, 43880); (43888, 43967); (64256, 64262); (64275, 64279); (65313, 65338);
    (65345, 65370); (66560, 66639); (66736, 66771); (66776, 66811); (66928, 66938);
    (66940, 66954); (66956, 66962); (66964, 66965); (66967, 66977); (66979, 66993);
    (66995, 67001); (67003, 67004); (68736, 68786); (68800, 68850); (71840, 71903);
    (93760, 93823); (119808, 119892); (119894, 119964); (119966, 119967); (119970, 119970);
    (119973, 119974); (119977, 119980); (119982, 119993); (119995, 119995); (119997, 120003);
    (120005, 120069); (120071, 120074); (120077, 120084); (120086, 120092); (120094, 120121);
    (120123, 120126); (120128, 120132); (120134, 120134); (120138, 120144); (120146, 120485);
    (120488, 120512); (120514, 120538); (120540, 120570); (120572, 120596); (120598, 120628);
    (120630, 120654); (120656, 120686); (120688, 120712); (120714, 120744); (120746, 120770);
    (120772, 120779); (122624, 122633); (122635, 122654); (125184, 125251); (127280, 127305);
    (127312, 127337); (127344, 127369) ].

Definition case_ignorable (cp : N) : bool :=
  if cp <? 128
  then (cp =? 39) || (cp =? 46) || (cp =? 58) || (cp =? 94) || (cp =? 96)
  else in_ranges case_ignorable_ranges cp.

Definition cased (cp : N) : bool :=
  if cp <? 128 then is_alpha cp else in_ranges cased_ranges cp.

(** The lower case of a code point other than the capital sigma. *)
Definition lower_point (cp : N) : list N :=
  if cp <? 128 then [if is_upper cp then cp + 32 else cp]
  else if cp =? 304 then [105; 775]
  else match mapped lower_mappings cp with
       | Some l => [l]
       | None => [cp]
       end.

(** A cased letter follows, after case-ignorable code points at most. *)
Fixpoint cased_ahead (l : list N) : bool :=
  match l with
  | [] => false
  | cp :: l' => if case_ignorable cp then cased_ahead l' else cased cp
  end.

(** [after_cased]: a cased letter stands before, with case-ignorable code
    points at most in between.  A capital sigma (931) in that place, with no
    cased letter ahead, is a final sigma (962); elsewhere it is 963. *)
Fixpoint lower_points (after_cased : bool) (l : list N) : list N :=
  match l with
  | [] => []
  | cp :: l' =>
      (if cp =? 931
       then [if after_cased && negb (cased_ahead l') then 962 else 963]
       else lower_point cp)
      ++ lower_points (if case_ignorable cp then after_cased else cased cp) l'
  end.

Definition toLowerCase (s : jsstr) : jsstr :=
  concat (map codeUnits (lower_points false (codePoints s))).

(** [s.padStart(2, '0')] *)
Definition padStart2 (s : jsstr) : jsstr :=
  match s with
  | [] => [48; 48]
  | [c] => [48; c]
  | _ => s
  end.

(** [s.replace(/-/g, ' ')] and [s.replace(/,/g, '')]: a one-character pattern
    replaced everywhere. *)
Definition replace_char (c : N) (by_ : jsstr) (s : jsstr) : jsstr :=
  concat (map (fun x => if x =? c then by_ else [x]) s).

(** [parts.join(sep)] *)
Fixpoint join (sep : jsstr) (parts : list jsstr) : jsstr :=
  match parts with
  | [] => []
  | [p] => p
  | p :: ps => p ++ sep ++ join sep ps
  end.

(** [s.split(' ')] *)
Fixpoint split_on (c : N) (s : jsstr) : list jsstr :=
  match s with
  | [] => [[]]
  | x :: s' =>
      match split_on c s' with
      | w :: ws => if x =? c then [] :: w :: ws else (x :: w) :: ws
      | [] => [[x]]
      end
  end.

(** Truthiness of a [string | null | undefined] value, and the operators
    [a || b] and [a ?? b] on such values. *)
Definition truthy (a : option jsstr) : bool :=
  match a with
  | Some (_ :: _) => true
  | _ => false
  end.

Definition or_else (a b : option jsstr) : option jsstr :=
  if truthy a then a else b.

Definition nullish (a b : option jsstr) : option jsstr :=
  match a with
  | Some _ => a
  | None => b
  end.

End Js.

Export Js.

(** ** Regular expressions

    The patterns of the sources use literals, character classes, groups,
    alternatives, greedy and lazy quantifiers, [^], [$] and one lookahead.
    [run] is a backtracking matcher in continuation-passing style: the
    alternatives are tried in the order ECMAScript tries them, so the first
    success is the match that [RegExp.prototype.exec] reports. *)

Module Re.

Inductive regex : Type :=
| Eps : regex
| Chr : (N -> bool) -> regex                      (* one code unit of a class *)
| Seq : regex -> regex -> regex
| Alt : regex -> regex -> regex
| Rep : bool -> nat -> option nat -> regex -> regex (* greedy?, min, max *)
| Grp : nat -> regex -> regex                     (* capture group number n *)
| Bol : regex                                     (* ^ *)
| Eol : regex                                     (* $ *)
| Ahead : regex -> regex.                         (* (?=r) *)

(** A capture is the pair of the lengths of the input that remained when the
    group was entered and when it was left. *)
Definition caps := list (nat * (nat * nat)).

Definition cont (R : Type) := jsstr -> caps -> option R.

(** [a </> b]: the alternative [b] is tried only when [a] fails. *)
Notation "a </> b" :=
  (match a with Some x => Some x | None => b end)
  (at level 60, right associativity, only parsing).

Section Repeat.
Context {R : Type}.

(** One quantified sub-pattern [r{lo,hi}], [n] iterations done.  An optional
    iteration that consumes nothing is rejected, as in ECMAScript's
    RepeatMatcher, so [lo + length s] iterations are the most there can be;
    [fuel] is chosen above that. *)
Fixpoint rep_loop (step : jsstr -> caps -> cont R -> option R)
    (greedy : bool) (lo : nat) (hi : option nat)
    (fuel n : nat) (s : jsstr) (c : caps) (k : cont R) : option R :=
  match fuel with
  | O => None
  | S fuel' =>
      let again (_ : unit) :=
        step s c (fun s' c' =>
          if (lo <=? n)%nat && (jlen s <=? jlen s')%nat then None
          else rep_loop step greedy lo hi fuel' (S n) s' c' k) in
      if (n <? lo)%nat then again tt
      else if match hi with Some h => (h <=? n)%nat | None => false end then k s c
      else if greedy then again tt </> k s c
      else k s c </> again tt
  end.

End Repeat.

(** [total] is the length of the whole input, which [^] needs.  A lookahead
    is matched once: what follows it cannot make it match again in another
    way. *)
Fixpoint run (total : nat) (r : regex) {R : Type} (s : jsstr) (c : caps) (k : cont R)
  : option R :=
  match r with
  | Eps => k s c
  | Chr p =>
      match s with
      | x :: s' => if p x then k s' c else None
      | [] => None
      end
  | Seq r1 r2 => run total r1 s c (fun s' c' => run total r2 s' c' k)
  | Alt r1 r2 => run total r1 s c k </> run total r2 s c k
  | Rep greedy lo hi r0 =>
      rep_loop (run total r0) greedy lo hi (S (lo + jlen s)) 0 s c k
  | Grp i r0 =>
      run total r0 s c (fun s' c' => k s' ((i, (jlen s, jlen s')) :: c'))
  | Bol => if (jlen s =? total)%nat then k s c else None
  | Eol => match s with [] => k s c | _ :: _ => None end
  | Ahead r0 =>
      match run total r0 s c (fun _ c' => Some c') with
      | Some c' => k s c'
      | None => None
      end
  end.

(** The match array of [exec]: the matched text, then groups 1..[ngroups]
    ([None] for a group that did not take part). *)
Definition slice (input : jsstr) (span : nat * nat) : jsstr :=
  let '(before, after) := span in
  firstn (before - after) (skipn (jlen input - before) input).

Fixpoint cap_lookup (i : nat) (c : caps) : option (nat * nat) :=
  match c with
  | [] => None
  | (j, span) :: c' => if (i =? j)%nat then Some span else cap_lookup i c'
  end.

Definition match_array (ngroups : nat) (input : jsstr) (start stop : nat) (c : caps)
  : list (option jsstr) :=
  Some (slice input (start, stop)) ::
  map (fun i => option_map (slice input) (cap_lookup i c)) (seq 1 ngroups).

(** A match attempt at the position where [s] remains. *)
Definition match_here (r : regex) (input s : jsstr) : option (jsstr * caps) :=
  run (jlen input) r s [] (fun s' c' => Some (s', c')).

(** The leftmost match at or after the position where [s] remains. *)
Fixpoint search (r : regex) (input s : jsstr) : option (jsstr * jsstr * caps) :=
  match match_here r input s with
  | Some (s', c) => Some (s, s', c)
  | None =>
      match s with
      | [] => None
      | _ :: rest => search r input rest
      end
  end.

(** [input.match(r)] for a pattern without the [g] flag. *)
Definition exec (ngroups : nat) (r : regex) (input : jsstr) : option (list (option jsstr)) :=
  match search r input input with
  | Some (s, s', c) => Some (match_array ngroups input (jlen s) (jlen s') c)
  | None => None
  end.

(** [r.test(input)] *)
Definition test (r : regex) (input : jsstr) : bool :=
  match search r input input with
  | Some _ => true
  | None => false
  end.

(** Group [i] of a match array ([m[i]]). *)
Definition group (i : nat) (m : list (option jsstr)) : option jsstr :=
  match nth_error m i with
  | Some g => g
  | None => None
  end.

(** [input.replaceAll(r, by)] and [input.replace(r, by)] for a pattern with
    the [g] flag and a replacement without [$] references: every match, found
    left to right, is replaced; after an empty match the scan moves one code
    unit on. *)
Fixpoint replace_all_from (fuel : nat) (r : regex) (by_ input s : jsstr) : jsstr :=
  match fuel with
  | O => s
  | S fuel' =>
      match match_here r input s with
      | Some (s', _) =>
          if (jlen s' <? jlen s)%nat then by_ ++ replace_all_from fuel' r by_ input s'
          else match s with
               | [] => by_
               | x :: rest => by_ ++ x :: replace_all_from fuel' r by_ input rest
               end
      | None =>
          match s with
          | [] => []
          | x :: rest => x :: replace_all_from fuel' r by_ input rest
          end
      end
  end.

Definition replace_all (r : regex) (by_ input : jsstr) : jsstr :=
  replace_all_from (S (jlen input)) r by_ input input.

(** *** Pattern syntax *)

Definition chr (c : N) : regex := Chr (N.eqb c).

(** A character under the [i] flag: ASCII letters match in both cases (no
    code unit outside ASCII canonicalizes to an ASCII letter). *)
Definition chr_i (c : N) : regex :=
  if is_upper c then Chr (fun x => (x =? c) || (x =? c + 32))
  else if is_lower c then Chr (fun x => (x =? c) || (x =? c - 32))
  else Chr (N.eqb c).

Fixpoint seq_of (l : list regex) : regex :=
  match l with
  | [] => Eps
  | [r] => r
  | r :: l' => Seq r (seq_of l')
  end.

Fixpoint alt_of (l : list regex) : regex :=
  match l with
  | [] => Chr (fun _ => false)
  | [r] => r
  | r :: l' => Alt r (alt_of l')
  end.

Definition lit (s : string) : regex := seq_of (map chr (js s)).
Definition lit_i (s : string) : regex := seq_of (map chr_i (js s)).

Definition star (r : regex) : regex := Rep true 0 None r.
Definition plus (r : regex) : regex := Rep true 1 None r.
Definition opt (r : regex) : regex := Rep true 0 (Some 1%nat) r.
Definition lazy_plus (r : regex) : regex := Rep false 1 None r.
Definition lazy_star (r : regex) : regex := Rep false 0 None r.
Definition times (lo hi : nat) (r : regex) : regex := Rep true lo (Some hi) r.

Definition digit : regex := Chr is_digit.                 (* \d *)
Definition space : regex := Chr is_space.                 (* \s *)
Definition alpha : regex := Chr is_alpha.                 (* [A-Za-z] *)
Definition one_of (l : list N) : regex := Chr (fun x => existsb (N.eqb x) l).
Definition none_of (l : list N) : regex := Chr (fun x => negb (existsb (N.eqb x) l)).
(** [.] without the [s] flag: anything but a line terminator. *)
Definition dot : regex := none_of [10; 13; 8232; 8233].

End Re.

Export Re.

(** ** The parsed page

    Cheerio hands the handlers a parsed document.  It is a forest of elements
    and text nodes; comments are left out (they carry no text and no selector
    of the sources can match one).  Tag and attribute names are the lower-case
    names the HTML parser produces. *)

Module Dom.

Inductive node : Type :=
| Text : jsstr -> node
| Elem : jsstr -> list (jsstr * jsstr) -> list node -> node.

Definition document := list node.

(** [textContent]: the text nodes below a node, in document order. *)
Fixpoint text_of (n : node) : jsstr :=
  match n with
  | Text t => t
  | Elem _ _ kids => concat (map text_of kids)
  end.

Definition tag_of (n : node) : jsstr :=
  match n with
  | Text _ => []
  | Elem t _ _ => t
  end.

Definition attrs_of (n : node) : list (jsstr * jsstr) :=
  match n with
  | Text _ => []
  | Elem _ a _ => a
  end.

Definition kids_of (n : node) : list node :=
  match n with
  | Text _ => []
  | Elem _ _ k => k
  end.

Definition is_elem (n : node) : bool :=
  match n with
  | Text _ => false
  | Elem _ _ _ => true
  end.

Fixpoint get_attr (name : jsstr) (a : list (jsstr * jsstr)) : option jsstr :=
  match a with
  | [] => None
  | (k, v) :: a' => if str_eqb k name then Some v else get_attr name a'
  end.

(** The class names of an element: its [class] attribute split at white space. *)
Fixpoint words (cur : jsstr) (s : jsstr) : list jsstr :=
  match s with
  | [] => match cur with [] => [] | _ => [rev cur] end
  | c :: s' =>
      if is_space c
      then match cur with [] => words [] s' | _ => rev cur :: words [] s' end
      else words (c :: cur) s'
  end.

Definition classes_of (n : node) : list jsstr :=
  match get_attr (js "class") (attrs_of n) with
  | Some v => words [] v
  | None => []
  end.

Definition hasClass (c : string) (n : node) : bool :=
  existsb (str_eqb (js c)) (classes_of n).

(** *** Selectors

    The selectors of the sources are comma lists of descendant chains of
    compound selectors; [:not(...)] takes such a chain without a further
    [:not]. *)

Inductive atom : Type :=
| ATag : string -> atom              (* h1 *)
| AClass : string -> atom            (* .content *)
| AId : string -> atom               (* #content *)
| AAttrEq : string -> string -> atom   (* [role="main"] *)
| AAttrSub : string -> string -> atom  (* [class*="job"] *)
| AAttrPre : string -> string -> atom  (* [class^=list-item-] *)
| AContains : string -> atom.        (* :contains("Apply") *)

Inductive simple : Type :=
| Is : atom -> simple
| IsNot : list (list atom) -> simple.  (* :not(a b) *)

Definition compound := list simple.
Definition chain := list compound.     (* outermost ancestor first *)
Definition selector := list chain.     (* the comma list *)

Definition match_atom (a : atom) (n : node) : bool :=
  match a with
  | ATag t => str_eqb (js t) (tag_of n)
  | AClass c => hasClass c n
  | AId i => match get_attr (js "id") (attrs_of n) with
             | Some v => str_eqb v (js i)
             | None => false
             end
  | AAttrEq k v => match get_attr (js k) (attrs_of n) with
                   | Some x => str_eqb x (js v)
                   | None => false
                   end
  | AAttrSub k v => match get_attr (js k) (attrs_of n) with
                    | Some x => includes (js v) x
                    | None => false
                    end
  | AAttrPre k v => match get_attr (js k) (attrs_of n) with
                    | Some x => startsWith (js v) x
                    | None => false
                    end
  | AContains t => includes (js t) (text_of n)
  end.

(** A descendant chain, innermost compound first, against an element and its
    ancestors (nearest first). *)
Section Chains.
Context {C : Type}.
Variable match_one : C -> node -> list node -> bool.

Fixpoint match_above (rest : list C) (anc : list node) : bool :=
  match rest with
  | [] => true
  | cp :: rest' =>
      (fix up (l : list node) : bool :=
         match l with
         | [] => false
         | a :: l' => (match_one cp a l' && match_above rest' l') || up l'
         end) anc
  end.

Definition match_chain_rev (rc : list C) (n : node) (anc : list node) : bool :=
  match rc with
  | [] => false
  | cp :: rest => match_one cp n anc && match_above rest anc
  end.

End Chains.

Definition match_atoms (cp : list atom) (n : node) (_ : list node) : bool :=
  forallb (fun a => match_atom a n) cp.

Definition match_simple (x : simple) (n : node) (anc : list node) : bool :=
  match x with
  | Is a => match_atom a n
  | IsNot ch => negb (match_chain_rev match_atoms (rev ch) n anc)
  end.

Definition match_compound (cp : compound) (n : node) (anc : list node) : bool :=
  forallb (fun x => match_simple x n anc) cp.

Definition matches (sel : selector) (n : node) (anc : list node) : bool :=
  is_elem n && existsb (fun ch => match_chain_rev match_compound (rev ch) n anc) sel.

(** *** Selections

    A selected element is kept with its ancestors (nearest first) and the
    siblings that follow it, which is what [next], [find] and [is] need. *)

Record loc : Type := mkLoc {
  l_node : node;
  l_anc : list node;
  l_after : list node
}.

Fixpoint locs_node (anc : list node) (n : node) (after : list node) : list loc :=
  match n with
  | Text _ => []
  | Elem _ _ kids =>
      mkLoc n anc after ::
      (fix go (l : list node) : list loc :=
         match l with
         | [] => []
         | k :: l' => locs_node (n :: anc) k l' ++ go l'
         end) kids
  end.

Fixpoint locs (anc : list node) (l : list node) : list loc :=
  match l with
  | [] => []
  | n :: l' => locs_node anc n l' ++ locs anc l'
  end.

Definition loc_matches (sel : selector) (x : loc) : bool :=
  matches sel (l_node x) (l_anc x).

(** [$(sel)]: the matching elements in document order. *)
Definition select (sel : selector) (d : document) : list loc :=
  List.filter (loc_matches sel) (locs [] d).

(** [$el.find(sel)]: the matching descendants; the selector is scoped to the
    element, so its chain is matched below the element only. *)
Definition find (sel : selector) (x : loc) : list loc :=
  List.filter (loc_matches sel) (locs [] (kids_of (l_node x))).

Definition find_all (sel : selector) (xs : list loc) : list loc :=
  flat_map (find sel) xs.

(** [$el.next()] *)
Fixpoint next_elem (anc : list node) (after : list node) : option loc :=
  match after with
  | [] => None
  | n :: rest => if is_elem n then Some (mkLoc n anc rest) else next_elem anc rest
  end.

Definition next (x : loc) : option loc := next_elem (l_anc x) (l_after x).

(** [$el.next(sel)] *)
Definition next_matching (sel : selector) (x : loc) : option loc :=
  match next x with
  | Some y => if loc_matches sel y then Some y else None
  | None => None
  end.

(** [$(...).text()], [$(...).first().text()], [$(...).attr(name)] *)
Definition text (xs : list loc) : jsstr := concat (map (fun x => text_of (l_node x)) xs).

Definition first (xs : list loc) : list loc :=
  match xs with
  | [] => []
  | x :: _ => [x]
  end.

Definition attr (name : string) (xs : list loc) : option jsstr :=
  match xs with
  | [] => None
  | x :: _ => get_attr (js name) (attrs_of (l_node x))
  end.

(** [$(sel).remove()]: the selected elements leave the tree with all that is
    below them. *)
Fixpoint prune_node (sel : selector) (anc : list node) (n : node) : list node :=
  match n with
  | Text _ => [n]
  | Elem t a kids =>
      if matches sel n anc then []
      else [Elem t a (flat_map (prune_node sel (n :: anc)) kids)]
  end.

Definition remove (sel : selector) (d : document) : document :=
  flat_map (prune_node sel []) d.

(** Short forms for writing selectors. *)
Definition tag (t : string) : simple := Is (ATag t).
Definition cls (c : string) : simple := Is (AClass c).
Definition idsel (i : string) : simple := Is (AId i).
Definition attr_eq (k v : string) : simple := Is (AAttrEq k v).
Definition attr_sub (k v : string) : simple := Is (AAttrSub k v).
Definition attr_pre (k v : string) : simple := Is (AAttrPre k v).
Definition contains (t : string) : simple := Is (AContains t).
(** A selector made of plain tag names: ['p, ul, ol']. *)
Definition tags (l : list string) : selector := map (fun t => [[tag t]]) l.

End Dom.

Export Dom.

(** ** src/routes/extractors.ts *)

Module Extractors.

(** The first element of a list for which [f] gives a value: the shape of the
    [each] loops that stop at the first hit ([if (value) return]). *)
Fixpoint first_some {A B : Type} (f : A -> option B) (l : list A) : option B :=
  match l with
  | [] => None
  | x :: l' =>
      match f x with
      | Some y => Some y
      | None => first_some f l'
      end
  end.

(** A non-empty string, or [null]: [text || null]. *)
Definition non_empty (s : jsstr) : option jsstr :=
  match s with
  | [] => None
  | _ :: _ => Some s
  end.

(** *** isCompanyName *)

Definition companyPatterns : list regex :=
  [ seq_of [Bol; lit_i "bloomberg"; Eol];
    seq_of [Bol; lit_i "ucla"; star space; lit_i "health"; Eol];
    seq_of [Bol; lit_i "unifi"; Eol];
    seq_of [Bol; lit_i "avature"; Eol] ].

Definition isCompanyName (text : jsstr) : bool :=
  existsb (fun pattern => test pattern (trim text)) companyPatterns.

(** *** getText *)

Definition getText (d : document) (sel : selector) : option jsstr :=
  non_empty (trim (text (first (select sel d)))).

(** *** getJobTitle *)

(** /^(.+?)\s*[-|]\s*\d+\s*[-|]/ *)
Definition title_id_re : regex :=
  seq_of [Bol; Grp 1 (lazy_plus dot); star space; one_of [45; 124]; star space;
          plus digit; star space; one_of [45; 124]].

(** /^(.+?)\s*[-|]\s*[A-Z]/ *)
Definition title_simple_re : regex :=
  seq_of [Bol; Grp 1 (lazy_plus dot); star space; one_of [45; 124]; star space;
          Chr is_upper].

(** /\/JobDetail\/([^/]+)\/\d+/ *)
Definition url_slug_re : regex :=
  seq_of [lit "/JobDetail/"; Grp 1 (plus (none_of [47])); chr 47; plus digit].

Definition title_selectors : list selector :=
  [ [[ [tag "main"]; [tag "h1"; IsNot [[AClass "visibility--hidden--visually"]]] ]];
    [[ [tag "article"]; [tag "h1"] ]];
    [[ [attr_sub "class" "job"]; [tag "h1"] ]];
    [[ [attr_sub "class" "detail"]; [tag "h1"] ]];
    [[ [idsel "content"]; [tag "h1"] ]];
    [[ [cls "content"]; [tag "h1"] ]];
    [[ [tag "h1"; IsNot [[ATag "header"]; [ATag "h1"]];
                  IsNot [[ATag "nav"]; [ATag "h1"]];
                  IsNot [[AClass "visibility--hidden--visually"]]] ]] ].

(** The test both heading strategies apply to a candidate. *)
Definition heading_ok (text : jsstr) : bool :=
  truthy (Some text)
  && negb (includes (js "home page") (toLowerCase text))
  && negb (includes (js "careers") (toLowerCase text))
  && (5 <? jlen text)%nat && (jlen text <? 200)%nat
  && negb (isCompanyName text).

(** Method 1: the og:title meta tag. *)
Definition title_from_og (d : document) : option jsstr :=
  match option_map trim (attr "content" (select [[ [tag "meta"; attr_eq "property" "og:title"] ]] d)) with
  | Some ogTitle =>
      if truthy (Some ogTitle) && (5 <? jlen ogTitle)%nat && (jlen ogTitle <? 200)%nat
      then Some ogTitle else None
  | None => None
  end.

(** Method 2: the page title, cut before the job id or the company name. *)
Definition title_from_page_title (d : document) : option jsstr :=
  let pageTitle := trim (text (select (tags ["title"]) d)) in
  if truthy (Some pageTitle) then
    match
      match exec 1 title_id_re pageTitle with
      | Some m =>
          match group 1 m with
          | Some g => if (5 <? jlen g)%nat then Some (trim g) else None
          | None => None
          end
      | None => None
      end
    with
    | Some t => Some t
    | None =>
        match exec 1 title_simple_re pageTitle with
        | Some m =>
            match group 1 m with
            | Some g =>
                if (5 <? jlen g)%nat && (jlen g <? 150)%nat then Some (trim g) else None
            | None => None
            end
        | None => None
        end
    end
  else None.

(** Method 3: the first field value set in the title font. *)
Definition title_from_field_value (d : document) : option jsstr :=
  let bloombergTitle :=
    trim (text (first (select
      [[ [cls "article__content__view__field__value--font"];
         [cls "article__content__view__field__value"] ]] d))) in
  if truthy (Some bloombergTitle) && (5 <? jlen bloombergTitle)%nat
     && (jlen bloombergTitle <? 200)%nat
  then Some bloombergTitle else None.

(** Method 4: the first element of each heading selector in turn. *)
Definition selector_candidate (d : document) (sel : selector) : option jsstr :=
  match select sel d with
  | el :: _ =>
      let text := trim (text_of (l_node el)) in
      if heading_ok text then Some text else None
  | [] => None
  end.

Definition title_from_selectors (d : document) : option jsstr :=
  first_some (selector_candidate d) title_selectors.

(** Method 5: the first visible h1 that looks like a job title. *)
Definition h1_candidate (el : loc) : option jsstr :=
  if hasClass "visibility--hidden--visually" (l_node el) || hasClass "sr-only" (l_node el)
  then None
  else
    let text := trim (text_of (l_node el)) in
    if heading_ok text then Some text else None.

Definition title_from_h1 (d : document) : option jsstr :=
  first_some h1_candidate (select (tags ["h1"]) d).

(** Method 6: the slug of the URL. *)
Definition title_from_url (url : jsstr) : option jsstr :=
  match exec 1 url_slug_re url with
  | Some m => option_map (replace_char 45 [32]) (group 1 m)
  | None => None
  end.

Definition getJobTitle (d : document) (url : jsstr) : option jsstr :=
  match title_from_og d with
  | Some t => Some t
  | None =>
  match title_from_page_title d with
  | Some t => Some t
  | None =>
  match title_from_field_value d with
  | Some t => Some t
  | None =>
  match title_from_selectors d with
  | Some t => Some t
  | None =>
  match title_from_h1 d with
  | Some t => Some t
  | None => title_from_url url
  end end end end end.

(** *** getFieldByLabels *)

(** [x.replace(/[:#]/g, '')] *)
Definition drop_colon_hash (s : jsstr) : jsstr :=
  List.filter (fun c => negb ((c =? 58) || (c =? 35))) s.

(** [x.replace(/^[:\-\u2013|\u2022\s]+/, '')]: the leading run of separators
    (colon, hyphen, en dash, bar, bullet, white space) is cut. *)
Fixpoint drop_separators (s : jsstr) : jsstr :=
  match s with
  | c :: s' =>
      if (c =? 58) || (c =? 45) || (c =? 8211) || (c =? 124) || (c =? 8226) || is_space c
      then drop_separators s' else s
  | [] => []
  end.

(** A candidate value: non-empty and shorter than [cap]. *)
Definition capped (cap : nat) (v : jsstr) : option jsstr :=
  if truthy (Some v) && (jlen v <? cap)%nat then Some v else None.

(** Method 0: label/value pairs of a field block. *)
Definition field_block_value (lowerLabel : jsstr) (field : loc) : option jsstr :=
  let label := find [[ [cls "article__content__view__field__label"] ]] field in
  let value := find [[ [cls "article__content__view__field__value"] ]] field in
  match label, value with
  | _ :: _, _ :: _ =>
      let labelTextContent := toLowerCase (trim (text label)) in
      if includes lowerLabel labelTextContent
         || includes (trim (drop_colon_hash labelTextContent)) lowerLabel
      then capped 500 (trim (text value))
      else None
  | _, _ => None
  end.

(** Method 1: an emphasized label followed by inline text. *)
Definition strong_label_value (lowerLabel : jsstr) (el : loc) : option jsstr :=
  match find (tags ["strong"; "b"]) el with
  | strong :: _ =>
      let strongText := toLowerCase (trim (text_of (l_node strong))) in
      if includes lowerLabel strongText then
        let fullText := trim (text_of (l_node el)) in
        let strongPart := trim (text_of (l_node strong)) in
        let from :=
          match indexOf strongPart fullText with
          | Some i => (i + jlen strongPart)%nat
          | None => Nat.pred (jlen strongPart)
          end in
        let remainder := trim (drop_separators (substring_from from fullText)) in
        if truthy (Some remainder) && (jlen remainder <? 500)%nat
           && negb (includes (js "twigConfig") remainder)
        then Some remainder else None
      else None
  | [] => None
  end.

(** Method 2: a definition term and the definition that follows it. *)
Definition dt_dd_value (lowerLabel : jsstr) (dt : loc) : option jsstr :=
  if includes lowerLabel (toLowerCase (trim (text_of (l_node dt)))) then
    match next_matching (tags ["dd"]) dt with
    | Some dd => capped 500 (trim (text_of (l_node dd)))
    | None => None
    end
  else None.

(** Method 3: header and cells of a table row. *)
Definition table_row_value (lowerLabel : jsstr) (row : loc) : option jsstr :=
  let th := find (tags ["th"]) row in
  let td := find (tags ["td"]) row in
  match th, td with
  | _ :: _, _ :: _ =>
      if includes lowerLabel (toLowerCase (trim (text th)))
      then capped 500 (trim (text td))
      else None
  | _, _ => None
  end.

(** Method 4: a block that holds just the label, and the block after it. *)
Definition adjacent_block_value (lowerLabel : jsstr) (el : loc) : option jsstr :=
  let text := toLowerCase (trim (text_of (l_node el))) in
  if str_eqb text lowerLabel || str_eqb text (lowerLabel ++ js ":") then
    match next_matching (tags ["div"; "span"]) el with
    | Some nxt =>
        let nextText := trim (text_of (l_node nxt)) in
        if truthy (Some nextText) && (jlen nextText <? 200)%nat
           && negb (includes (js "location") (toLowerCase nextText))
           && negb (includes (js "business area") (toLowerCase nextText))
           && negb (includes (js "ref #") (toLowerCase nextText))
        then Some nextText else None
    | None => None
    end
  else None.

Definition field_by_label (d : document) (labelText : string) : option jsstr :=
  let lowerLabel := toLowerCase (js labelText) in
  match first_some (field_block_value lowerLabel)
          (select [[ [cls "article__content__view__field"] ]] d) with
  | Some v => Some v
  | None =>
  match first_some (strong_label_value lowerLabel)
          (select (tags ["p"; "div"; "span"; "li"]) d) with
  | Some v => Some v
  | None =>
  match first_some (dt_dd_value lowerLabel) (select (tags ["dt"]) d) with
  | Some v => Some v
  | None =>
  match first_some (table_row_value lowerLabel) (select (tags ["tr"]) d) with
  | Some v => Some v
  | None =>
      first_some (adjacent_block_value lowerLabel) (select (tags ["div"; "span"]) d)
  end end end end.

Definition getFieldByLabels (d : document) (labels : list string) : option jsstr :=
  first_some (field_by_label d) labels.

(** *** getTextByPattern *)

Definition main_content : selector :=
  [ [[tag "main"]]; [[tag "article"]]; [[idsel "content"]]; [[cls "content"]];
    [[attr_eq "role" "main"]] ].

(** [pattern] comes with the number of its groups. *)
Definition getTextByPattern (d : document) (pattern : nat * regex) : option jsstr :=
  let contentText :=
    match text (select main_content d) with
    | [] => text (select (tags ["body"]) d)
    | t => t
    end in
  match exec (fst pattern) (snd pattern) contentText with
  | Some m => or_else (option_map trim (group 1 m)) (option_map trim (group 0 m))
  | None => None
  end.

(** *** getFieldFromText *)

(** The pattern built around a label:
    label[:\s]*([^\n]{3,100})(?=\s*(?:Location|Business Area|Ref|Posted|Salary|Department|$))
    with the [i] flag.  The label is spliced in as pattern text; the labels
    the handlers pass consist of letters, blanks and [#], which stand for
    themselves. *)
Definition label_value_re (label : string) : regex :=
  seq_of [ lit_i label;
           star (Chr (fun c => (c =? 58) || is_space c));
           Grp 1 (times 3 100 (none_of [10]));
           Ahead (Seq (star space)
                      (alt_of [lit_i "Location"; lit_i "Business Area"; lit_i "Ref";
                               lit_i "Posted"; lit_i "Salary"; lit_i "Department"; Eol])) ].

Definition getFieldFromText (d : document) (labels : list string) : option jsstr :=
  let bodyText := text (select (tags ["body"]) d) in
  first_some (fun label =>
    match exec 1 (label_value_re label) bodyText with
    | Some m =>
        match group 1 m with
        | Some g =>
            if truthy (Some g) then
              let value := trim g in
              if truthy (Some value) && (jlen value <? 200)%nat
                 && negb (includes (js "twigConfig") value)
              then Some value else None
            else None
        | None => None
        end
    | None => None
    end) labels.

(** *** createFieldExtractor

    The closures the source returns read the shared document each time they
    are called; here they are the functions above, applied to the document as
    it is at the call.  What the constructor itself does is the removal. *)
Record FieldExtractor : Type := {
  fx_getText : document -> selector -> option jsstr;
  fx_getJobTitle : document -> jsstr -> option jsstr;
  fx_getFieldByLabels : document -> list string -> option jsstr;
  fx_getTextByPattern : document -> nat * regex -> option jsstr;
  fx_getFieldFromText : document -> list string -> option jsstr
}.

Definition script_style_noscript : selector := tags ["script"; "style"; "noscript"].

(** The document after the call, and the extractor. *)
Definition createFieldExtractor (d : document) : document * FieldExtractor :=
  (remove script_style_noscript d,
   {| fx_getText := getText;
      fx_getJobTitle := getJobTitle;
      fx_getFieldByLabels := getFieldByLabels;
      fx_getTextByPattern := getTextByPattern;
      fx_getFieldFromText := getFieldFromText |}).

(** *** parseDate *)

(** /^\d{4}-\d{2}-\d{2}/ *)
Definition iso_re : regex :=
  seq_of [Bol; times 4 4 digit; chr 45; times 2 2 digit; chr 45; times 2 2 digit].

(** /(\d{1,2})\/(\d{1,2})\/(\d{4})/ *)
Definition mdy_re : regex :=
  seq_of [Grp 1 (times 1 2 digit); chr 47; Grp 2 (times 1 2 digit); chr 47;
          Grp 3 (times 4 4 digit)].

(** /(\d{1,2})-([A-Za-z]{3})-(\d{4})/ *)
Definition dmy_re : regex :=
  seq_of [Grp 1 (times 1 2 digit); chr 45; Grp 2 (times 3 3 alpha); chr 45;
          Grp 3 (times 4 4 digit)].

(** /([A-Za-z]+)\s+(\d{1,2}),?\s+(\d{4})/ *)
Definition full_re : regex :=
  seq_of [Grp 1 (plus alpha); plus space; Grp 2 (times 1 2 digit); opt (chr 44);
          plus space; Grp 3 (times 4 4 digit)].

Definition short_months : list (string * string) :=
  [ ("jan", "01"); ("feb", "02"); ("mar", "03"); ("apr", "04"); ("may", "05");
    ("jun", "06"); ("jul", "07"); ("aug", "08"); ("sep", "09"); ("oct", "10");
    ("nov", "11"); ("dec", "12") ].

Definition long_months : list (string * string) :=
  [ ("january", "01"); ("february", "02"); ("march", "03"); ("april", "04");
    ("may", "05"); ("june", "06"); ("july", "07"); ("august", "08");
    ("september", "09"); ("october", "10"); ("november", "11"); ("december", "12") ].

Fixpoint own_property (table : list (string * string)) (key : jsstr) : option jsstr :=
  match table with
  | [] => None
  | (k, v) :: table' => if str_eqb (js k) key then Some (js v) else own_property table' key
  end.

(** [months[key]] on an object literal, as the text a template string makes
    of it.  A key the literal lacks is looked up on [Object.prototype]; the
    keys that reach this point are lower-case letters only, and the one
    inherited property with such a name is [constructor], a function. *)
Definition property (table : list (string * string)) (key : jsstr) : option jsstr :=
  match own_property table key with
  | Some v => Some v
  | None =>
      if str_eqb key (js "constructor")
      then Some (js "function Object() { [native code] }")
      else None
  end.

Definition ymd (y m d : jsstr) : jsstr := y ++ js "-" ++ m ++ js "-" ++ d.

(** The three groups of a match array. *)
Definition groups3 (m : list (option jsstr)) : jsstr * jsstr * jsstr :=
  (default [] (group 1 m), default [] (group 2 m), default [] (group 3 m)).

Definition parse_mdy (dateStr : jsstr) : option jsstr :=
  match exec 3 mdy_re dateStr with
  | Some m => let '(g1, g2, g3) := groups3 m in Some (ymd g3 (padStart2 g1) (padStart2 g2))
  | None => None
  end.

Definition parse_dmy (dateStr : jsstr) : option jsstr :=
  match exec 3 dmy_re dateStr with
  | Some m =>
      let '(g1, g2, g3) := groups3 m in
      match property short_months (toLowerCase g2) with
      | Some month => if truthy (Some month) then Some (ymd g3 month (padStart2 g1)) else None
      | None => None
      end
  | None => None
  end.

Definition parse_full (dateStr : jsstr) : option jsstr :=
  match exec 3 full_re dateStr with
  | Some m =>
      let '(g1, g2, g3) := groups3 m in
      match property long_months (toLowerCase g1) with
      | Some month => if truthy (Some month) then Some (ymd g3 month (padStart2 g2)) else None
      | None => None
      end
  | None => None
  end.

Definition parseDate (dateStr : option jsstr) : option jsstr :=
  if negb (truthy dateStr) then None
  else
    let s := default [] dateStr in
    if test iso_re s then Some s
    else match parse_mdy s with
         | Some r => Some r
         | None =>
         match parse_dmy s with
         | Some r => Some r
         | None =>
         match parse_full s with
         | Some r => Some r
         | None => Some s
         end end end.

(** *** parseSalary *)

Record Salary : Type := {
  s_min : option jsstr;
  s_max : option jsstr;
  s_raw : option jsstr;
  s_period : option jsstr
}.

(** [\d,] *)
Definition amount_char (c : N) : bool := is_digit c || (c =? 44).

(** [\d,]+(?:\.\d+)? *)
Definition amount : regex :=
  Seq (plus (Chr amount_char)) (opt (Seq (chr 46) (plus digit))).

(** /\$?([\d,]+(?:\.\d+)?)\s*[-\u2013to]+\s*\$?([\d,]+(?:\.\d+)?)/i *)
Definition range_re : regex :=
  seq_of [ opt (chr 36); Grp 1 amount; star space;
           plus (one_of [45; 8211; 116; 84; 111; 79]);
           star space; opt (chr 36); Grp 2 amount ].

(** /\$?([\d,]+(?:\.\d+)?)/ *)
Definition single_re : regex := Seq (opt (chr 36)) (Grp 1 amount).

Definition detect_period (salaryStr : jsstr) : option jsstr :=
  let lowerSalary := toLowerCase salaryStr in
  if includes (js "hour") lowerSalary then Some (js "hourly")
  else if includes (js "year") lowerSalary || includes (js "annual") lowerSalary
       then Some (js "yearly")
  else if includes (js "month") lowerSalary then Some (js "monthly")
  else if includes (js "week") lowerSalary then Some (js "weekly")
  else None.

Definition strip_commas (s : jsstr) : jsstr := replace_char 44 [] s.

Definition parseSalary (salaryStr : option jsstr) : Salary :=
  if negb (truthy salaryStr)
  then {| s_min := None; s_max := None; s_raw := salaryStr; s_period := None |}
  else
    let s := default [] salaryStr in
    let period := detect_period s in
    match exec 2 range_re s with
    | Some m =>
        {| s_min := option_map strip_commas (group 1 m);
           s_max := option_map strip_commas (group 2 m);
           s_raw := salaryStr; s_period := period |}
    | None =>
        match exec 1 single_re s with
        | Some m =>
            let min := option_map strip_commas (group 1 m) in
            {| s_min := min; s_max := min; s_raw := salaryStr; s_period := period |}
        | None =>
            {| s_min := None; s_max := None; s_raw := salaryStr; s_period := period |}
        end
    end.

End Extractors.

Export Extractors.

(** ** src/routes/types.ts and src/routes/utils.ts *)

Module Utils.

Inductive Label : Type := LISTING | JOB_DETAIL.

(** URL_PATTERNS.LISTING: /\/careers\/SearchJobs/i *)
Definition listing_re : regex := lit_i "/careers/SearchJobs".

(** URL_PATTERNS.JOB_DETAIL: /\/careers\/JobDetail\/[^/]+\/\d+/i *)
Definition job_detail_re : regex :=
  seq_of [lit_i "/careers/JobDetail/"; plus (none_of [47]); chr 47; plus digit].

Definition getRouteLabel (url : jsstr) : option Label :=
  if test job_detail_re url then Some JOB_DETAIL
  else if test listing_re url then Some LISTING
  else None.

(** [new URL(url)], for the absolute URLs a crawl loads
    ([scheme://host[:port]/...], written in lower case, without user
    information): its [protocol], [host] and [hostname]. *)
Record URL : Type := { protocol : jsstr; host : jsstr; hostname : jsstr }.

Fixpoint take_until (stop : N -> bool) (s : jsstr) : jsstr :=
  match s with
  | [] => []
  | c :: s' => if stop c then [] else c :: take_until stop s'
  end.

Fixpoint drop_until (stop : N -> bool) (s : jsstr) : jsstr :=
  match s with
  | [] => []
  | c :: s' => if stop c then s else drop_until stop s'
  end.

Definition new_URL (url : jsstr) : URL :=
  let scheme := take_until (N.eqb 58) url in
  let rest :=
    match drop_until (N.eqb 58) url with
    | _ :: 47 :: 47 :: r => r
    | _ :: r => r
    | [] => []
    end in
  let h := take_until (fun c => (c =? 47) || (c =? 63) || (c =? 35)) rest in
  {| protocol := scheme ++ js ":"; host := h; hostname := take_until (N.eqb 58) h |}.

Definition getBaseUrl (url : jsstr) : jsstr :=
  let parsed := new_URL url in
  protocol parsed ++ js "//" ++ host parsed.

Definition getSubdomain (url : jsstr) : jsstr :=
  let parsed := new_URL url in
  let parts := split_on 46 (hostname parsed) in
  if (2 <? List.length parts)%nat then List.hd [] parts else hostname parsed.

End Utils.

Export Utils.

(** ** The crawl: requests, output records and the state a handler changes *)

Module Crawl.

(** [request.userData] as the listing handler fills it: the card's title and
    its subtitle fields by key. *)
Record UserData : Type := {
  ud_title : option jsstr;
  ud_subtitles : option (gmap jsstr jsstr)
}.

Definition no_userData : UserData := {| ud_title := None; ud_subtitles := None |}.

Record Request : Type := {
  r_url : jsstr;
  r_loadedUrl : option jsstr;
  r_label : option Label;
  r_userData : UserData
}.

(** A request handed to the crawler's queue. *)
Record Source : Type := {
  q_url : jsstr;
  q_label : option Label;
  q_userData : UserData
}.

(** The record [Dataset.pushData] receives. *)
Record ExtractedJob : Type := {
  url : jsstr;
  jobId : option jsstr;
  refNumber : option jsstr;
  subdomain : jsstr;
  title : option jsstr;
  location : option jsstr;
  workType : option jsstr;
  schedule : option jsstr;
  salaryMin : option jsstr;
  salaryMax : option jsstr;
  salaryPeriod : option jsstr;
  salaryRaw : option jsstr;
  employmentType : option jsstr;
  employmentClassification : option jsstr;
  duration : option jsstr;
  department : option jsstr;
  category : option jsstr;
  entity : option jsstr;
  postedDate : option jsstr;
  description : option jsstr;
  qualifications : option jsstr;
  duties : option jsstr;
  fullContent : jsstr;
  applyUrl : option jsstr;
  additional : option (gmap jsstr jsstr);
  scrapedAt : jsstr
}.

Inductive ErrorType : Type :=
| HTTP_ERROR | UNAUTHORIZED | ACCESS_DENIED | PAGE_NOT_FOUND | RATE_LIMITED
| PROXY_RATE_LIMITED | SERVER_ERROR | AUTH_REQUIRED | SESSION_EXPIRED
| SERVICE_UNAVAILABLE | MAINTENANCE | JOB_CLOSED
| REQUEST_FAILED | TIMEOUT | CONNECTION_REFUSED | DNS_ERROR | SSL_ERROR.

Definition errorType_name (t : ErrorType) : string :=
  match t with
  | HTTP_ERROR => "HTTP_ERROR" | UNAUTHORIZED => "UNAUTHORIZED"
  | ACCESS_DENIED => "ACCESS_DENIED" | PAGE_NOT_FOUND => "PAGE_NOT_FOUND"
  | RATE_LIMITED => "RATE_LIMITED" | PROXY_RATE_LIMITED => "PROXY_RATE_LIMITED"
  | SERVER_ERROR => "SERVER_ERROR" | AUTH_REQUIRED => "AUTH_REQUIRED"
  | SESSION_EXPIRED => "SESSION_EXPIRED" | SERVICE_UNAVAILABLE => "SERVICE_UNAVAILABLE"
  | MAINTENANCE => "MAINTENANCE" | JOB_CLOSED => "JOB_CLOSED"
  | REQUEST_FAILED => "REQUEST_FAILED" | TIMEOUT => "TIMEOUT"
  | CONNECTION_REFUSED => "CONNECTION_REFUSED" | DNS_ERROR => "DNS_ERROR"
  | SSL_ERROR => "SSL_ERROR"
  end.

(** What [saveErrorSample] writes: the fields of the file's header and the
    page markup (the file holds it re-indented). *)
Record ErrorSample : Type := {
  e_url : jsstr;
  e_errorType : ErrorType;
  e_errorMessage : jsstr;
  e_statusCode : option N;
  e_html : jsstr;
  e_capturedAt : jsstr
}.

(** The state a handler can change: the parsed page behind [$], which is
    shared by everything that runs for the request, the dataset, the requests
    handed to the queue and the error samples on disk.  Log lines are left
    out. *)
Record World : Type := {
  page : document;
  dataset : list ExtractedJob;
  requests : list Source;
  errorSamples : list ErrorSample
}.

Definition set_page (d : document) (w : World) : World :=
  {| page := d; dataset := dataset w; requests := requests w;
     errorSamples := errorSamples w |}.

(** [Dataset.pushData(job)] *)
Definition pushData (job : ExtractedJob) (w : World) : World :=
  {| page := page w; dataset := dataset w ++ [job]; requests := requests w;
     errorSamples := errorSamples w |}.

(** [addRequests(sources)] *)
Definition addRequests (sources : list Source) (w : World) : World :=
  {| page := page w; dataset := dataset w; requests := requests w ++ sources;
     errorSamples := errorSamples w |}.

(** [enqueueLinks({ urls, label })] *)
Definition enqueueLinks (urls : list jsstr) (label : Label) (w : World) : World :=
  addRequests
    (map (fun u => {| q_url := u; q_label := Some label; q_userData := no_userData |}) urls) w.

Definition saveErrorSample (now url html : jsstr) (errorType : ErrorType)
    (errorMessage : jsstr) (statusCode : option N) (w : World) : World :=
  {| page := page w; dataset := dataset w; requests := requests w;
     errorSamples := errorSamples w ++
       [{| e_url := url; e_errorType := errorType; e_errorMessage := errorMessage;
           e_statusCode := statusCode; e_html := html; e_capturedAt := now |}] |}.

(** The URL a handler works with: [request.loadedUrl ?? request.url]. *)
Definition request_url (request : Request) : jsstr :=
  default (r_url request) (r_loadedUrl request).

(** A hint of the listing card: [request.userData?.subtitles?.key]. *)
Definition subtitle (request : Request) (key : string) : option jsstr :=
  match ud_subtitles (r_userData request) with
  | Some subs => subs !! js key
  | None => None
  end.

(** [href.startsWith('http') ? href : baseUrl + (href.startsWith('/') ? '' : '/') + href] *)
Definition resolve (baseUrl href : jsstr) : jsstr :=
  if startsWith (js "http") href then href
  else baseUrl ++ (if startsWith (js "/") href then [] else js "/") ++ href.

End Crawl.

Export Crawl.

(** ** src/routes/job-detail.handler.ts *)

Module JobDetail.

(** /\/(\d+)(?:[/?#]|$)/ *)
Definition job_id_re : regex :=
  seq_of [chr 47; Grp 1 (plus digit); Alt (one_of [47; 63; 35]) Eol].

(** /posted[:\s]+(\d{1,2}[-/][A-Za-z0-9]{2,3}[-/]\d{2,4})/i *)
Definition posted_re : regex :=
  seq_of [ lit_i "posted"; plus (Chr (fun c => (c =? 58) || is_space c));
           Grp 1 (seq_of [ times 1 2 digit; one_of [45; 47];
                           times 2 3 (Chr (fun c => is_alpha c || is_digit c));
                           one_of [45; 47]; times 2 4 digit ]) ].

(** /(?:job\s*#|ref\s*#|requisition[:\s]*#?)\s*(\d+)/i *)
Definition ref_text_re : regex :=
  seq_of [ alt_of [ seq_of [lit_i "job"; star space; chr 35];
                    seq_of [lit_i "ref"; star space; chr 35];
                    seq_of [lit_i "requisition";
                            star (Chr (fun c => (c =? 58) || is_space c)); opt (chr 35)] ];
           star space; Grp 1 (plus digit) ].

(** /(ref)\s#/g *)
Definition ref_prefix_re : regex := seq_of [Grp 1 (lit "ref"); space; chr 35].

(** The hint of the card for the reference number, as the handler reads it:
    [subtitles.ref?.toLowerCase().replaceAll(/(ref)\s#/g, '')]. *)
Definition ref_hint (request : Request) : option jsstr :=
  option_map (fun r => replace_all ref_prefix_re [] (toLowerCase r)) (subtitle request "ref").

Definition apply_links : selector :=
  [ [[tag "a"; attr_sub "href" "ApplicationMethods"]];
    [[tag "a"; attr_sub "href" "Apply"]];
    [[tag "a"; attr_sub "href" "apply"]];
    [[tag "a"; contains "Apply"]];
    [[tag "a"; contains "apply"]];
    [[tag "a"; cls "button--primary"]] ].

Definition find_applyUrl (d : document) (url : jsstr) : option jsstr :=
  first_some (fun el =>
    match attr "href" [el] with
    | Some href =>
        if truthy (Some href)
        then Some (if startsWith (js "http") href then href else getBaseUrl url ++ href)
        else None
    | None => None
    end) (select apply_links d).

(** *** The description sections *)

Record Sections : Type := {
  sec_description : option jsstr;
  sec_qualifications : jsstr;
  sec_duties : jsstr
}.

Definition any_of (words : list string) (s : jsstr) : bool :=
  existsb (fun w => includes (js w) s) words.

(** [acc ? acc + '\n' + content : content] *)
Definition append_line (acc content : jsstr) : jsstr :=
  match acc with
  | [] => content
  | _ :: _ => acc ++ js (String "010" "") ++ content
  end.

(** The longest description wins. *)
Definition keep_longest (description : option jsstr) (content : jsstr) : option jsstr :=
  if negb (truthy description) || (jlen (default [] description) <? jlen content)%nat
  then Some content else description.

(** The texts of the siblings after a heading, up to the next heading. *)
Fixpoint content_after (anc : list node) (after : list node) : list jsstr :=
  match after with
  | [] => []
  | n :: rest =>
      if is_elem n then
        if matches (tags ["h3"; "h2"; "h1"]) n anc then []
        else
          let text := trim (text_of n) in
          (if truthy (Some text) && negb (includes (js "Press space or enter") text)
           then [text] else []) ++ content_after anc rest
      else content_after anc rest
  end.

(** Method 1: an h3 heading and the content that follows it. *)
Definition heading_section (acc : Sections) (heading : loc) : Sections :=
  let headingText := toLowerCase (trim (text_of (l_node heading))) in
  let content := join (js (String "010" "")) (content_after (l_anc heading) (l_after heading)) in
  if negb (truthy (Some content)) || (jlen content <? 20)%nat then acc
  else if any_of ["primary dut"; "responsibilit"; "what you"] headingText then
    {| sec_description := sec_description acc;
       sec_qualifications := sec_qualifications acc;
       sec_duties := append_line (sec_duties acc) content |}
  else if any_of ["qualification"; "requirement"; "skills"; "experience"] headingText then
    {| sec_description := sec_description acc;
       sec_qualifications := append_line (sec_qualifications acc) content;
       sec_duties := sec_duties acc |}
  else if any_of ["description"; "overview"; "summary"; "about the role"] headingText then
    {| sec_description := keep_longest (sec_description acc) content;
       sec_qualifications := sec_qualifications acc;
       sec_duties := sec_duties acc |}
  else acc.

Definition section_blocks : selector :=
  [ [[tag "section"]]; [[attr_sub "class" "section"]]; [[attr_sub "class" "collapsible"]];
    [[tag "details"]]; [[attr_eq "role" "region"]] ].

Definition section_headings : selector :=
  [ [[tag "h2"]]; [[tag "h3"]]; [[tag "h4"]]; [[tag "summary"]];
    [[attr_sub "class" "header"]]; [[attr_sub "class" "title"]] ].

(** Method 2: a labelled section or block. *)
Definition labelled_section (acc : Sections) (section : loc) : Sections :=
  let heading := toLowerCase (trim (text (first (find section_headings section)))) in
  let content := trim (text (find (tags ["p"; "ul"; "ol"]) section)) in
  if negb (truthy (Some content)) || (jlen content <? 20)%nat then acc
  else if any_of ["description"; "overview"; "summary"; "about"] heading then
    {| sec_description := keep_longest (sec_description acc) content;
       sec_qualifications := sec_qualifications acc;
       sec_duties := sec_duties acc |}
  else if any_of ["qualification"; "requirement"; "skills"; "experience"] heading then
    {| sec_description := sec_description acc;
       sec_qualifications :=
         match sec_qualifications acc with [] => content | q => q end;
       sec_duties := sec_duties acc |}
  else if any_of ["dut"; "responsibilit"; "what you"] heading then
    {| sec_description := sec_description acc;
       sec_qualifications := sec_qualifications acc;
       sec_duties := match sec_duties acc with [] => content | x => x end |}
  else acc.

Definition extract_sections (d : document) : Sections :=
  let s0 := {| sec_description := None; sec_qualifications := []; sec_duties := [] |} in
  let s1 := fold_left heading_section (select (tags ["h3"]) d) s0 in
  fold_left labelled_section (select section_blocks d) s1.

(** *** The handler *)

(** The record built from the page; [now] is the clock reading taken for
    [scrapedAt], [d] the document after [createFieldExtractor] has run. *)
Definition build_job (now : jsstr) (request : Request) (fx : FieldExtractor) (d : document)
  : ExtractedJob :=
  let url := request_url request in
  let subdomain := getSubdomain url in
  let jobId :=
    match exec 1 job_id_re url with
    | Some m => group 1 m
    | None => None
    end in
  let title := or_else (ud_title (r_userData request)) (fx_getJobTitle fx d url) in
  let location :=
    or_else (subtitle request "location")
      (or_else (subtitle request "locationBuiltIn")
         (nullish
            (fx_getFieldByLabels fx d
               ["work location"; "location"; "job location"; "city"; "office location"])
            (fx_getFieldFromText fx d ["Location"]))) in
  let workType :=
    fx_getFieldByLabels fx d
      ["work type"; "remote"; "workplace type"; "work arrangement"; "location type"] in
  let schedule :=
    fx_getFieldByLabels fx d
      ["work schedule"; "schedule"; "shift"; "hours"; "working hours"] in
  let salaryRaw :=
    fx_getFieldByLabels fx d
      ["salary range"; "salary"; "compensation"; "pay range"; "base pay rate";
       "pay rate"; "base pay"; "hourly rate"; "annual salary"] in
  let salary := parseSalary salaryRaw in
  let employmentType :=
    or_else (subtitle request "workingTime")
      (fx_getFieldByLabels fx d
         ["employment type"; "job type"; "position type"; "full/part time";
          "full time/part time"; "type"]) in
  let employmentClassification :=
    fx_getFieldByLabels fx d
      ["employment classification"; "classification"; "flsa status"; "exempt status"] in
  let duration :=
    or_else (subtitle request "contractType")
      (fx_getFieldByLabels fx d
         ["duration"; "contract length"; "term"; "assignment length"]) in
  let department :=
    or_else (subtitle request "department")
      (nullish
         (fx_getFieldByLabels fx d
            ["department"; "business area"; "division"; "team"; "group"; "organization"])
         (fx_getFieldFromText fx d ["Business Area"; "Department"])) in
  let category :=
    fx_getFieldByLabels fx d
      ["category"; "job family"; "job category"; "function"; "area"] in
  let entity :=
    or_else (subtitle request "legalEntity")
      (fx_getFieldByLabels fx d
         ["entity"; "company"; "subsidiary"; "business unit"; "legal entity"]) in
  let postedDateRaw :=
    nullish
      (fx_getFieldByLabels fx d
         ["posted date"; "posted"; "date posted"; "posting date"; "published"])
      (fx_getTextByPattern fx d (1%nat, posted_re)) in
  let postedDate := parseDate postedDateRaw in
  let refNumber :=
    or_else (ref_hint request)
      (nullish
         (nullish
            (fx_getFieldByLabels fx d
               ["job #"; "job number"; "requisition"; "req id"; "position id";
                "opening id"; "ref"; "ref #"])
            (fx_getFieldFromText fx d ["Ref #"; "Ref#"; "Reference"]))
         (fx_getTextByPattern fx d (1%nat, ref_text_re))) in
  let applyUrl := find_applyUrl d url in
  let sections := extract_sections d in
  let fullContent :=
    trim (text (first (select
      [ [[tag "main"]]; [[tag "article"]]; [[attr_eq "role" "main"]];
        [[idsel "content"]]; [[cls "content"]] ] d))) in
  {| url := url;
     jobId := jobId;
     refNumber := if decide (refNumber = jobId) then None else refNumber;
     subdomain := subdomain;
     title := title;
     location := location;
     workType := workType;
     schedule := schedule;
     salaryMin := s_min salary;
     salaryMax := s_max salary;
     salaryPeriod := s_period salary;
     salaryRaw := s_raw salary;
     employmentType := employmentType;
     employmentClassification := employmentClassification;
     duration := duration;
     department := department;
     category := category;
     entity := entity;
     postedDate := postedDate;
     description := sec_description sections;
     qualifications := non_empty (sec_qualifications sections);
     duties := non_empty (sec_duties sections);
     fullContent := fullContent;
     applyUrl := applyUrl;
     additional := ud_subtitles (r_userData request);
     scrapedAt := now |}.

Definition jobDetailHandler (now : jsstr) (request : Request) (w : World) : World :=
  let '(d, fx) := createFieldExtractor (page w) in
  let w1 := set_page d w in
  pushData (build_job now request fx d) w1.

End JobDetail.

Export JobDetail.

(** ** src/routes/listing.handler.ts *)

Module Listing.

Definition job_cards : selector :=
  [ [ [cls "section__content__results"]; [cls "article"] ];
    [ [cls "list"]; [cls "list-item"] ];
    [ [cls "list"]; [cls "list__item"] ] ].

Definition card_link : selector :=
  [ [ [cls "article__header__text__title"]; [tag "a"] ];
    [ [cls "list__item__text__title"]; [tag "a"] ] ].

Definition card_title : selector :=
  [ [[cls "article__header__text__title"]]; [[cls "list__item__text__title"]] ].

Definition card_subtitle : selector :=
  [ [[cls "article__header__text__subtitle"]]; [[cls "list__item__text__subtitle"]] ].

(** [subtitles[key] = value] on a plain object: the key [__proto__] is not a
    property of its own, and assigning a string to it changes nothing. *)
Definition set_property (key value : jsstr) (o : gmap jsstr jsstr) : gmap jsstr jsstr :=
  if str_eqb key (js "__proto__") then o else <[key := value]> o.

(** One [list-item-*] element of a subtitle: its key is what follows the
    prefix in the first class name that carries it. *)
Definition subtitle_entry (subtitles : gmap jsstr jsstr) (subEl : loc) : gmap jsstr jsstr :=
  let classNames :=
    match attr "class" [subEl] with
    | Some c => split_on 32 c
    | None => []
    end in
  match List.find (startsWith (js "list-item-")) classNames with
  | Some cn =>
      let key := substring_from 10 cn in
      if truthy (Some key)
      then set_property key (trim (text_of (l_node subEl))) subtitles
      else subtitles
  | None => subtitles
  end.

Definition subtitle_wrapper (subtitles : gmap jsstr jsstr) (subWrapper : loc)
  : gmap jsstr jsstr :=
  match find [[ [attr_pre "class" "list-item-"] ]] subWrapper with
  | [] => set_property (js "default") (trim (text_of (l_node subWrapper))) subtitles
  | subs => fold_left subtitle_entry subs subtitles
  end.

Definition card_subtitles (article : loc) : gmap jsstr jsstr :=
  fold_left subtitle_wrapper (find card_subtitle article) ∅.

(** The loop over the cards keeps the URLs seen so far and the sources
    collected so far. *)
Definition job_link_step (baseUrl : jsstr) (acc : gset jsstr * list Source) (article : loc)
  : gset jsstr * list Source :=
  let '(seenUrls, jobLinks) := acc in
  match attr "href" (find card_link article) with
  | Some href =>
      if truthy (Some href) then
        let fullUrl := resolve baseUrl href in
        if decide (fullUrl ∈ seenUrls) then acc
        else
          let title := trim (text (first (find card_title article))) in
          ({[fullUrl]} ∪ seenUrls,
           jobLinks ++
             [{| q_url := fullUrl; q_label := Some JOB_DETAIL;
                 q_userData := {| ud_title := Some title;
                                  ud_subtitles := Some (card_subtitles article) |} |}])
      else acc
  | None => acc
  end.

Definition collect_job_links (baseUrl : jsstr) (d : document) : list Source :=
  snd (fold_left (job_link_step baseUrl) (select job_cards d) (∅, [])).

Definition pagination_anchors : selector :=
  [ [[tag "a"; attr_sub "href" "jobOffset"]];
    [[tag "a"; attr_sub "href" "SearchJobs"]];
    [[tag "a"; attr_sub "href" "pageNumber"]] ].

Definition pagination_step (baseUrl : jsstr) (acc : gset jsstr * list jsstr) (link : loc)
  : gset jsstr * list jsstr :=
  let '(seenPagination, paginationLinks) := acc in
  let text := toLowerCase (trim (text_of (l_node link))) in
  match attr "href" [link] with
  | Some href =>
      if negb (truthy (Some href)) then acc
      else if includes (js "prev") text || includes (js "<<") text || includes (js "back") text
      then acc
      else if str_eqb href (js "#") || str_eqb href [] then acc
      else
        let fullUrl := resolve baseUrl href in
        if decide (fullUrl ∈ seenPagination) then acc
        else ({[fullUrl]} ∪ seenPagination, paginationLinks ++ [fullUrl])
  | None => acc
  end.

Definition collect_pagination (baseUrl : jsstr) (d : document) : list jsstr :=
  snd (fold_left (pagination_step baseUrl) (select pagination_anchors d) (∅, [])).

(** The count of results read from the page goes to the log only. *)
Definition listingHandler (request : Request) (w : World) : World :=
  let baseUrl := getBaseUrl (request_url request) in
  let jobLinks := collect_job_links baseUrl (page w) in
  let w1 := match jobLinks with
            | [] => w
            | _ :: _ => addRequests jobLinks w
            end in
  let paginationLinks := collect_pagination baseUrl (page w) in
  match paginationLinks with
  | [] => w1
  | _ :: _ => enqueueLinks paginationLinks LISTING w1
  end.

End Listing.

Export Listing.

(** ** src/routes/default.handler.ts *)

Module Default.

(** [links.push(x)] unless [links.includes(x)] *)
Definition push_new (links : list jsstr) (x : jsstr) : list jsstr :=
  if existsb (str_eqb x) links then links else links ++ [x].

Definition scan_links (sel : selector) (baseUrl : jsstr) (d : document) : list jsstr :=
  fold_left (fun links el =>
    match attr "href" [el] with
    | Some href =>
        if truthy (Some href)
        then push_new links (if startsWith (js "http") href then href else baseUrl ++ href)
        else links
    | None => links
    end) (select sel d) [].

Definition defaultHandler (request : Request) (w : World) : World :=
  let baseUrl := getBaseUrl (request_url request) in
  let jobLinks :=
    scan_links [ [[tag "a"; attr_sub "href" "/careers/JobDetail/"]];
                 [[tag "a"; attr_sub "href" "/JobDetail/"]] ] baseUrl (page w) in
  let w1 := match jobLinks with
            | [] => w
            | _ :: _ => enqueueLinks jobLinks JOB_DETAIL w
            end in
  let listingLinks :=
    scan_links [ [[tag "a"; attr_sub "href" "/careers/SearchJobs"]];
                 [[tag "a"; attr_sub "href" "SearchJobs"]] ] baseUrl (page w) in
  match listingLinks with
  | [] => w1
  | _ :: _ => enqueueLinks listingLinks LISTING w1
  end.

End Default.

Export Default.

(** ** src/routes/index.ts: the router *)

Definition router (now : jsstr) (request : Request) (w : World) : World :=
  match r_label request with
  | Some LISTING => listingHandler request w
  | Some JOB_DETAIL => jobDetailHandler now request w
  | None => defaultHandler request w
  end.

(** ** src/main.ts *)

Module Main.

(** Words separated by [\s*], under the [i] flag: the shape of most rows of
    the table, e.g. /page\s*not\s*found/i. *)
Fixpoint spaced (ws : list string) : regex :=
  match ws with
  | [] => Eps
  | [w] => lit_i w
  | w :: ws' => Seq (lit_i w) (Seq (star space) (spaced ws'))
  end.

Definition ERROR_PAGE_PATTERNS : list (regex * ErrorType) :=
  [ (spaced ["page"; "not"; "found"], PAGE_NOT_FOUND);
    (spaced ["404"; "error"], PAGE_NOT_FOUND);
    (spaced ["not"; "found"], PAGE_NOT_FOUND);
    (spaced ["access"; "denied"], ACCESS_DENIED);
    (spaced ["forbidden"], ACCESS_DENIED);
    (spaced ["403"; "error"], ACCESS_DENIED);
    (spaced ["unauthorized"], UNAUTHORIZED);
    (spaced ["401"; "error"], UNAUTHORIZED);
    (spaced ["login"; "required"], AUTH_REQUIRED);
    (spaced ["sign"; "in"; "required"], AUTH_REQUIRED);
    (spaced ["authentication"; "required"], AUTH_REQUIRED);
    (spaced ["session"; "expired"], SESSION_EXPIRED);
    (spaced ["internal"; "server"; "error"], SERVER_ERROR);
    (spaced ["500"; "error"], SERVER_ERROR);
    (spaced ["service"; "unavailable"], SERVICE_UNAVAILABLE);
    (spaced ["503"; "error"], SERVICE_UNAVAILABLE);
    (spaced ["temporarily"; "unavailable"], SERVICE_UNAVAILABLE);
    (spaced ["maintenance"], MAINTENANCE);
    (spaced ["under"; "construction"], MAINTENANCE);
    (* /job\s*(has\s*been\s* )?(closed|filled|expired|removed)/i, group 1 shown
       with a blank before its closing parenthesis *)
    (seq_of [ lit_i "job"; star space;
              opt (Grp 1 (seq_of [lit_i "has"; star space; lit_i "been"; star space]));
              Grp 2 (alt_of [lit_i "closed"; lit_i "filled"; lit_i "expired"; lit_i "removed"]) ],
     JOB_CLOSED);
    (* /position\s*(is\s* )?(no\s*longer\s*available|closed|filled)/i, likewise *)
    (seq_of [ lit_i "position"; star space;
              opt (Grp 1 (seq_of [lit_i "is"; star space]));
              Grp 2 (alt_of [spaced ["no"; "longer"; "available"]; lit_i "closed";
                             lit_i "filled"]) ],
     JOB_CLOSED);
    (* /this\s*posting\s*(has\s*been\s* )?(closed|removed)/i, likewise *)
    (seq_of [ lit_i "this"; star space; lit_i "posting"; star space;
              opt (Grp 1 (seq_of [lit_i "has"; star space; lit_i "been"; star space]));
              Grp 2 (alt_of [lit_i "closed"; lit_i "removed"]) ],
     JOB_CLOSED);
    (spaced ["multiple"; "users"; "connecting"; "from"; "your"; "ip"], PROXY_RATE_LIMITED);
    (spaced ["rate"; "limit"], RATE_LIMITED);
    (spaced ["too"; "many"; "requests"], RATE_LIMITED) ].

(** /<title[^>]*>([^<]* )<\/title>/i (a blank added before the closing parenthesis) *)
Definition title_tag_re : regex :=
  seq_of [ lit_i "<title"; star (none_of [62]); chr 62; Grp 1 (star (none_of [60]));
           lit_i "</title>" ].

(** /<body[^>]*>([\s\S]*?)<\/body>/i *)
Definition body_tag_re : regex :=
  seq_of [ lit_i "<body"; star (none_of [62]); chr 62;
           Grp 1 (lazy_star (Chr (fun _ => true))); lit_i "</body>" ].

(** /<[^>]+>/g *)
Definition any_tag_re : regex := seq_of [chr 60; plus (none_of [62]); chr 62].

(** The text that is scanned: the title found in the markup, a blank, and the
    first 5000 code units of the body text, in lower case. *)
Definition scanned_text (html : jsstr) (doc : option document) : jsstr :=
  let pageTitle :=
    match exec 1 title_tag_re html with
    | Some m => trim (default [] (group 1 m))
    | None => []
    end in
  let bodyText :=
    match doc with
    | Some d => substring_to 5000 (text (select (tags ["body"]) d))
    | None =>
        match exec 1 body_tag_re html with
        | Some m =>
            substring_to 5000 (replace_all any_tag_re (js " ") (default [] (group 1 m)))
        | None => []
        end
    end in
  toLowerCase (pageTitle ++ js " " ++ bodyText).

Fixpoint first_pattern (table : list (regex * ErrorType)) (fullText : jsstr)
  : option ErrorType :=
  match table with
  | [] => None
  | (pattern, type) :: table' =>
      if test pattern fullText then Some type else first_pattern table' fullText
  end.

(** The error found in the content, with its message. *)
Definition detectErrorInContent (html : jsstr) (doc : option document)
  : option (ErrorType * jsstr) :=
  match first_pattern ERROR_PAGE_PATTERNS (scanned_text html doc) with
  | Some type => Some (type, js "Detected error pattern: " ++ js (errorType_name type))
  | None => None
  end.

(** The part of the run input the request handler reads. *)
Record Config : Type := { saveErrorSamples : bool }.

(** What the crawler hands the request handler besides the page:
    the request, the status of the response if there is one, and the body. *)
Record Context : Type := {
  c_request : Request;
  c_statusCode : option N;
  c_body : jsstr
}.

Definition status_errorType (statusCode : N) : ErrorType :=
  if statusCode =? 401 then UNAUTHORIZED
  else if statusCode =? 403 then ACCESS_DENIED
  else if statusCode =? 404 then PAGE_NOT_FOUND
  else if statusCode =? 429 then RATE_LIMITED
  else if statusCode =? 499 then PROXY_RATE_LIMITED
  else if 500 <=? statusCode then SERVER_ERROR
  else HTTP_ERROR.

(** [`${statusCode}`]: the decimal digits of a number. *)
Definition decimal (n : N) : jsstr := js (NilZero.string_of_uint (N.to_uint n)).

Definition hidden_elements : selector := [[ [cls "visibility--hidden--visually"] ]].

Definition requestHandler (cfg : Config) (now : jsstr) (ctx : Context) (w : World) : World :=
  let request := c_request ctx in
  let url := request_url request in
  let statusCode := default 200 (c_statusCode ctx) in
  let html := c_body ctx in
  if 400 <=? statusCode then
    let errorType := status_errorType statusCode in
    let errorMessage := js "HTTP " ++ decimal statusCode ++ js " error" in
    if saveErrorSamples cfg
    then saveErrorSample now url html errorType errorMessage (Some statusCode) w
    else w
  else
    match detectErrorInContent html (Some (page w)) with
    | Some (type, message) =>
        if saveErrorSamples cfg
        then saveErrorSample now url html type message (Some statusCode) w
        else w
    | None =>
        let w1 := set_page (remove hidden_elements (page w)) w in
        router now request w1
    end.

(** A request that failed for good, with the text of its error. *)
Definition failed_errorType (errorMessage : jsstr) : ErrorType :=
  if includes (js "timeout") errorMessage then TIMEOUT
  else if includes (js "ECONNREFUSED") errorMessage then CONNECTION_REFUSED
  else if includes (js "ENOTFOUND") errorMessage then DNS_ERROR
  else if includes (js "certificate") errorMessage then SSL_ERROR
  else REQUEST_FAILED.

Definition failed_page (errorMessage : jsstr) : jsstr :=
  js "<!DOCTYPE html>" ++ [10] ++ js "<html>" ++ [10]
  ++ js "<head><title>Request Failed</title></head>" ++ [10]
  ++ js "<body>" ++ [10] ++ js "<h1>Request Failed</h1>" ++ [10]
  ++ js "<p>The request to this URL failed completely.</p>" ++ [10]
  ++ js "<p>Error: " ++ errorMessage ++ js "</p>" ++ [10]
  ++ js "</body>" ++ [10] ++ js "</html>".

Definition failedRequestHandler (cfg : Config) (now : jsstr) (request : Request)
    (errorMessage : jsstr) (w : World) : World :=
  let url := request_url request in
  let errorType := failed_errorType errorMessage in
  if saveErrorSamples cfg
  then saveErrorSample now url (failed_page errorMessage) errorType errorMessage None w
  else w.

End Main.

Export Main.

(** ** What a pattern matches

    [den r s c s' c'] says that the pattern [r] can match the front of [s],
    leaving [s'], and turn the captures [c] into [c'], without regard to the
    order in which a matcher would try the possibilities.  The matcher [run]
    is shown further down to find a match exactly when there is one, and to
    report only matches of this kind. *)

Module Matching.

Definition within (hi : option nat) (m : nat) : Prop :=
  match hi with
  | Some h => (m <= h)%nat
  | None => True
  end.

(** The iterations of [r{lo,hi}] after the first [n]: an iteration beyond the
    first [lo] has to consume something. *)
Inductive iter (D : jsstr -> caps -> jsstr -> caps -> Prop) (lo : nat) (hi : option nat)
  : nat -> jsstr -> caps -> jsstr -> caps -> Prop :=
| iter_stop (n : nat) (s : jsstr) (c : caps) :
    (lo <= n)%nat -> iter D lo hi n s c s c
| iter_step (n : nat) (s : jsstr) (c : caps) (s1 : jsstr) (c1 : caps) (s' : jsstr) (c' : caps) :
    (n < lo \/ (match hi with Some h => n < h | None => True end) /\ jlen s1 < jlen s)%nat ->
    D s c s1 c1 ->
    iter D lo hi (S n) s1 c1 s' c' ->
    iter D lo hi n s c s' c'.

Fixpoint den (total : nat) (r : regex) : jsstr -> caps -> jsstr -> caps -> Prop :=
  match r with
  | Eps => fun s c s' c' => s' = s /\ c' = c
  | Chr p => fun s c s' c' => exists x, s = x :: s' /\ p x = true /\ c' = c
  | Seq r1 r2 => fun s c s' c' => exists s1 c1, den total r1 s c s1 c1 /\ den total r2 s1 c1 s' c'
  | Alt r1 r2 => fun s c s' c' => den total r1 s c s' c' \/ den total r2 s c s' c'
  | Rep _ lo hi r0 => iter (den total r0) lo hi 0
  | Grp i r0 => fun s c s' c' =>
      exists c0, den total r0 s c s' c0 /\ c' = (i, (jlen s, jlen s')) :: c0
  | Bol => fun s c s' c' => jlen s = total /\ s' = s /\ c' = c
  | Eol => fun s c s' c' => s = [] /\ s' = [] /\ c' = c
  | Ahead r0 => fun s c s' c' => exists s1, den total r0 s c s1 c' /\ s' = s
  end.

(** [den] takes a lookahead to match in any of the ways its body matches,
    the matcher in the first of them; the two agree when the body of every
    lookahead is without groups, as it is in the sources. *)
Fixpoint captures_nothing (r : regex) : bool :=
  match r with
  | Eps | Chr _ | Bol | Eol => true
  | Seq r1 r2 | Alt r1 r2 => captures_nothing r1 && captures_nothing r2
  | Rep _ _ _ r0 | Ahead r0 => captures_nothing r0
  | Grp _ _ => false
  end.

Fixpoint plain_lookaheads (r : regex) : bool :=
  match r with
  | Eps | Chr _ | Bol | Eol => true
  | Seq r1 r2 | Alt r1 r2 => plain_lookaheads r1 && plain_lookaheads r2
  | Rep _ _ _ r0 | Grp _ r0 => plain_lookaheads r0
  | Ahead r0 => captures_nothing r0 && plain_lookaheads r0
  end.

(** A run of characters of a class ends at [r]: [r] is empty or begins with
    a character outside of the class. *)
Definition stops (p : N -> bool) (r : jsstr) : Prop :=
  match r with
  | [] => True
  | x :: _ => p x = false
  end.

End Matching.

Export Matching.

(** ** Notions used to state the properties *)

Module Spec.

(** A script, a style or a noscript element. *)
Definition is_script_like (n : node) : bool :=
  match n with
  | Text _ => false
  | Elem t _ _ => existsb (str_eqb t) [js "script"; js "style"; js "noscript"]
  end.

(** No element of the tree is a script, style or noscript element. *)
Fixpoint script_free (n : node) : bool :=
  match n with
  | Text _ => true
  | Elem _ _ kids => negb (is_script_like n) && forallb script_free kids
  end.

(** The text of a tree outside its script, style and noscript elements. *)
Fixpoint text_outside_scripts (n : node) : jsstr :=
  match n with
  | Text t => t
  | Elem _ _ kids =>
      if is_script_like n then [] else concat (map text_outside_scripts kids)
  end.

Definition document_text (d : document) : jsstr := concat (map text_of d).

(** The job URL a card of a listing page leads to, made absolute, if the
    card has one. *)
Definition card_url (baseUrl : jsstr) (article : loc) : option jsstr :=
  match attr "href" (find card_link article) with
  | Some href => if truthy (Some href) then Some (resolve baseUrl href) else None
  | None => None
  end.

(** The job URLs of the cards of a page, in document order, repeats included. *)
Definition card_urls (baseUrl : jsstr) (d : document) : list jsstr :=
  flat_map (fun article => match card_url baseUrl article with
                           | Some u => [u]
                           | None => []
                           end) (select job_cards d).

(** The rows of the error table before the rows for a required login, and
    those rows themselves. *)
Definition rows_before_auth : list (regex * ErrorType) := firstn 8 ERROR_PAGE_PATTERNS.
Definition auth_rows : list (regex * ErrorType) := firstn 3 (skipn 8 ERROR_PAGE_PATTERNS).
Definition rows_after_auth : list (regex * ErrorType) := skipn 11 ERROR_PAGE_PATTERNS.

(** The sample [saveErrorSample] writes for a page. *)
Definition sample_of (now : jsstr) (ctx : Context) (errorType : ErrorType)
    (errorMessage : jsstr) : ErrorSample :=
  {| e_url := request_url (c_request ctx); e_errorType := errorType;
     e_errorMessage := errorMessage;
     e_statusCode := Some (default 200 (c_statusCode ctx));
     e_html := c_body ctx; e_capturedAt := now |}.

(** The samples on disk after a page was found in error: one more if samples
    are kept, the same otherwise. *)
Definition samples_after (cfg : Config) (w : World) (s : ErrorSample) : list ErrorSample :=
  if saveErrorSamples cfg then errorSamples w ++ [s] else errorSamples w.

(** Every element met in a forest without scripts is none of the three, has
    none of them below it and none of them above it. *)
Definition off_scripts (x : loc) : Prop :=
  script_free (l_node x) = true
  /\ is_script_like (l_node x) = false
  /\ Forall (fun a => is_script_like a = false) (l_anc x).

(** What the loop over the cards keeps true: the set of seen URLs is the set
    of the URLs collected, no URL is collected twice, and every source is a
    detail task. *)
Record links_invariant (seen : gset jsstr) (links : list Source) : Prop := {
  seen_is_collected : forall u, u ∈ seen <-> In u (map q_url links);
  collected_once : List.NoDup (map q_url links);
  collected_detail : Forall (fun s => q_label s = Some JOB_DETAIL) links
}.

(** *** Texts of dates

    In the shapes below 47 is the slash, 45 the hyphen, 44 the comma. *)

(** Between [lo] and [hi] digits. *)
Definition digits (lo hi : nat) (w : jsstr) : Prop :=
  forallb is_digit w = true /\ (lo <= jlen w <= hi)%nat.

Definition word (w : jsstr) : Prop := forallb is_alpha w = true /\ (1 <= jlen w)%nat.

(** The text begins YYYY-MM-DD. *)
Definition iso_prefixed (s : jsstr) : Prop :=
  exists y m d rest,
    s = y ++ [45] ++ m ++ [45] ++ d ++ rest
    /\ digits 4 4 y /\ digits 2 2 m /\ digits 2 2 d.

(** [g1/g2/g3] stands in [s] after [p]: one or two digits, a slash, one or two
    digits, a slash, four digits. *)
Definition mdy_shape (s p g1 g2 g3 q : jsstr) : Prop :=
  s = p ++ g1 ++ [47] ++ g2 ++ [47] ++ g3 ++ q
  /\ digits 1 2 g1 /\ digits 1 2 g2 /\ digits 4 4 g3.

Definition mdy_occurs (s : jsstr) : Prop := exists p g1 g2 g3 q, mdy_shape s p g1 g2 g3 q.





(** *** Texts of salaries *)

Definition is_range_sep (c : N) : bool := existsb (N.eqb c) [45; 8211; 116; 84; 111; 79].

(** An amount: digits and commas, then perhaps a point (46) and digits. *)
Definition is_amount (a : jsstr) : Prop :=
  exists i f,
    a = i ++ f
    /\ forallb amount_char i = true /\ (1 <= jlen i)%nat
    /\ (f = [] \/ exists d, f = 46 :: d /\ forallb is_digit d = true /\ (1 <= jlen d)%nat).

(** Nothing, or a dollar sign (36). *)
Definition dollar (d : jsstr) : Prop := d = [] \/ d = [36].

(** Two amounts stand in [s] after [p], with a separator made of hyphens, en
    dashes and the letters t and o between them. *)
Definition range_shape (s p d1 a1 ws1 sep ws2 d2 a2 q : jsstr) : Prop :=
  s = p ++ d1 ++ a1 ++ ws1 ++ sep ++ ws2 ++ d2 ++ a2 ++ q
  /\ dollar d1 /\ is_amount a1 /\ forallb is_space ws1 = true
  /\ (forallb is_range_sep sep = true /\ (1 <= jlen sep)%nat)
  /\ forallb is_space ws2 = true /\ dollar d2 /\ is_amount a2.

Definition range_occurs (s : jsstr) : Prop :=
  exists p d1 a1 ws1 sep ws2 d2 a2 q, range_shape s p d1 a1 ws1 sep ws2 d2 a2 q.

Definition single_shape (s p d a q : jsstr) : Prop :=
  s = p ++ d ++ a ++ q /\ dollar d /\ is_amount a.

Definition amount_occurs (s : jsstr) : Prop := exists p d a q, single_shape s p d a q.

(** *** The match a pattern finds

    [String.prototype.match] gives the leftmost match of a pattern; where the
    pattern ends in an amount, the amount is as long as it can be. *)

Definition first_mdy (s p g1 g2 g3 q : jsstr) : Prop :=
  mdy_shape s p g1 g2 g3 q
  /\ forall p' g1' g2' g3' q', mdy_shape s p' g1' g2' g3' q' -> (jlen p <= jlen p')%nat.



(** No amount that begins where [a] begins, in [a ++ q], is longer than [a]. *)
Definition longest_amount (a q : jsstr) : Prop :=
  forall a' q', is_amount a' -> a' ++ q' = a ++ q -> (jlen a' <= jlen a)%nat.

Definition first_range (s p d1 a1 ws1 sep ws2 d2 a2 q : jsstr) : Prop :=
  range_shape s p d1 a1 ws1 sep ws2 d2 a2 q
  /\ (forall p' d1' a1' ws1' sep' ws2' d2' a2' q',
        range_shape s p' d1' a1' ws1' sep' ws2' d2' a2' q' -> (jlen p <= jlen p')%nat)
  /\ longest_amount a2 q.

Definition first_single (s p d a q : jsstr) : Prop :=
  single_shape s p d a q
  /\ (forall p' d' a' q', single_shape s p' d' a' q' -> (jlen p <= jlen p')%nat)
  /\ longest_amount a q.



(** A text of digits with at most one point, read as a decimal number: its
    digits as a whole number, and the number of digits after the point. *)
Fixpoint digits_value (acc : N) (s : jsstr) : option N :=
  match s with
  | [] => Some acc
  | c :: s' => if is_digit c then digits_value (acc * 10 + (c - 48)) s' else None
  end.

Definition decimal_value (s : jsstr) : option (N * nat) :=
  let whole := take_until (N.eqb 46) s in
  let fraction := List.tl (drop_until (N.eqb 46) s) in
  match whole ++ fraction with
  | [] => None
  | ds => option_map (fun n => (n, jlen fraction)) (digits_value 0 ds)
  end.

(** [a <= b] for two such texts. *)
Definition decimal_le (a b : jsstr) : Prop :=
  match decimal_value a, decimal_value b with
  | Some (n, i), Some (m, j) => n * 10 ^ N.of_nat j <= m * 10 ^ N.of_nat i
  | _, _ => False
  end.

End Spec.

Export Spec.

(** ** Sample pages *)

Module Samples.

Definition el (t : string) (attrs : list (string * string)) (kids : list node) : node :=
  Elem (js t) (map (fun kv => (js (fst kv), js (snd kv))) attrs) kids.

Definition txt (s : string) : node := Text (js s).

Definition html_page (head body : list node) : document :=
  [el "html" [] [el "head" [] head; el "body" [] body]].

Definition empty_world (d : document) : World :=
  {| page := d; dataset := []; requests := []; errorSamples := [] |}.

Definition detail_request (u : string) (ud : UserData) : Request :=
  {| r_url := js u; r_loadedUrl := Some (js u); r_label := Some JOB_DETAIL;
     r_userData := ud |}.

Definition listing_request (u : string) : Request :=
  {| r_url := js u; r_loadedUrl := Some (js u); r_label := Some LISTING;
     r_userData := no_userData |}.

Definition clock : jsstr := js "2026-01-20T10:30:00.000Z".

(** A card of a results list. *)
Definition card (href title location : string) : node :=
  el "div" [("class", "article article--result")]
    [ el "h3" [("class", "article__header__text__title")]
        [el "a" [("href", href)] [txt title]];
      el "div" [("class", "article__header__text__subtitle")]
        [el "span" [("class", "list-item-location")] [txt location]] ].

Definition results (cards : list node) : document :=
  html_page [el "title" [] [txt "Search jobs"]]
    [el "div" [("class", "section__content__results")] cards].

(** Three jobs, the first of them listed twice. *)
Definition listing_with_duplicate : document :=
  results
    [ card "/careers/JobDetail/Data-Engineer/101" "Data Engineer" "London";
      card "/careers/JobDetail/Staff-Nurse/102" "Staff Nurse" "Los Angeles";
      card "/careers/JobDetail/Data-Engineer/101" "Data Engineer" "London";
      card "/careers/JobDetail/Ramp-Agent/103" "Ramp Agent" "Atlanta" ].

Definition listing_without_jobs : document :=
  results [el "p" [] [txt "There are no open positions at the moment."]].

(** A page that asks the visitor to sign in, served with status 200. *)
Definition sign_in_html : jsstr :=
  js "<html><head><title>Careers</title></head><body><p>Please sign in to continue</p></body></html>".

Definition sign_in_page : document :=
  html_page [el "title" [] [txt "Careers"]] [el "p" [] [txt "Please sign in to continue"]].

(** A page that says that signing in is required. *)
Definition sign_in_required_html : jsstr :=
  js "<html><head><title>Careers</title></head><body><p>Sign in required</p></body></html>".

Definition sign_in_required_page : document :=
  html_page [el "title" [] [txt "Careers"]] [el "p" [] [txt "Sign in required"]].

Definition detail_context (status : N) (html : jsstr) : Context :=
  {| c_request := detail_request "https://acme.avature.net/careers/JobDetail/Ramp-Agent/7"
                    no_userData;
     c_statusCode := Some status; c_body := html |}.

(** A detail page whose og:title is the name of the company. *)
Definition branded_page : document :=
  html_page
    [ el "meta" [("property", "og:title"); ("content", "Bloomberg")] [];
      el "title" [] [txt "Careers"] ]
    [ el "main" [] [el "h1" [] [txt "Senior Software Engineer"]] ].

(** A detail page whose page title begins with the name of the company. *)
Definition branded_title_page : document :=
  html_page
    [ el "title" [] [txt "Bloomberg - 12345 - Careers"] ]
    [ el "main" [] [el "h1" [] [txt "Senior Software Engineer"]] ].

(** A detail page whose first field value is the name of the company. *)
Definition branded_field_page : document :=
  html_page []
    [ el "div" [("class", "article__content__view__field__value--font")]
        [el "div" [("class", "article__content__view__field__value")] [txt "UCLA Health"]];
      el "main" [] [el "h1" [] [txt "Senior Software Engineer"]] ].

(** A detail page without any title of its own. *)
Definition untitled_page : document :=
  html_page [] [el "p" [] [txt "Apply today."]].

(** A detail page whose first heading is the name of the company. *)
Definition branded_heading_page : document :=
  html_page []
    [ el "main" [] [el "h1" [] [txt "Bloomberg"]];
      el "article" [] [el "h1" [] [txt "Senior Software Engineer"]] ].

(** The hints of a listing card. *)
Definition card_hints (ref : string) : UserData :=
  {| ud_title := Some (js "Data Engineer");
     ud_subtitles := Some ({[ js "location" := js "London"; js "ref" := js ref ]}
                           : gmap jsstr jsstr) |}.

(** The hints of a listing card whose reference is given by its code units. *)
Definition card_hints_of (ref : jsstr) : UserData :=
  {| ud_title := Some (js "Data Engineer");
     ud_subtitles := Some ({[ js "location" := js "London"; js "ref" := ref ]}
                           : gmap jsstr jsstr) |}.

(** A detail page with labelled fields of its own. *)
Definition labelled_page : document :=
  html_page [el "title" [] [txt "Careers"]]
    [ el "main" []
        [ el "h1" [] [txt "Senior Data Engineer"];
          el "p" [] [el "strong" [] [txt "Location:"]; txt " New York"];
          el "p" [] [el "strong" [] [txt "Ref #:"]; txt " 55501"] ] ].

End Samples.

(** ** Pages and requests of the further examples *)

Module Fixtures.

(** The page of a job whose title holds a word of the error table. *)
Definition maintenance_job_page : document :=
  Samples.html_page [Samples.el "title" [] [Samples.txt "Careers"]]
    [ Samples.el "main" []
        [ Samples.el "h1" [] [Samples.txt "Maintenance Technician"];
          Samples.el "p" [] [Samples.txt "Keeps the ground equipment in working order."] ] ].

Definition maintenance_job_html : jsstr :=
  js "<html><head><title>Careers</title></head><body><main><h1>Maintenance Technician</h1></main></body></html>".

End Fixtures.

(** ** What the further properties speak of *)

Module Shapes.

(** The hints the listing handler reads off a card. *)
Definition hints_of_card (article : loc) : UserData :=
  {| ud_title := Some (trim (text (first (find card_title article))));
     ud_subtitles := Some (card_subtitles article) |}.

(** The source was made from the first card among [cards] that leads to its
    URL, with the hints of that card. *)
Definition from_first_card (baseUrl : jsstr) (cards : list loc) (s : Source) : Prop :=
  exists (before : list loc) (article : loc) (after : list loc),
    cards = before ++ article :: after
    /\ card_url baseUrl article = Some (q_url s)
    /\ Forall (fun a => card_url baseUrl a <> Some (q_url s)) before
    /\ q_label s = Some JOB_DETAIL
    /\ q_userData s = hints_of_card article.

(** The anchor is one the pagination loop follows, to [u]: it has an [href]
    that is neither empty nor "#", and its text does not speak of going
    back. *)
Definition followed_to (baseUrl : jsstr) (link : loc) (u : jsstr) : Prop :=
  exists href : jsstr,
    attr "href" [link] = Some href
    /\ href <> [] /\ href <> js "#"
    /\ existsb (fun word => includes (js word) (toLowerCase (trim (text_of (l_node link)))))
         ["prev"; "<<"; "back"] = false
    /\ u = resolve baseUrl href.

(** A task for a listing page, as [enqueueLinks] makes it. *)
Definition listing_task (u : jsstr) : Source :=
  {| q_url := u; q_label := Some LISTING; q_userData := no_userData |}.

Definition detail_task (u : jsstr) : Source :=
  {| q_url := u; q_label := Some JOB_DETAIL; q_userData := no_userData |}.

(** The anchors the default handler looks at. *)
Definition job_anchors : selector :=
  [ [[tag "a"; attr_sub "href" "/careers/JobDetail/"]];
    [[tag "a"; attr_sub "href" "/JobDetail/"]] ].

Definition listing_anchors : selector :=
  [ [[tag "a"; attr_sub "href" "/careers/SearchJobs"]];
    [[tag "a"; attr_sub "href" "SearchJobs"]] ].

(** The anchor has a non-empty [href], which the default handler turns into
    [u]: itself when it begins with "http", else the base URL followed by it,
    nothing put between the two. *)
Definition linked_to (baseUrl : jsstr) (a : loc) (u : jsstr) : Prop :=
  exists href : jsstr,
    attr "href" [a] = Some href
    /\ href <> []
    /\ u = (if startsWith (js "http") href then href else baseUrl ++ href).

(** The URL begins with "http". *)
Definition absolute (u : jsstr) : Prop := startsWith (js "http") u = true.

(** *** Shapes of URLs *)

(** The code unit [x] is [c], up to the case of an ASCII letter: what a
    character of a pattern with the [i] flag matches. *)
Definition same_letter (c x : N) : bool :=
  if is_upper c then (x =? c) || (x =? c + 32)
  else if is_lower c then (x =? c) || (x =? c - 32)
  else c =? x.

(** The text [t] is the word [w], up to the case of its letters. *)
Definition reads_as (w : string) (t : jsstr) : Prop :=
  Forall2 (fun c x => same_letter c x = true) (js w) t.

(** Somewhere in the URL stands /careers/JobDetail/, in any letter case,
    then a slug without a slash, a slash and a digit. *)
Definition detail_url (url : jsstr) : Prop :=
  exists p c slug id q : jsstr,
    url = p ++ c ++ slug ++ [47] ++ id ++ q
    /\ reads_as "/careers/JobDetail/" c
    /\ (forallb (fun x => negb (x =? 47)) slug = true /\ (1 <= jlen slug)%nat)
    /\ (forallb is_digit id = true /\ (1 <= jlen id)%nat).

(** Somewhere in the URL stands /careers/SearchJobs, in any letter case. *)
Definition listing_url (url : jsstr) : Prop :=
  exists p c q : jsstr, url = p ++ c ++ q /\ reads_as "/careers/SearchJobs" c.

(** A label of a host name, written in lower case, that is no Punycode label
    (those begin with xn--). *)
Definition host_label (l : jsstr) : Prop :=
  forallb (fun c => is_lower c || is_digit c || (c =? 45)) l = true /\ (1 <= jlen l)%nat
  /\ startsWith (js "xn--") l = false.

(** What follows the host in a URL: nothing, a path, a query or a fragment. *)
Definition after_host (rest : jsstr) : Prop :=
  rest = [] \/ exists c r, rest = c :: r /\ In c [47; 63; 35].

(** *** Phrases

    The text [b] spells the words [ws] in their order, each in any letter
    case, with white space or nothing between two of them. *)
Fixpoint spelled (ws : list string) (b : jsstr) : Prop :=
  match ws with
  | [] => b = []
  | [w] => reads_as w b
  | w :: ws' =>
      exists u gap rest : jsstr,
        b = u ++ gap ++ rest
        /\ reads_as w u /\ forallb is_space gap = true /\ spelled ws' rest
  end.

(** The words stand somewhere in the text. *)
Definition phrase_occurs (ws : list string) (t : jsstr) : Prop :=
  exists p body q : jsstr, t = p ++ body ++ q /\ spelled ws body.

(** The text is the name of one of the four companies. *)
Definition company_name (t : jsstr) : Prop :=
  Exists (fun ws => spelled ws t) [["bloomberg"]; ["ucla"; "health"]; ["unifi"]; ["avature"]].

(** The phrases of the rows of the error table before those that tell a
    login wall, and the phrases of these rows. *)
Definition phrases_before_auth : list (list string) :=
  [ ["page"; "not"; "found"]; ["404"; "error"]; ["not"; "found"]; ["access"; "denied"];
    ["forbidden"]; ["403"; "error"]; ["unauthorized"]; ["401"; "error"] ].

Definition auth_phrases : list (list string) :=
  [ ["login"; "required"]; ["sign"; "in"; "required"]; ["authentication"; "required"] ].

End Shapes.

Export Shapes.

(** * Properties *)

(** ** The matcher finds what the patterns match *)

Section Sound.
Context {R : Type}.

Lemma rep_loop_sound (step : jsstr -> caps -> cont R -> option R)
    (D : jsstr -> caps -> jsstr -> caps -> Prop) (greedy : bool) (lo : nat) (hi : option nat) :
  (forall s c k x, step s c k = Some x -> exists s' c', D s c s' c' /\ k s' c' = Some x) ->
  forall fuel n s c k x,
    rep_loop step greedy lo hi fuel n s c k = Some x ->
    exists s' c', iter D lo hi n s c s' c' /\ k s' c' = Some x.
Proof.
  intros Hstep. induction fuel as [|fuel IH]; intros n s c k x H; [discriminate|].
  cbn [rep_loop] in H.
  assert (Hagain : forall y,
    step s c (fun s' c' =>
      if (lo <=? n)%nat && (jlen s <=? jlen s')%nat then None
      else rep_loop step greedy lo hi fuel (S n) s' c' k) = Some y ->
    (n < lo \/ (match hi with Some h => n < h | None => True end))%nat ->
    exists s' c', iter D lo hi n s c s' c' /\ k s' c' = Some y).
  { intros y Hy Hok. apply Hstep in Hy as (s1 & c1 & HD & Hk).
    destruct ((lo <=? n)%nat && (jlen s <=? jlen s1)%nat) eqn:E; [discriminate|].
    apply IH in Hk as (s' & c' & Hiter & Hk). exists s', c'. split; [|assumption].
    eapply iter_step; [|exact HD|exact Hiter].
    apply andb_false_iff in E as [E|E].
    - left. apply Nat.leb_gt in E. lia.
    - apply Nat.leb_gt in E. destruct Hok as [Hok|Hok]; [now left|right; split; [assumption|lia]]. }
  assert (Hstop : forall y, k s c = Some y -> (lo <= n)%nat ->
            exists s' c', iter D lo hi n s c s' c' /\ k s' c' = Some y).
  { intros y Hy Hn. exists s, c. split; [now apply iter_stop|assumption]. }
  destruct (n <? lo)%nat eqn:En.
  - apply Nat.ltb_lt in En. apply Hagain; [assumption|now left].
  - apply Nat.ltb_ge in En.
    destruct (match hi with Some h => (h <=? n)%nat | None => false end) eqn:Eh.
    + now apply Hstop.
    + assert (Hhi : match hi with Some h => (n < h)%nat | None => True end).
      { destruct hi as [h|]; [|exact I]. now apply Nat.leb_gt in Eh. }
      destruct greedy.
      * match type of H with (match ?a with _ => _ end) = _ => destruct a as [y|] eqn:Ea end.
        -- injection H as ->. apply (Hagain x eq_refl). now right.
        -- now apply Hstop.
      * destruct (k s c) as [y|] eqn:Ek.
        -- injection H as ->. now apply (Hstop x eq_refl).
        -- apply Hagain; [assumption|now right].
Qed.

End Sound.

Lemma run_sound (total : nat) (r : regex) :
  forall (R : Type) s c (k : cont R) x,
    run total r s c k = Some x ->
    exists s' c', den total r s c s' c' /\ k s' c' = Some x.
Proof.
  induction r as [|p|r1 IH1 r2 IH2|r1 IH1 r2 IH2|g lo hi r0 IH|i r0 IH| | |r0 IH];
    intros R s c k x H; cbn [run] in H.
  - exists s, c. now repeat split.
  - destruct s as [|y s]; [discriminate|]. destruct (p y) eqn:E; [|discriminate].
    exists s, c. split; [|assumption]. exists y. now repeat split.
  - apply IH1 in H as (s1 & c1 & H1 & H). apply IH2 in H as (s2 & c2 & H2 & H).
    exists s2, c2. split; [|assumption]. now exists s1, c1.
  - destruct (run total r1 s c k) as [y|] eqn:E.
    + injection H as ->. apply IH1 in E as (s' & c' & H1 & Hk).
      exists s', c'. split; [now left|assumption].
    + apply IH2 in H as (s' & c' & H2 & Hk). exists s', c'. split; [now right|assumption].
  - now apply (rep_loop_sound (run total r0) (den total r0) g lo hi (IH R)) in H.
  - apply IH in H as (s' & c' & H0 & Hk). eexists s', _. split; [|exact Hk].
    exists c'. now split.
  - destruct (jlen s =? total)%nat eqn:E; [|discriminate]. apply Nat.eqb_eq in E.
    exists s, c. now repeat split.
  - destruct s; [|discriminate]. exists [], c. now repeat split.
  - destruct (run total r0 s c (fun _ c' => Some c')) as [c1|] eqn:E; [|discriminate].
    apply IH in E as (s1 & c' & H0 & [= ->]). exists s, c1. split; [|assumption].
    now exists s1.
Qed.

Lemma iter_suffix (D : jsstr -> caps -> jsstr -> caps -> Prop) (lo : nat) (hi : option nat) :
  (forall s c s' c', D s c s' c' -> exists w, s = w ++ s') ->
  forall n s c s' c', iter D lo hi n s c s' c' -> exists w, s = w ++ s'.
Proof.
  intros HD n s c s' c' H. induction H as [n s c _|n s c s1 c1 s' c' _ H1 _ IH].
  - now exists [].
  - destruct (HD _ _ _ _ H1) as (w1 & ->). destruct IH as (w2 & ->).
    exists (w1 ++ w2). now rewrite app_assoc.
Qed.

Lemma den_suffix (total : nat) (r : regex) :
  forall s c s' c', den total r s c s' c' -> exists w, s = w ++ s'.
Proof.
  induction r as [|p|r1 IH1 r2 IH2|r1 IH1 r2 IH2|g lo hi r0 IH|i r0 IH| | |r0 IH];
    intros s c s' c' H; cbn [den] in H.
  - destruct H as [-> _]. now exists [].
  - destruct H as (x & -> & _). now exists [x].
  - destruct H as (s1 & c1 & H1 & H2).
    destruct (IH1 _ _ _ _ H1) as (w1 & ->). destruct (IH2 _ _ _ _ H2) as (w2 & ->).
    exists (w1 ++ w2). now rewrite app_assoc.
  - destruct H as [H|H]; eauto.
  - eapply iter_suffix; eauto.
  - destruct H as (c0 & H & _). eauto.
  - destruct H as (_ & -> & _). now exists [].
  - destruct H as (-> & -> & _). now exists [].
  - destruct H as (s1 & _ & ->). now exists [].
Qed.

Lemma den_length (total : nat) (r : regex) (s : jsstr) (c : caps) (s' : jsstr) (c' : caps) :
  den total r s c s' c' -> (jlen s' <= jlen s)%nat.
Proof.
  intros H. apply den_suffix in H as (w & ->). unfold jlen. rewrite length_app. lia.
Qed.

(** A pattern without groups leaves the captures as they were. *)
Lemma iter_keeps_captures (D : jsstr -> caps -> jsstr -> caps -> Prop)
    (lo : nat) (hi : option nat) :
  (forall s c s' c', D s c s' c' -> c' = c) ->
  forall n s c s' c', iter D lo hi n s c s' c' -> c' = c.
Proof.
  intros HD n s c s' c' H. induction H as [n s c _|n s c s1 c1 s' c' _ H1 _ IH].
  - reflexivity.
  - rewrite IH. now apply HD in H1.
Qed.

Lemma den_keeps_captures (total : nat) (r : regex) :
  captures_nothing r = true ->
  forall s c s' c', den total r s c s' c' -> c' = c.
Proof.
  induction r as [|p|r1 IH1 r2 IH2|r1 IH1 r2 IH2|g lo hi r0 IH|i r0 IH| | |r0 IH];
    cbn [captures_nothing]; intros Hr s c s' c' H; cbn [den] in H.
  - now destruct H.
  - now destruct H as (x & _ & _ & ->).
  - apply andb_true_iff in Hr as [Hr1 Hr2]. destruct H as (s1 & c1 & H1 & H2).
    apply (IH1 Hr1) in H1. apply (IH2 Hr2) in H2. congruence.
  - apply andb_true_iff in Hr as [Hr1 Hr2]. destruct H as [H|H]; eauto.
  - eapply iter_keeps_captures; [|exact H]. now apply IH.
  - discriminate.
  - now destruct H as (_ & _ & ->).
  - now destruct H as (_ & _ & ->).
  - destruct H as (s1 & H & _). now apply (IH Hr) in H.
Qed.

Section Complete.
Context {R : Type}.

Lemma rep_loop_complete (step : jsstr -> caps -> cont R -> option R)
    (D : jsstr -> caps -> jsstr -> caps -> Prop) (greedy : bool) (lo : nat) (hi : option nat) :
  (forall s c s1 c1 k, D s c s1 c1 -> k s1 c1 <> None -> step s c k <> None) ->
  (forall s c s1 c1, D s c s1 c1 -> (jlen s1 <= jlen s)%nat) ->
  forall n s c s' c',
    iter D lo hi n s c s' c' ->
    forall fuel (k : cont R),
      ((lo - n) + jlen s < fuel)%nat ->
      k s' c' <> None ->
      rep_loop step greedy lo hi fuel n s c k <> None.
Proof.
  intros Hstep Hlen n s c s' c' H.
  induction H as [n s c Hn|n s c s1 c1 s' c' Hok H1 _ IH]; intros fuel k Hfuel Hk.
  - destruct fuel as [|fuel]; [lia|]. cbn [rep_loop].
    apply Nat.ltb_ge in Hn. rewrite Hn.
    destruct (match hi with Some h => (h <=? n)%nat | None => false end); [assumption|].
    destruct greedy.
    + match goal with |- (match ?a with _ => _ end) <> None => destruct a end;
        [discriminate|assumption].
    + destruct (k s c); [discriminate|congruence].
  - destruct fuel as [|fuel]; [lia|]. cbn [rep_loop].
    pose proof (Hlen _ _ _ _ H1) as Hle.
    assert (Hagain :
      step s c (fun s' c' =>
        if (lo <=? n)%nat && (jlen s <=? jlen s')%nat then None
        else rep_loop step greedy lo hi fuel (S n) s' c' k) <> None).
    { apply (Hstep s c s1 c1); [assumption|].
      assert (E : (lo <=? n)%nat && (jlen s <=? jlen s1)%nat = false).
      { apply andb_false_iff. destruct Hok as [Hok|[_ Hok]].
        - left. apply Nat.leb_gt. lia.
        - right. apply Nat.leb_gt. lia. }
      rewrite E. apply IH; [|assumption].
      destruct Hok as [Hok|[_ Hok]]; lia. }
    destruct (n <? lo)%nat eqn:En; [assumption|].
    apply Nat.ltb_ge in En.
    destruct Hok as [Hok|[Hhi Hlt]]; [lia|].
    assert (Eh : match hi with Some h => (h <=? n)%nat | None => false end = false).
    { destruct hi as [h|]; [|reflexivity]. apply Nat.leb_gt. assumption. }
    rewrite Eh. destruct greedy.
    + match goal with |- (match ?a with _ => _ end) <> None => destruct a eqn:Ea end;
        [discriminate|congruence].
    + destruct (k s c); [discriminate|assumption].
Qed.

End Complete.

Lemma run_complete (total : nat) (r : regex) :
  plain_lookaheads r = true ->
  forall (R : Type) s c s' c' (k : cont R),
    den total r s c s' c' -> k s' c' <> None -> run total r s c k <> None.
Proof.
  induction r as [|p|r1 IH1 r2 IH2|r1 IH1 r2 IH2|g lo hi r0 IH|i r0 IH| | |r0 IH];
    cbn [plain_lookaheads]; intros Hr R s c s' c' k H Hk; cbn [den] in H; cbn [run].
  - destruct H as [-> ->]. assumption.
  - destruct H as (x & -> & Hp & ->). now rewrite Hp.
  - apply andb_true_iff in Hr as [Hr1 Hr2].
    destruct H as (s1 & c1 & H1 & H2). apply (IH1 Hr1 R s c s1 c1); [assumption|].
    now apply (IH2 Hr2 R s1 c1 s' c').
  - apply andb_true_iff in Hr as [Hr1 Hr2]. destruct H as [H|H].
    + pose proof (IH1 Hr1 R s c s' c' k H Hk) as H1.
      destruct (run total r1 s c k); [discriminate|congruence].
    + destruct (run total r1 s c k); [discriminate|]. now apply (IH2 Hr2 R s c s' c').
  - apply (rep_loop_complete (run total r0) (den total r0) g lo hi) with (s' := s') (c' := c').
    + intros s0 c0 s1 c1 k0. apply (IH Hr).
    + intros s0 c0 s1 c1. apply den_length.
    + assumption.
    + lia.
    + assumption.
  - destruct H as (c0 & H & ->). now apply (IH Hr R s c s' c0).
  - destruct H as (Hlen & -> & ->). apply Nat.eqb_eq in Hlen. now rewrite Hlen.
  - destruct H as (-> & -> & ->). assumption.
  - apply andb_true_iff in Hr as [Hnone Hr]. destruct H as (s1 & H & ->).
    pose proof (IH Hr caps s c s1 c' (fun _ c0 => Some c0) H) as Hfound.
    destruct (run total r0 s c (fun _ c0 => Some c0)) as [c1|] eqn:E.
    + apply run_sound in E as (s2 & c2 & H2 & [= ->]).
      apply (den_keeps_captures total r0 Hnone) in H, H2. congruence.
    + now contradiction Hfound.
Qed.

(** What [match_here], [search], [test] and [exec] find. *)
Lemma match_here_sound (r : regex) (input s s' : jsstr) (c : caps) :
  match_here r input s = Some (s', c) -> den (jlen input) r s [] s' c.
Proof.
  unfold match_here. intros H. apply run_sound in H as (s1 & c1 & Hden & [= <- <-]).
  assumption.
Qed.

Lemma match_here_complete (r : regex) (input s s' : jsstr) (c : caps) :
  plain_lookaheads r = true ->
  den (jlen input) r s [] s' c -> match_here r input s <> None.
Proof.
  unfold match_here. intros Hr H. now apply (run_complete (jlen input) r Hr _ s [] s' c).
Qed.

Lemma search_sound (r : regex) (input : jsstr) :
  plain_lookaheads r = true ->
  forall s t t' c,
    search r input s = Some (t, t', c) ->
    exists p, s = p ++ t
      /\ den (jlen input) r t [] t' c
      /\ (forall p1 p2 u c', p = p1 ++ p2 -> p2 <> [] ->
            ~ den (jlen input) r (p2 ++ t) [] u c').
Proof.
  intros Hr. induction s as [|x s IH]; intros t t' c H; cbn [search] in H.
  - destruct (match_here r input []) as [[s' c0]|] eqn:E; [|discriminate].
    injection H as <- <- <-. exists []. split; [reflexivity|].
    split; [now apply match_here_sound|].
    intros p1 p2 u c' Hp Hne. destruct p1, p2; try discriminate. congruence.
  - destruct (match_here r input (x :: s)) as [[s' c0]|] eqn:E.
    + injection H as <- <- <-. exists []. split; [reflexivity|].
      split; [now apply match_here_sound|].
      intros p1 p2 u c' Hp Hne. destruct p1, p2; try discriminate. congruence.
    + apply IH in H as (p & -> & Hden & Hleft). exists (x :: p).
      split; [reflexivity|]. split; [assumption|].
      intros p1 p2 u c' Hp Hne Hd. destruct p1 as [|y p1].
      * cbn in Hp. subst p2. cbn in Hd.
        apply (match_here_complete _ _ _ _ _ Hr) in Hd. congruence.
      * cbn in Hp. injection Hp as <- ->. now apply (Hleft p1 p2 u c').
Qed.

Lemma search_complete (r : regex) (input : jsstr) :
  plain_lookaheads r = true ->
  forall p t t' c,
    den (jlen input) r t [] t' c -> search r input (p ++ t) <> None.
Proof.
  intros Hr. induction p as [|x p IH]; intros t t' c H.
  - cbn [app]. pose proof (match_here_complete r input t t' c Hr H) as Hm.
    destruct t; cbn [search]; destruct (match_here r input _) as [[? ?]|];
      congruence.
  - cbn [app search]. destruct (match_here r input (x :: p ++ t)) as [[? ?]|]; [discriminate|].
    now apply (IH t t' c).
Qed.

Lemma test_true_iff (r : regex) (input : jsstr) :
  plain_lookaheads r = true ->
  test r input = true
  <-> exists p t t' c, input = p ++ t /\ den (jlen input) r t [] t' c.
Proof.
  intros Hr. unfold test. split.
  - destruct (search r input input) as [[[t t'] c]|] eqn:E; [|discriminate].
    intros _. apply (search_sound r input Hr) in E as (p & Hp & Hden & _).
    now exists p, t, t', c.
  - intros (p & t & t' & c & Hp & Hden).
    pose proof (search_complete r input Hr p t t' c Hden) as H. rewrite <- Hp in H.
    destruct (search r input input); [reflexivity|congruence].
Qed.

Lemma exec_sound (n : nat) (r : regex) (input : jsstr) (m : list (option jsstr)) :
  plain_lookaheads r = true ->
  exec n r input = Some m ->
  exists p t t' c,
    input = p ++ t
    /\ den (jlen input) r t [] t' c
    /\ (forall p1 p2 u c', p = p1 ++ p2 -> p2 <> [] ->
          ~ den (jlen input) r (p2 ++ t) [] u c')
    /\ m = match_array n input (jlen t) (jlen t') c.
Proof.
  intros Hr. unfold exec.
  destruct (search r input input) as [[[t t'] c]|] eqn:E; [|discriminate].
  intros [= <-]. apply (search_sound r input Hr) in E as (p & Hp & Hden & Hleft).
  exists p, t, t', c. now repeat split.
Qed.

Lemma exec_none_iff (n : nat) (r : regex) (input : jsstr) :
  plain_lookaheads r = true ->
  exec n r input = None
  <-> forall p t t' c, input = p ++ t -> ~ den (jlen input) r t [] t' c.
Proof.
  intros Hr. unfold exec. split.
  - destruct (search r input input) as [[[t t'] c]|] eqn:E; [discriminate|].
    intros _ p t t' c Hp Hden.
    pose proof (search_complete r input Hr p t t' c Hden) as H. rewrite <- Hp in H. congruence.
  - intros H. destruct (search r input input) as [[[t t'] c]|] eqn:E; [|reflexivity].
    apply (search_sound r input Hr) in E as (p & Hp & Hden & _). exfalso.
    now apply (H p t t' c).
Qed.

(** [replace_all] has fuel to spare: more of it changes nothing. *)
Lemma replace_all_from_fuel (r : regex) (by_ input : jsstr) :
  forall fuel1 fuel2 s,
    (jlen s < fuel1)%nat -> (jlen s < fuel2)%nat ->
    replace_all_from fuel1 r by_ input s = replace_all_from fuel2 r by_ input s.
Proof.
  induction fuel1 as [|fuel1 IH]; intros fuel2 s H1 H2; [lia|].
  destruct fuel2 as [|fuel2]; [lia|]. cbn [replace_all_from].
  destruct (match_here r input s) as [[s' c]|] eqn:E.
  - destruct (jlen s' <? jlen s)%nat eqn:El.
    + apply Nat.ltb_lt in El. f_equal. apply IH; lia.
    + destruct s as [|x rest]; [reflexivity|]. do 2 f_equal.
      unfold jlen in *. cbn [length] in *. apply IH; lia.
  - destruct s as [|x rest]; [reflexivity|]. f_equal.
    unfold jlen in *. cbn [length] in *. apply IH; lia.
Qed.

(** *** Patterns built from character classes *)

Lemma iter_chr_inv (total : nat) (p : N -> bool) (lo : nat) (hi : option nat) :
  forall n s c s' c',
    iter (den total (Chr p)) lo hi n s c s' c' ->
    within hi n -> within hi lo ->
    exists w, s = w ++ s' /\ forallb p w = true /\ c' = c
              /\ (lo <= n + jlen w)%nat /\ within hi (n + jlen w).
Proof.
  intros n s c s' c' H. induction H as [n s c Hn|n s c s1 c1 s' c' Hok H1 _ IH];
    intros Hhi Hlo.
  - exists []. cbn. rewrite Nat.add_0_r. now repeat split.
  - cbn [den] in H1. destruct H1 as (x & -> & Hx & ->).
    assert (Hhi' : within hi (S n)).
    { destruct hi as [h|]; [|exact I]. cbn in *. destruct Hok as [Hok|[Hok _]]; lia. }
    destruct (IH Hhi' Hlo) as (w & -> & Hw & -> & Hge & Hle).
    exists (x :: w). cbn [app forallb jlen List.length]. rewrite Hx, Hw.
    repeat split; try reflexivity.
    + unfold jlen in *. lia.
    + destruct hi as [h|]; [|exact I]. cbn in *. unfold jlen in *. lia.
Qed.

Lemma iter_chr_intro (total : nat) (p : N -> bool) (lo : nat) (hi : option nat) :
  forall w n s' c,
    forallb p w = true -> (lo <= n + jlen w)%nat -> within hi (n + jlen w) ->
    iter (den total (Chr p)) lo hi n (w ++ s') c s' c.
Proof.
  induction w as [|x w IH]; intros n s' c Hw Hge Hle.
  - cbn in *. rewrite Nat.add_0_r in Hge. now apply iter_stop.
  - cbn [forallb] in Hw. apply andb_true_iff in Hw as [Hx Hw].
    cbn [jlen List.length] in Hge, Hle.
    eapply iter_step with (s1 := w ++ s') (c1 := c).
    + right. split.
      * destruct hi as [h|]; [|exact I]. unfold jlen in *. cbn in *. lia.
      * unfold jlen. cbn. lia.
    + cbn [den]. exists x. now repeat split.
    + apply IH; [assumption| |]; unfold jlen in *.
      * lia.
      * destruct hi as [h|]; [|exact I]. cbn in *. lia.
Qed.

(** [c{lo,hi}] for a character class [c]. *)
Lemma den_rep_chr (total : nat) (g : bool) (lo : nat) (hi : option nat) (p : N -> bool)
    (s : jsstr) (c : caps) (s' : jsstr) (c' : caps) :
  within hi lo ->
  den total (Rep g lo hi (Chr p)) s c s' c'
  <-> exists w, s = w ++ s' /\ forallb p w = true /\ c' = c
                /\ (lo <= jlen w)%nat /\ within hi (jlen w).
Proof.
  intros Hlo. cbn [den]. split.
  - intros H. apply (iter_chr_inv total p lo hi) in H;
      [exact H|destruct hi; unfold within; [lia|exact I]|assumption].
  - intros (w & -> & Hw & -> & Hge & Hle). now apply (iter_chr_intro total).
Qed.

Lemma den_chr (total : nat) (x : N) (s : jsstr) (c : caps) (s' : jsstr) (c' : caps) :
  den total (chr x) s c s' c' <-> s = x :: s' /\ c' = c.
Proof.
  unfold chr. cbn [den]. split.
  - intros (y & -> & Hy & ->). apply N.eqb_eq in Hy. now subst.
  - intros (-> & ->). exists x. repeat split. apply N.eqb_refl.
Qed.

Lemma den_seq_of_cons (total : nat) (r : regex) (l : list regex)
    (s : jsstr) (c : caps) (s' : jsstr) (c' : caps) :
  den total (seq_of (r :: l)) s c s' c'
  <-> exists s1 c1, den total r s c s1 c1 /\ den total (seq_of l) s1 c1 s' c'.
Proof.
  destruct l as [|r' l].
  - cbn [seq_of den]. split.
    + intros H. now exists s', c'.
    + intros (s1 & c1 & H & -> & ->). assumption.
  - reflexivity.
Qed.

Lemma den_seq_of_nil (total : nat) (s : jsstr) (c : caps) (s' : jsstr) (c' : caps) :
  den total (seq_of []) s c s' c' <-> s' = s /\ c' = c.
Proof. reflexivity. Qed.

Lemma den_grp (total : nat) (i : nat) (r : regex) (s : jsstr) (c : caps) (s' : jsstr) (c' : caps) :
  den total (Grp i r) s c s' c'
  <-> exists c0, den total r s c s' c0 /\ c' = (i, (jlen s, jlen s')) :: c0.
Proof. reflexivity. Qed.

(** [r?] *)
Lemma den_opt (total : nat) (r : regex) (s : jsstr) (c : caps) (s' : jsstr) (c' : caps) :
  den total (opt r) s c s' c'
  <-> (s' = s /\ c' = c) \/ (den total r s c s' c' /\ (jlen s' < jlen s)%nat).
Proof.
  unfold opt. cbn [den]. split.
  - intros H. inversion H as [n s0 c0 _|n s0 c0 s1 c1 s2 c2 Hok H1 Hrest]; subst.
    + now left.
    + right. destruct Hok as [Hok|[_ Hok]]; [lia|].
      inversion Hrest as [n s0 c0 _|n s0 c0 s3 c3 s4 c4 Hok' _ _]; subst.
      * now split.
      * destruct Hok' as [Hok'|[Hok' _]]; cbn in Hok'; lia.
  - intros [[-> ->]|[H Hlt]].
    + apply iter_stop. lia.
    + eapply iter_step; [|exact H|apply iter_stop; lia].
      right. split; [cbn; lia|assumption].
Qed.

(** The text a capture stands for. *)
Lemma slice_middle (p w q : jsstr) :
  slice (p ++ w ++ q) (jlen (w ++ q), jlen q) = w.
Proof.
  unfold slice, jlen. rewrite !length_app.
  replace (List.length p + (List.length w + List.length q)
           - (List.length w + List.length q))%nat with (List.length p) by lia.
  replace (List.length w + List.length q - List.length q)%nat with (List.length w) by lia.
  now rewrite drop_app_length, take_app_length.
Qed.

Lemma slice_at (input p w q : jsstr) (a b : nat) :
  input = p ++ w ++ q -> a = (jlen w + jlen q)%nat -> b = jlen q ->
  slice input (a, b) = w.
Proof.
  intros -> -> ->.
  transitivity (slice (p ++ w ++ q) (jlen (w ++ q), jlen q)); [|apply slice_middle].
  unfold jlen. now rewrite (length_app w q).
Qed.

Ltac slice_of p w q :=
  apply (slice_at _ p w q);
  [ rewrite <- ?app_assoc; reflexivity
  | unfold jlen; rewrite ?length_app; cbn [List.length]; lia
  | unfold jlen; rewrite ?length_app; cbn [List.length]; lia ].

(** A run of characters of a class ends where the first character outside of
    the class stands. *)
Lemma run_is_unique (p : N -> bool) (w1 w2 : jsstr) (x y : N) (r1 r2 : jsstr) :
  w1 ++ x :: r1 = w2 ++ y :: r2 ->
  forallb p w1 = true -> forallb p w2 = true -> p x = false -> p y = false ->
  w1 = w2 /\ x = y /\ r1 = r2.
Proof.
  revert w2. induction w1 as [|a w1 IH]; intros [|b w2] H H1 H2 Hx Hy; cbn in *.
  - injection H as -> ->. now repeat split.
  - injection H as -> _. apply andb_true_iff in H2 as [H2 _]. congruence.
  - injection H as -> _. apply andb_true_iff in H1 as [H1 _]. congruence.
  - injection H as -> H. apply andb_true_iff in H1 as [_ H1].
    apply andb_true_iff in H2 as [_ H2].
    destruct (IH w2 H H1 H2 Hx Hy) as (-> & -> & ->). now repeat split.
Qed.

Lemma same_length_prefix (w1 w2 r1 r2 : jsstr) :
  w1 ++ r1 = w2 ++ r2 -> jlen w1 = jlen w2 -> w1 = w2 /\ r1 = r2.
Proof.
  revert w2. induction w1 as [|a w1 IH]; intros [|b w2] H Hlen; cbn in *;
    try discriminate.
  - now split.
  - injection H as -> H. injection Hlen as Hlen.
    destruct (IH w2 H Hlen) as [-> ->]. now split.
Qed.

Lemma den_times_digit (total lo hi : nat) (s : jsstr) (c : caps) (s' : jsstr) (c' : caps) :
  (lo <= hi)%nat ->
  den total (times lo hi digit) s c s' c'
  <-> exists w, s = w ++ s' /\ digits lo hi w /\ c' = c.
Proof.
  intros Hle. unfold times, digit. rewrite den_rep_chr by exact Hle. unfold digits, within.
  split; intros (w & Hs & H); exists w; intuition.
Qed.

Ltac pieces := repeat first [reflexivity | assumption | split].

Lemma den_mdy (total : nat) (t t' : jsstr) (c : caps) :
  den total mdy_re t [] t' c
  <-> exists g1 g2 g3,
        t = g1 ++ [47] ++ g2 ++ [47] ++ g3 ++ t'
        /\ digits 1 2 g1 /\ digits 1 2 g2 /\ digits 4 4 g3
        /\ c = [ (3%nat, (jlen (g3 ++ t'), jlen t'));
                 (2%nat, (jlen (g2 ++ [47] ++ g3 ++ t'), jlen ([47] ++ g3 ++ t')));
                 (1%nat, (jlen t, jlen ([47] ++ g2 ++ [47] ++ g3 ++ t'))) ].
Proof.
  unfold mdy_re. split.
  - intros H.
    apply den_seq_of_cons in H as (s1 & c1 & H1 & H).
    apply den_seq_of_cons in H as (s2 & c2 & H2 & H).
    apply den_seq_of_cons in H as (s3 & c3 & H3 & H).
    apply den_seq_of_cons in H as (s4 & c4 & H4 & H).
    apply den_seq_of_cons in H as (s5 & c5 & H5 & H).
    apply den_seq_of_nil in H as (-> & ->).
    apply den_grp in H1 as (c0 & H1 & ->).
    apply den_times_digit in H1 as (g1 & -> & Hg1 & ->); [|lia].
    apply den_chr in H2 as (Hs2 & ->).
    apply den_grp in H3 as (c0 & H3 & ->).
    apply den_times_digit in H3 as (g2 & -> & Hg2 & ->); [|lia].
    apply den_chr in H4 as (Hs4 & ->).
    apply den_grp in H5 as (c0 & H5 & ->).
    apply den_times_digit in H5 as (g3 & -> & Hg3 & ->); [|lia].
    subst s3 s1. exists g1, g2, g3.
    pieces.
  - intros (g1 & g2 & g3 & -> & Hg1 & Hg2 & Hg3 & ->).
    apply den_seq_of_cons. eexists _, _. split.
    { apply den_grp. eexists. split; [|reflexivity].
      apply den_times_digit; [lia|]. exists g1. pieces. }
    apply den_seq_of_cons. eexists _, _. split; [apply den_chr; pieces|].
    apply den_seq_of_cons. eexists _, _. split.
    { apply den_grp. eexists. split; [|reflexivity].
      apply den_times_digit; [lia|]. exists g2. pieces. }
    apply den_seq_of_cons. eexists _, _. split; [apply den_chr; pieces|].
    apply den_seq_of_cons. eexists _, _. split.
    { apply den_grp. eexists. split; [|reflexivity].
      apply den_times_digit; [lia|]. exists g3. pieces. }
    apply den_seq_of_nil. pieces.
Qed.

Lemma exec_mdy_some (s : jsstr) (m : list (option jsstr)) :
  exec 3 mdy_re s = Some m ->
  exists p g1 g2 g3 q,
    mdy_shape s p g1 g2 g3 q
    /\ m = [Some (g1 ++ [47] ++ g2 ++ [47] ++ g3); Some g1; Some g2; Some g3]
    /\ (forall p1 p2 g1' g2' g3' q', p = p1 ++ p2 -> p2 <> [] ->
          ~ mdy_shape (p2 ++ g1 ++ [47] ++ g2 ++ [47] ++ g3 ++ q) [] g1' g2' g3' q').
Proof.
  intros H. apply exec_sound in H as (p & t & t' & c & Hs & Hden & Hleft & ->); [|reflexivity].
  apply den_mdy in Hden as (g1 & g2 & g3 & -> & Hg1 & Hg2 & Hg3 & ->).
  exists p, g1, g2, g3, t'. split; [pieces|]. split.
  - unfold match_array. cbn [seq map cap_lookup Nat.eqb option_map]. subst s.
    repeat f_equal.
    + slice_of p (g1 ++ [47] ++ g2 ++ [47] ++ g3) t'.
    + slice_of p g1 ([47] ++ g2 ++ [47] ++ g3 ++ t').
    + slice_of (p ++ g1 ++ [47]) g2 ([47] ++ g3 ++ t').
    + slice_of (p ++ g1 ++ [47] ++ g2 ++ [47]) g3 t'.
  - intros p1 p2 g1' g2' g3' q' Hp Hne (Heq & Hg1' & Hg2' & Hg3').
    apply (Hleft p1 p2 q'
             [ (3%nat, (jlen (g3' ++ q'), jlen q'));
               (2%nat, (jlen (g2' ++ [47] ++ g3' ++ q'), jlen ([47] ++ g3' ++ q')));
               (1%nat, (jlen (p2 ++ g1 ++ [47] ++ g2 ++ [47] ++ g3 ++ t'),
                        jlen ([47] ++ g2' ++ [47] ++ g3' ++ q'))) ] Hp Hne).
    apply den_mdy. exists g1', g2', g3'. pieces.
Qed.

Lemma exec_mdy_none (s : jsstr) :
  exec 3 mdy_re s = None <-> ~ mdy_occurs s.
Proof.
  rewrite exec_none_iff by reflexivity. split.
  - intros H (p & g1 & g2 & g3 & q & -> & Hg1 & Hg2 & Hg3).
    eapply (H p _ q). { reflexivity. }
    apply den_mdy. exists g1, g2, g3. pieces.
  - intros H p t t' c -> Hden. apply H.
    apply den_mdy in Hden as (g1 & g2 & g3 & -> & Hg1 & Hg2 & Hg3 & _).
    exists p, g1, g2, g3, t'. pieces.
Qed.

(** *** The patterns of parseDate *)


Lemma den_plus_chr (total : nat) (p : N -> bool) (s : jsstr) (c : caps) (s' : jsstr) (c' : caps) :
  den total (plus (Chr p)) s c s' c'
  <-> exists w, s = w ++ s' /\ (forallb p w = true /\ (1 <= jlen w)%nat) /\ c' = c.
Proof.
  unfold plus. rewrite den_rep_chr by exact I. unfold within.
  split; intros (w & Hs & H); exists w; intuition.
Qed.

Lemma den_star_chr (total : nat) (p : N -> bool) (s : jsstr) (c : caps) (s' : jsstr) (c' : caps) :
  den total (star (Chr p)) s c s' c'
  <-> exists w, s = w ++ s' /\ forallb p w = true /\ c' = c.
Proof.
  unfold star. rewrite den_rep_chr by exact I. unfold within.
  split; intros (w & Hs & H); exists w; intuition. lia.
Qed.

Lemma den_opt_chr (total : nat) (x : N) (s : jsstr) (c : caps) (s' : jsstr) (c' : caps) :
  den total (opt (chr x)) s c s' c'
  <-> exists w, s = w ++ s' /\ (w = [] \/ w = [x]) /\ c' = c.
Proof.
  rewrite den_opt. split.
  - intros [[-> ->]|[H _]].
    + exists []. pieces. now left.
    + apply den_chr in H as [-> ->]. exists [x]. pieces. now right.
  - intros (w & -> & [->| ->] & ->).
    + now left.
    + right. split; [apply den_chr; pieces|]. unfold jlen. cbn. lia.
Qed.

Lemma test_iso (s : jsstr) : test iso_re s = true <-> iso_prefixed s.
Proof.
  rewrite test_true_iff by reflexivity. unfold iso_re, iso_prefixed. split.
  - intros (p & t & t' & c & Hs & H).
    apply den_seq_of_cons in H as (s1 & c1 & H1 & H).
    apply den_seq_of_cons in H as (s2 & c2 & H2 & H).
    apply den_seq_of_cons in H as (s3 & c3 & H3 & H).
    apply den_seq_of_cons in H as (s4 & c4 & H4 & H).
    apply den_seq_of_cons in H as (s5 & c5 & H5 & H).
    apply den_seq_of_cons in H as (s6 & c6 & H6 & H).
    apply den_seq_of_nil in H as (-> & ->).
    cbn [den] in H1. destruct H1 as (Hlen & -> & ->).
    assert (p = []) as ->.
    { rewrite Hs in Hlen. unfold jlen in Hlen. rewrite length_app in Hlen.
      destruct p; [reflexivity|]. cbn in Hlen. lia. }
    cbn [app] in Hs. subst t.
    apply den_times_digit in H2 as (y & -> & Hy & ->); [|lia].
    apply den_chr in H3 as (-> & ->).
    apply den_times_digit in H4 as (m & -> & Hm & ->); [|lia].
    apply den_chr in H5 as (-> & ->).
    apply den_times_digit in H6 as (d & -> & Hd & ->); [|lia].
    exists y, m, d, s6. pieces.
  - intros (y & m & d & rest & -> & Hy & Hm & Hd).
    exists [], (y ++ [45] ++ m ++ [45] ++ d ++ rest), rest, []. split; [reflexivity|].
    apply den_seq_of_cons. eexists _, _. split; [cbn [den]; pieces|].
    apply den_seq_of_cons. eexists _, _. split.
    { apply den_times_digit; [lia|]. exists y. pieces. }
    apply den_seq_of_cons. eexists _, _. split; [apply den_chr; pieces|].
    apply den_seq_of_cons. eexists _, _. split.
    { apply den_times_digit; [lia|]. exists m. pieces. }
    apply den_seq_of_cons. eexists _, _. split; [apply den_chr; pieces|].
    apply den_seq_of_cons. eexists _, _. split.
    { apply den_times_digit; [lia|]. exists d. pieces. }
    apply den_seq_of_nil. pieces.
Qed.







(** *** parseDate *)




Lemma parseDate_steps (s : jsstr) :
  s <> [] ->
  parseDate (Some s)
  = if test iso_re s then Some s
    else match parse_mdy s with
         | Some r => Some r
         | None =>
         match parse_dmy s with
         | Some r => Some r
         | None =>
         match parse_full s with
         | Some r => Some r
         | None => Some s
         end end end.
Proof. destruct s; [congruence|reflexivity]. Qed.

Lemma not_iso (s : jsstr) : ~ iso_prefixed s -> test iso_re s = false.
Proof.
  intros H. destruct (test iso_re s) eqn:E; [|reflexivity].
  apply test_iso in E. contradiction.
Qed.

Lemma mdy_occurs_nonempty (s : jsstr) : mdy_occurs s -> s <> [].
Proof. intros (p & g1 & g2 & g3 & q & -> & _) H. destruct p, g1; discriminate H. Qed.

Lemma parse_mdy_some (s : jsstr) :
  mdy_occurs s ->
  exists p g1 g2 g3 q,
    mdy_shape s p g1 g2 g3 q
    /\ (forall p1 p2 g1' g2' g3' q', p = p1 ++ p2 -> p2 <> [] ->
          ~ mdy_shape (p2 ++ g1 ++ [47] ++ g2 ++ [47] ++ g3 ++ q) [] g1' g2' g3' q')
    /\ parse_mdy s = Some (ymd g3 (padStart2 g1) (padStart2 g2)).
Proof.
  intros Hocc. unfold parse_mdy.
  destruct (exec 3 mdy_re s) as [m|] eqn:E.
  - apply exec_mdy_some in E as (p & g1 & g2 & g3 & q & Hshape & -> & Hleft).
    exists p, g1, g2, g3, q. pieces.
  - apply exec_mdy_none in E. contradiction.
Qed.






(** *** Character classes do not overlap *)

Ltac class_true H :=
  repeat match type of H with
         | (_ || _) = true => apply orb_true_iff in H; destruct H as [H|H]
         | (_ && _) = true =>
             let H1 := fresh in
             apply andb_true_iff in H; destruct H as [H1 H]; apply N.leb_le in H1
         | (_ <=? _) = true => apply N.leb_le in H
         | (_ =? _) = true => apply N.eqb_eq in H
         end.

Ltac class_false :=
  repeat match goal with
         | |- (_ || _) = false => apply orb_false_intro
         | |- (_ =? _) = false => apply N.eqb_neq; lia
         | |- (_ && _) = false =>
             apply andb_false_iff;
             first [left; apply N.leb_gt; lia | right; apply N.leb_gt; lia]
         end.

Lemma digit_not_alpha (c : N) : is_digit c = true -> is_alpha c = false.
Proof. unfold is_digit, is_alpha, is_upper, is_lower. intros H. class_true H. class_false. Qed.






Lemma forallb_head (p : N -> bool) (w r : jsstr) (x : N) (l : jsstr) :
  forallb p w = true -> (1 <= jlen w)%nat -> w ++ r = x :: l -> p x = true.
Proof.
  intros Hw Hlen H. destruct w as [|y w]; [cbn in Hlen; lia|].
  cbn in H. injection H as -> _. cbn in Hw. now apply andb_true_iff in Hw as [Hw _].
Qed.

(** *** Dates written in one of the formats and nothing else *)

Lemma mdy_front_unique (s a b c r p g1 g2 g3 q : jsstr) :
  mdy_shape s [] a b c r ->
  mdy_shape s p g1 g2 g3 q ->
  (forall p1 p2 g1' g2' g3' q', p = p1 ++ p2 -> p2 <> [] ->
     ~ mdy_shape (p2 ++ g1 ++ [47] ++ g2 ++ [47] ++ g3 ++ q) [] g1' g2' g3' q') ->
  p = [] /\ g1 = a /\ g2 = b /\ g3 = c /\ q = r.
Proof.
  intros (Hs & Ha & Hb & Hc) (Hs' & Hg1 & Hg2 & Hg3) Hleft.
  assert (p = []) as ->.
  { destruct p as [|x p]; [reflexivity|]. exfalso.
    apply (Hleft [] (x :: p) a b c r eq_refl); [discriminate|].
    rewrite <- Hs'. pieces. }
  rewrite Hs in Hs'. cbn [app] in Hs'.
  destruct Ha as [Ha _], Hb as [Hb _], Hg1 as [Hg1 _], Hg2 as [Hg2 _].
  apply run_is_unique with (p := is_digit) in Hs' as (<- & _ & Hs'); try assumption;
    try reflexivity.
  apply run_is_unique with (p := is_digit) in Hs' as (<- & _ & Hs'); try assumption;
    try reflexivity.
  apply same_length_prefix in Hs' as [<- <-].
  - pieces.
  - destruct Hc as [_ Hc], Hg3 as [_ Hg3]. lia.
Qed.

Lemma mdy_is_not_iso (a b c r : jsstr) :
  digits 1 2 a -> ~ iso_prefixed (a ++ [47] ++ b ++ [47] ++ c ++ r).
Proof.
  intros [Ha _] (y & m & d & rest & H & [Hy _] & _). cbn [app] in H.
  apply run_is_unique with (p := is_digit) in H as (_ & H & _); try assumption;
    try reflexivity.
  discriminate H.
Qed.

(** A date written M/D/YYYY, whatever follows it. *)
Lemma parseDate_mdy_text (a b c r : jsstr) :
  digits 1 2 a -> digits 1 2 b -> digits 4 4 c ->
  parseDate (Some (a ++ [47] ++ b ++ [47] ++ c ++ r))
  = Some (ymd c (padStart2 a) (padStart2 b)).
Proof.
  intros Ha Hb Hc. set (s := a ++ [47] ++ b ++ [47] ++ c ++ r).
  assert (Hshape : mdy_shape s [] a b c r) by (unfold s; pieces).
  assert (Hocc : mdy_occurs s) by now exists [], a, b, c, r.
  rewrite parseDate_steps by now apply mdy_occurs_nonempty.
  rewrite not_iso by now apply mdy_is_not_iso.
  destruct (parse_mdy_some s Hocc) as (p & g1 & g2 & g3 & q & Hshape' & Hleft & ->).
  destruct (mdy_front_unique s a b c r p g1 g2 g3 q Hshape Hshape' Hleft)
    as (_ & -> & -> & -> & _).
  reflexivity.
Qed.






(** *** Lower case of ASCII text *)

Lemma codePoints_ascii (s : jsstr) :
  forallb (fun c => c <? 128) s = true -> codePoints s = s.
Proof.
  induction s as [|c s IH]; [reflexivity|]. cbn [forallb]. intros H.
  apply andb_true_iff in H as [Hc Hs]. cbn [codePoints]. destruct s as [|d s']; [reflexivity|].
  assert (Hhigh : is_high c = false).
  { unfold is_high. apply N.ltb_lt in Hc. apply andb_false_iff. left. apply N.leb_gt. lia. }
  rewrite Hhigh. cbn [andb]. now rewrite (IH Hs).
Qed.

Lemma lower_points_ascii (s : jsstr) :
  forallb (fun c => c <? 128) s = true ->
  forall b, lower_points b s = map (fun c => if is_upper c then c + 32 else c) s.
Proof.
  induction s as [|c s IH]; [reflexivity|]. cbn [forallb]. intros H b.
  apply andb_true_iff in H as [Hc Hs]. cbn [lower_points map].
  assert (Hsigma : (c =? 931) = false).
  { apply N.ltb_lt in Hc. apply N.eqb_neq. lia. }
  rewrite Hsigma. unfold lower_point. rewrite Hc. cbn [app]. now rewrite (IH Hs).
Qed.

Lemma concat_codeUnits (l : list N) :
  forallb (fun c => c <? 65536) l = true -> concat (map codeUnits l) = l.
Proof.
  induction l as [|c l IH]; [reflexivity|]. cbn [forallb]. intros H.
  apply andb_true_iff in H as [Hc Hl]. cbn [map concat]. unfold codeUnits at 1.
  rewrite Hc. cbn [app]. now rewrite (IH Hl).
Qed.

Lemma toLowerCase_ascii (s : jsstr) :
  forallb (fun c => c <? 128) s = true ->
  toLowerCase s = map (fun c => if is_upper c then c + 32 else c) s.
Proof.
  intros H. unfold toLowerCase. rewrite (codePoints_ascii s H), (lower_points_ascii s H).
  apply concat_codeUnits. apply forallb_forall. intros x Hx.
  apply in_map_iff in Hx as (c & <- & Hc).
  rewrite forallb_forall in H. specialize (H c Hc). apply N.ltb_lt in H. apply N.ltb_lt.
  destruct (is_upper c) eqn:E; [|lia]. unfold is_upper in E.
  apply andb_true_iff in E as [_ E]. apply N.leb_le in E. lia.
Qed.





Lemma run_unique (p : N -> bool) (w1 w2 r1 r2 : jsstr) :
  w1 ++ r1 = w2 ++ r2 ->
  forallb p w1 = true -> forallb p w2 = true -> stops p r1 -> stops p r2 ->
  w1 = w2 /\ r1 = r2.
Proof.
  revert w2. induction w1 as [|a w1 IH]; intros [|b w2] H H1 H2 Hr1 Hr2; cbn in *.
  - now split.
  - subst r1. cbn in Hr1. apply andb_true_iff in H2 as [H2 _]. congruence.
  - subst r2. cbn in Hr2. apply andb_true_iff in H1 as [H1 _]. congruence.
  - injection H as -> H. apply andb_true_iff in H1 as [_ H1].
    apply andb_true_iff in H2 as [_ H2].
    destruct (IH w2 H H1 H2 Hr1 Hr2) as [-> ->]. now split.
Qed.






(** *** The patterns of parseSalary *)

Lemma den_amount (total : nat) (s : jsstr) (c : caps) (s' : jsstr) (c' : caps) :
  den total amount s c s' c' <-> exists a, s = a ++ s' /\ is_amount a /\ c' = c.
Proof.
  unfold amount. cbn [den]. split.
  - intros (s1 & c1 & H1 & H2).
    apply (den_plus_chr total) in H1 as (i & -> & [Hi Hil] & ->).
    apply (den_opt total) in H2 as [[-> ->]|[H2 _]].
    + exists i. split; [reflexivity|]. split; [|reflexivity].
      exists i, []. rewrite app_nil_r. pieces. now left.
    + cbn [den] in H2. destruct H2 as (s2 & c2 & H2 & H3).
      apply (den_chr total) in H2 as [-> ->].
      apply (den_plus_chr total) in H3 as (d & -> & [Hd Hdl] & ->).
      exists (i ++ 46 :: d). split; [now rewrite <- app_assoc|]. split; [|reflexivity].
      exists i, (46 :: d). pieces. right. exists d. pieces.
  - intros (a & -> & (i & f & -> & Hi & Hil & Hf) & ->).
    exists (f ++ s'), c. split.
    + apply (den_plus_chr total). exists i. rewrite <- app_assoc. pieces.
    + apply (den_opt total). destruct Hf as [-> | (d & -> & Hd & Hdl)].
      * now left.
      * right. split.
        -- cbn [den]. exists (d ++ s'), c. split; [apply den_chr; pieces|].
           apply (den_plus_chr total). exists d. pieces.
        -- unfold jlen. cbn. rewrite !length_app. lia.
Qed.

Lemma den_opt_dollar (total : nat) (s : jsstr) (c : caps) (s' : jsstr) (c' : caps) :
  den total (opt (chr 36)) s c s' c' <-> exists d, s = d ++ s' /\ dollar d /\ c' = c.
Proof. apply den_opt_chr. Qed.

Lemma den_range (total : nat) (t t' : jsstr) (c : caps) :
  den total range_re t [] t' c
  <-> exists d1 a1 ws1 sep ws2 d2 a2,
        t = d1 ++ a1 ++ ws1 ++ sep ++ ws2 ++ d2 ++ a2 ++ t'
        /\ dollar d1 /\ is_amount a1 /\ forallb is_space ws1 = true
        /\ (forallb is_range_sep sep = true /\ (1 <= jlen sep)%nat)
        /\ forallb is_space ws2 = true /\ dollar d2 /\ is_amount a2
        /\ c = [ (2%nat, (jlen (a2 ++ t'), jlen t'));
                 (1%nat, (jlen (a1 ++ ws1 ++ sep ++ ws2 ++ d2 ++ a2 ++ t'),
                          jlen (ws1 ++ sep ++ ws2 ++ d2 ++ a2 ++ t'))) ].
Proof.
  unfold range_re. split.
  - intros H.
    apply den_seq_of_cons in H as (s1 & c1 & H1 & H).
    apply den_seq_of_cons in H as (s2 & c2 & H2 & H).
    apply den_seq_of_cons in H as (s3 & c3 & H3 & H).
    apply den_seq_of_cons in H as (s4 & c4 & H4 & H).
    apply den_seq_of_cons in H as (s5 & c5 & H5 & H).
    apply den_seq_of_cons in H as (s6 & c6 & H6 & H).
    apply den_seq_of_cons in H as (s7 & c7 & H7 & H).
    apply den_seq_of_nil in H as (-> & ->).
    apply den_opt_dollar in H1 as (d1 & -> & Hd1 & ->).
    apply den_grp in H2 as (c0 & H2 & ->).
    apply den_amount in H2 as (a1 & -> & Ha1 & ->).
    apply (den_star_chr total) in H3 as (ws1 & -> & Hws1 & ->).
    apply (den_plus_chr total) in H4 as (sep & -> & Hsep & ->).
    apply (den_star_chr total) in H5 as (ws2 & -> & Hws2 & ->).
    apply den_opt_dollar in H6 as (d2 & -> & Hd2 & ->).
    apply den_grp in H7 as (c0 & H7 & ->).
    apply den_amount in H7 as (a2 & -> & Ha2 & ->).
    exists d1, a1, ws1, sep, ws2, d2, a2. pieces.
  - intros (d1 & a1 & ws1 & sep & ws2 & d2 & a2 & -> & Hd1 & Ha1 & Hws1 & Hsep & Hws2
            & Hd2 & Ha2 & ->).
    apply den_seq_of_cons. eexists _, _. split; [apply den_opt_dollar; exists d1; pieces|].
    apply den_seq_of_cons. eexists _, _. split.
    { apply den_grp. eexists. split; [|reflexivity]. apply den_amount. exists a1. pieces. }
    apply den_seq_of_cons. eexists _, _. split;
      [apply (den_star_chr total); exists ws1; pieces|].
    apply den_seq_of_cons. eexists _, _. split;
      [apply (den_plus_chr total); exists sep; pieces|].
    apply den_seq_of_cons. eexists _, _. split;
      [apply (den_star_chr total); exists ws2; pieces|].
    apply den_seq_of_cons. eexists _, _. split; [apply den_opt_dollar; exists d2; pieces|].
    apply den_seq_of_cons. eexists _, _. split.
    { apply den_grp. eexists. split; [|reflexivity]. apply den_amount. exists a2. pieces. }
    apply den_seq_of_nil. pieces.
Qed.

Lemma den_single (total : nat) (t t' : jsstr) (c : caps) :
  den total single_re t [] t' c
  <-> exists d a,
        t = d ++ a ++ t' /\ dollar d /\ is_amount a
        /\ c = [ (1%nat, (jlen (a ++ t'), jlen t')) ].
Proof.
  unfold single_re. cbn [den]. split.
  - intros (s1 & c1 & H1 & c0 & H2 & ->).
    apply den_opt_dollar in H1 as (d & -> & Hd & ->).
    apply den_amount in H2 as (a & -> & Ha & ->).
    exists d, a. pieces.
  - intros (d & a & -> & Hd & Ha & ->).
    exists (a ++ t'), []. split; [apply den_opt_dollar; exists d; pieces|].
    exists []. split; [|reflexivity]. apply den_amount. exists a. pieces.
Qed.

Lemma exec_range_some (s : jsstr) (m : list (option jsstr)) :
  exec 2 range_re s = Some m ->
  exists p d1 a1 ws1 sep ws2 d2 a2 q,
    range_shape s p d1 a1 ws1 sep ws2 d2 a2 q
    /\ m = [Some (d1 ++ a1 ++ ws1 ++ sep ++ ws2 ++ d2 ++ a2); Some a1; Some a2].
Proof.
  intros H. apply exec_sound in H as (p & t & t' & c & Hs & Hden & _ & ->); [|reflexivity].
  apply den_range in Hden
    as (d1 & a1 & ws1 & sep & ws2 & d2 & a2 & -> & Hd1 & Ha1 & Hws1 & Hsep & Hws2 & Hd2
        & Ha2 & ->).
  exists p, d1, a1, ws1, sep, ws2, d2, a2, t'. split; [pieces|].
  unfold match_array. cbn [seq map cap_lookup Nat.eqb option_map]. subst s.
  repeat f_equal.
  - slice_of p (d1 ++ a1 ++ ws1 ++ sep ++ ws2 ++ d2 ++ a2) t'.
  - slice_of (p ++ d1) a1 (ws1 ++ sep ++ ws2 ++ d2 ++ a2 ++ t').
  - slice_of (p ++ d1 ++ a1 ++ ws1 ++ sep ++ ws2 ++ d2) a2 t'.
Qed.

Lemma exec_range_none (s : jsstr) : exec 2 range_re s = None <-> ~ range_occurs s.
Proof.
  rewrite exec_none_iff by reflexivity. split.
  - intros H (p & d1 & a1 & ws1 & sep & ws2 & d2 & a2 & q & -> & H1 & H2 & H3 & H4 & H5 & H6 & H7).
    eapply (H p _ q). { reflexivity. }
    apply den_range. exists d1, a1, ws1, sep, ws2, d2, a2. pieces.
  - intros H p t t' c -> Hden. apply H.
    apply den_range in Hden
      as (d1 & a1 & ws1 & sep & ws2 & d2 & a2 & -> & H1 & H2 & H3 & H4 & H5 & H6 & H7 & _).
    exists p, d1, a1, ws1, sep, ws2, d2, a2, t'. pieces.
Qed.

Lemma exec_single_some (s : jsstr) (m : list (option jsstr)) :
  exec 1 single_re s = Some m ->
  exists p d a q, single_shape s p d a q /\ m = [Some (d ++ a); Some a].
Proof.
  intros H. apply exec_sound in H as (p & t & t' & c & Hs & Hden & _ & ->); [|reflexivity].
  apply den_single in Hden as (d & a & -> & Hd & Ha & ->).
  exists p, d, a, t'. split; [pieces|].
  unfold match_array. cbn [seq map cap_lookup Nat.eqb option_map]. subst s.
  repeat f_equal.
  - slice_of p (d ++ a) t'.
  - slice_of (p ++ d) a t'.
Qed.

Lemma exec_single_none (s : jsstr) : exec 1 single_re s = None <-> ~ amount_occurs s.
Proof.
  rewrite exec_none_iff by reflexivity. split.
  - intros H (p & d & a & q & -> & Hd & Ha).
    eapply (H p _ q). { reflexivity. }
    apply den_single. exists d, a. pieces.
  - intros H p t t' c -> Hden. apply H.
    apply den_single in Hden as (d & a & -> & Hd & Ha & _).
    exists p, d, a, t'. pieces.
Qed.

(** *** parseSalary *)

Lemma parseSalary_steps (s : jsstr) :
  s <> [] ->
  parseSalary (Some s)
  = match exec 2 range_re s with
    | Some m =>
        {| s_min := option_map strip_commas (group 1 m);
           s_max := option_map strip_commas (group 2 m);
           s_raw := Some s; s_period := detect_period s |}
    | None =>
        match exec 1 single_re s with
        | Some m =>
            {| s_min := option_map strip_commas (group 1 m);
               s_max := option_map strip_commas (group 1 m);
               s_raw := Some s; s_period := detect_period s |}
        | None =>
            {| s_min := None; s_max := None; s_raw := Some s;
               s_period := detect_period s |}
        end
    end.
Proof. destruct s; [congruence|reflexivity]. Qed.

Lemma parseSalary_range (s : jsstr) :
  range_occurs s ->
  exists p d1 a1 ws1 sep ws2 d2 a2 q,
    range_shape s p d1 a1 ws1 sep ws2 d2 a2 q
    /\ parseSalary (Some s)
       = {| s_min := Some (strip_commas a1); s_max := Some (strip_commas a2);
            s_raw := Some s; s_period := detect_period s |}.
Proof.
  intros Hocc.
  destruct (exec 2 range_re s) as [m|] eqn:E; [|apply exec_range_none in E; contradiction].
  pose proof E as E'.
  apply exec_range_some in E' as (p & d1 & a1 & ws1 & sep & ws2 & d2 & a2 & q & Hshape & ->).
  exists p, d1, a1, ws1, sep, ws2, d2, a2, q. split; [assumption|].
  rewrite parseSalary_steps by (intros ->; discriminate E).
  rewrite E. reflexivity.
Qed.

Lemma parseSalary_single (s : jsstr) :
  ~ range_occurs s -> amount_occurs s ->
  exists p d a q,
    single_shape s p d a q
    /\ parseSalary (Some s)
       = {| s_min := Some (strip_commas a); s_max := Some (strip_commas a);
            s_raw := Some s; s_period := detect_period s |}.
Proof.
  intros Hno Hocc. apply exec_range_none in Hno.
  destruct (exec 1 single_re s) as [m|] eqn:E; [|apply exec_single_none in E; contradiction].
  pose proof E as E'.
  apply exec_single_some in E' as (p & d & a & q & Hshape & ->).
  exists p, d, a, q. split; [assumption|].
  rewrite parseSalary_steps by (intros ->; discriminate E).
  rewrite Hno, E. reflexivity.
Qed.

Lemma parseSalary_none (s : jsstr) :
  ~ amount_occurs s ->
  s_min (parseSalary (Some s)) = None /\ s_max (parseSalary (Some s)) = None
  /\ s_raw (parseSalary (Some s)) = Some s.
Proof.
  intros Hno.
  assert (Hrange : ~ range_occurs s).
  { intros (p & d1 & a1 & ws1 & sep & ws2 & d2 & a2 & q & -> & Hd1 & Ha1 & _).
    apply Hno. exists p, d1, a1, (ws1 ++ sep ++ ws2 ++ d2 ++ a2 ++ q). pieces. }
  apply exec_range_none in Hrange. apply exec_single_none in Hno.
  destruct s as [|x s]; [now cbn|].
  rewrite parseSalary_steps by discriminate. rewrite Hrange, Hno. now cbn.
Qed.


(** ** The page tree *)

Section NodeInduction.
Variable P : node -> Prop.
Hypothesis text_case : forall t, P (Text t).
Hypothesis elem_case : forall t a kids, Forall P kids -> P (Elem t a kids).

Fixpoint node_induction (n : node) : P n :=
  match n with
  | Text t => text_case t
  | Elem t a kids =>
      elem_case t a kids
        ((fix all (l : list node) : Forall P l :=
            match l with
            | [] => @List.Forall_nil _ P
            | k :: l' => @List.Forall_cons _ P k l' (node_induction k) (all l')
            end) kids)
  end.

End NodeInduction.

Lemma matches_tags (l : list string) (n : node) (anc : list node) :
  matches (tags l) n anc = is_elem n && existsb (fun t => str_eqb (js t) (tag_of n)) l.
Proof.
  unfold matches, tags. f_equal.
  induction l as [|t l IH]; [reflexivity|].
  cbn [map existsb]. rewrite IH. f_equal.
  cbn. now rewrite !andb_true_r.
Qed.

Lemma str_eqb_sym (a : jsstr) : forall b, str_eqb a b = str_eqb b a.
Proof.
  induction a as [|x a IH]; intros [|y b]; cbn; try reflexivity.
  now rewrite IH, N.eqb_sym.
Qed.

Lemma str_eqb_eq (a b : jsstr) : str_eqb a b = true <-> a = b.
Proof.
  revert b. induction a as [|x a IH]; intros [|y b]; cbn; try tauto;
    try (split; discriminate).
  rewrite andb_true_iff, N.eqb_eq, IH.
  split; [intros [-> ->]; reflexivity|intros [= -> ->]; tauto].
Qed.

(** The selector of the removal picks the script, style and noscript
    elements, wherever they stand. *)
Lemma script_like_any_ancestors (n : node) (anc : list node) :
  matches script_style_noscript n anc = is_script_like n.
Proof.
  unfold script_style_noscript. rewrite matches_tags.
  destruct n as [t|t a kids]; [reflexivity|].
  cbn [is_elem tag_of is_script_like andb existsb].
  now rewrite !(str_eqb_sym t).
Qed.

Lemma script_like_by_tag (t : jsstr) (a a' : list (jsstr * jsstr)) (k k' : list node) :
  is_script_like (Elem t a k) = is_script_like (Elem t a' k').
Proof. reflexivity. Qed.

Lemma forallb_flat_map {A B : Type} (p : B -> bool) (f : A -> list B) (l : list A) :
  Forall (fun x => forallb p (f x) = true) l -> forallb p (flat_map f l) = true.
Proof.
  induction 1 as [|x l Hx _ IH]; [reflexivity|].
  cbn [flat_map]. now rewrite forallb_app, Hx, IH.
Qed.

Lemma prune_script_free (n : node) :
  forall anc, forallb script_free (prune_node script_style_noscript anc n) = true.
Proof.
  induction n as [t|t a kids IH] using node_induction; intros anc.
  - reflexivity.
  - cbn [prune_node]. rewrite script_like_any_ancestors.
    destruct (is_script_like (Elem t a kids)) eqn:E; [reflexivity|].
    cbn [forallb script_free].
    rewrite (script_like_by_tag t _ a _ kids), E. cbn [negb andb].
    rewrite andb_true_r. apply forallb_flat_map.
    eapply List.Forall_impl; [|exact IH]. intros k Hk. apply Hk.
Qed.

Lemma remove_script_free (d : document) :
  forallb script_free (remove script_style_noscript d) = true.
Proof.
  unfold remove. apply forallb_flat_map.
  apply List.Forall_forall. intros n _. apply prune_script_free.
Qed.

Lemma locs_node_script_free (n : node) :
  forall anc after x,
    script_free n = true ->
    Forall (fun a => is_script_like a = false) anc ->
    In x (locs_node anc n after) ->
    off_scripts x.
Proof.
  induction n as [t|t a kids IH] using node_induction; intros anc after x Hfree Hanc Hin.
  - destruct Hin.
  - pose proof Hfree as Hfree'.
    cbn [script_free] in Hfree. apply andb_true_iff in Hfree as [Hn Hkids].
    apply negb_true_iff in Hn.
    cbn [locs_node] in Hin. destruct Hin as [<-|Hin]; [now repeat split|].
    assert (Hanc' : Forall (fun a => is_script_like a = false) (Elem t a kids :: anc))
      by now constructor.
    revert Hin. generalize (Elem t a kids :: anc) Hanc'. intros anc' Hanc'' .
    clear Hn Hanc Hanc' Hfree'.
    induction kids as [|k kids IHk]; [intros []|].
    cbn [forallb] in Hkids. apply andb_true_iff in Hkids as [Hk Hkids].
    inversion IH as [|? ? IHhd IHtl]; subst.
    intros Hin. apply in_app_or in Hin as [Hin|Hin].
    + now apply (IHhd anc' kids x).
    + now apply IHk.
Qed.

Lemma locs_script_free (d : document) :
  forall anc x,
    forallb script_free d = true ->
    Forall (fun a => is_script_like a = false) anc ->
    In x (locs anc d) ->
    off_scripts x.
Proof.
  induction d as [|n d IH]; intros anc x Hfree Hanc Hin; [destruct Hin|].
  cbn [forallb] in Hfree. apply andb_true_iff in Hfree as [Hn Hd].
  cbn [locs] in Hin. apply in_app_or in Hin as [Hin|Hin].
  - now apply (locs_node_script_free n anc d x).
  - now apply (IH anc).
Qed.

Lemma select_script_free (sel : selector) (d : document) :
  forallb script_free d = true -> Forall off_scripts (select sel d).
Proof.
  intros Hfree. apply List.Forall_forall. intros x Hin.
  apply filter_In in Hin as [Hin _].
  now apply (locs_script_free d [] x).
Qed.

Lemma select_scripts_script_free (d : document) :
  forallb script_free d = true -> select script_style_noscript d = [].
Proof.
  intros Hfree. pose proof (select_script_free script_style_noscript d Hfree) as H.
  destruct (select script_style_noscript d) as [|x l] eqn:E; [reflexivity|].
  assert (Hin : In x (select script_style_noscript d)) by (rewrite E; now left).
  apply filter_In in Hin as [_ Hm].
  inversion H as [|? ? (_ & Hx & _) _]; subst.
  unfold loc_matches in Hm. rewrite script_like_any_ancestors in Hm. congruence.
Qed.

Lemma text_of_pruned (n : node) :
  forall anc,
    concat (map text_of (prune_node script_style_noscript anc n)) = text_outside_scripts n.
Proof.
  induction n as [t|t a kids IH] using node_induction; intros anc.
  - cbn. now rewrite app_nil_r.
  - cbn [prune_node text_outside_scripts]. rewrite script_like_any_ancestors.
    destruct (is_script_like (Elem t a kids)); [reflexivity|].
    cbn [map concat text_of]. rewrite app_nil_r.
    generalize (Elem t a kids :: anc). intros anc'.
    induction IH as [|k kids Hk _ IHk]; [reflexivity|].
    cbn [flat_map map concat]. now rewrite map_app, concat_app, Hk, IHk.
Qed.

Lemma text_of_removed (d : document) :
  document_text (remove script_style_noscript d) = concat (map text_outside_scripts d).
Proof.
  unfold document_text, remove.
  induction d as [|n d IH]; [reflexivity|].
  cbn [flat_map map concat]. now rewrite map_app, concat_app, text_of_pruned, IH.
Qed.

(** Removing twice is removing once. *)
Lemma prune_script_free_id (n : node) :
  forall anc, script_free n = true -> prune_node script_style_noscript anc n = [n].
Proof.
  induction n as [t|t a kids IH] using node_induction; intros anc Hfree; [reflexivity|].
  cbn [script_free] in Hfree. apply andb_true_iff in Hfree as [Hn Hkids].
  apply negb_true_iff in Hn.
  cbn [prune_node]. rewrite script_like_any_ancestors, Hn. do 2 f_equal.
  generalize (Elem t a kids :: anc). intros anc'.
  induction IH as [|k kids Hk _ IHk]; [reflexivity|].
  cbn [forallb] in Hkids. apply andb_true_iff in Hkids as [Hk' Hkids].
  cbn [flat_map]. now rewrite Hk, IHk.
Qed.

Lemma remove_script_free_id (d : document) :
  forallb script_free d = true -> remove script_style_noscript d = d.
Proof.
  unfold remove. induction d as [|n d IH]; [reflexivity|].
  cbn [forallb flat_map]. intros H. apply andb_true_iff in H as [Hn Hd].
  now rewrite prune_script_free_id, IH.
Qed.

Lemma remove_scripts_idempotent (d : document) :
  remove script_style_noscript (remove script_style_noscript d)
  = remove script_style_noscript d.
Proof. apply remove_script_free_id, remove_script_free. Qed.

(** ** createFieldExtractor and the shared document *)

Lemma select_tag_script_free (t : string) (d : document) :
  In t ["script"; "style"; "noscript"] ->
  forallb script_free d = true -> select (tags [t]) d = [].
Proof.
  intros Ht Hfree. pose proof (select_script_free (tags [t]) d Hfree) as H.
  destruct (select (tags [t]) d) as [|x l] eqn:E; [reflexivity|].
  assert (Hin : In x (select (tags [t]) d)) by (rewrite E; now left).
  apply filter_In in Hin as [_ Hm].
  inversion H as [|? ? (_ & Hx & _) _]; subst.
  unfold loc_matches in Hm. rewrite matches_tags in Hm.
  destruct (l_node x) as [u|u a kids]; [discriminate Hm|].
  cbn [is_elem tag_of existsb andb] in Hm. rewrite orb_false_r in Hm.
  apply str_eqb_eq in Hm. subst u.
  cbn [is_script_like existsb] in Hx.
  destruct Ht as [<-|[<-|[<-|[]]]]; vm_compute in Hx; discriminate Hx.
Qed.

Lemma off_scripts_tag (x : loc) :
  off_scripts x ->
  ~ In (tag_of (l_node x)) [js "script"; js "style"; js "noscript"]
  /\ Forall (fun a => ~ In (tag_of a) [js "script"; js "style"; js "noscript"]) (l_anc x).
Proof.
  assert (Htag : forall n, is_script_like n = false ->
                           ~ In (tag_of n) [js "script"; js "style"; js "noscript"]).
  { intros [u|u a kids] Hn Hin.
    - cbn in Hin. destruct Hin as [H|[H|[H|[]]]]; discriminate H.
    - cbn [is_script_like] in Hn. cbn [tag_of] in Hin.
      assert (Hex : existsb (str_eqb u) [js "script"; js "style"; js "noscript"] = true).
      { apply existsb_exists. exists u. split; [assumption|now apply str_eqb_eq]. }
      congruence. }
  intros (_ & Hn & Hanc). split; [now apply Htag|].
  eapply List.Forall_impl; [|exact Hanc]. intros a Ha. now apply Htag.
Qed.

(** C10. [createFieldExtractor] changes the document it is given: every
    script, style and noscript element is removed from it, with all that is
    below.  The handler goes on with that same document.  So a selection made
    afterwards for one of the three tags is empty; whatever is selected by
    any selector is none of these elements, lies in none of them and contains
    none of them; and the text of the document is the text outside of them.
    On a page with a script, a style sheet and a noscript block, what is left
    is the page without the three. *)
Theorem createFieldExtractor_removes_scripts_in_place :
  forall (now : jsstr) (request : Request) (w : World),
    let d' := fst (createFieldExtractor (page w)) in
    d' = remove script_style_noscript (page w)
    /\ select script_style_noscript d' = []
    /\ (forall t : string, In t ["script"; "style"; "noscript"] -> select (tags [t]) d' = [])
    /\ (forall sel : selector, Forall off_scripts (select sel d'))
    /\ (forall (sel : selector) (x : loc),
          In x (select sel d') ->
          ~ In (tag_of (l_node x)) [js "script"; js "style"; js "noscript"]
          /\ Forall (fun a => ~ In (tag_of a) [js "script"; js "style"; js "noscript"])
               (l_anc x))
    /\ document_text d' = concat (map text_outside_scripts (page w))
    /\ page (jobDetailHandler now request w) = d'
    /\ jobDetailHandler now request w
       = pushData (build_job now request (snd (createFieldExtractor (page w))) d')
           (set_page d' w)
    /\ fst (createFieldExtractor
              [ Samples.el "html" []
                  [ Samples.el "head" []
                      [ Samples.el "style" [] [Samples.txt "h1 { color: red }"];
                        Samples.el "title" [] [Samples.txt "Ramp Agent"] ];
                    Samples.el "body" []
                      [ Samples.el "script" [] [Samples.txt "var twigConfig = 1;"];
                        Samples.el "h1" [] [Samples.txt "Ramp Agent"];
                        Samples.el "noscript" []
                          [Samples.el "p" [] [Samples.txt "Please enable JavaScript"]] ] ] ])
       = [ Samples.el "html" []
             [ Samples.el "head" [] [Samples.el "title" [] [Samples.txt "Ramp Agent"]];
               Samples.el "body" [] [Samples.el "h1" [] [Samples.txt "Ramp Agent"]] ] ].
Proof.
  intros now request w. cbn zeta. cbn [createFieldExtractor fst snd].
  pose proof (remove_script_free (page w)) as Hfree.
  split; [reflexivity|]. split; [now apply select_scripts_script_free|].
  split; [intros t Ht; now apply select_tag_script_free|].
  split; [intros sel; now apply select_script_free|].
  split.
  { intros sel x Hx. apply off_scripts_tag.
    pose proof (select_script_free sel _ Hfree) as Hall.
    rewrite List.Forall_forall in Hall. now apply Hall. }
  split; [apply text_of_removed|].
  split; [reflexivity|]. split; reflexivity.
Qed.

Lemma createFieldExtractor_removes_scripts_in_place_witness :
  let d := [ Samples.el "body" []
               [ Samples.el "script" [] [Samples.txt "var twigConfig = 1;"];
                 Samples.el "h1" [] [Samples.txt "Ramp Agent"] ] ] in
  select (tags ["script"]) d <> []
  /\ select (tags ["script"]) (fst (createFieldExtractor d)) = [].
Proof.
  cbn zeta. split; [vm_compute; discriminate|].
  apply (proj1 (proj2 (proj2
           (createFieldExtractor_removes_scripts_in_place Samples.clock
              (Samples.detail_request "https://acme.avature.net/careers/JobDetail/Ramp-Agent/7"
                 no_userData)
              (Samples.empty_world
                 [ Samples.el "body" []
                     [ Samples.el "script" [] [Samples.txt "var twigConfig = 1;"];
                       Samples.el "h1" [] [Samples.txt "Ramp Agent"] ] ])))) "script").
  left. reflexivity.
Defined.

(** The removal can be seen: an apply link that sits in a noscript element
    is found on the page as it was fetched, and is no longer there for the
    handler. *)
Example noscript_link_is_lost :
  let d := Samples.html_page []
             [ Samples.el "noscript" []
                 [Samples.el "a" [("href", "/careers/ApplicationMethods/7")]
                    [Samples.txt "Apply"]];
               Samples.el "main" [] [Samples.txt "Ramp Agent"] ] in
  let request := Samples.detail_request "https://acme.avature.net/careers/JobDetail/Ramp-Agent/7"
                   no_userData in
  find_applyUrl d (request_url request)
    = Some (js "https://acme.avature.net/careers/ApplicationMethods/7")
  /\ map applyUrl (dataset (jobDetailHandler Samples.clock request (Samples.empty_world d)))
     = [None].
Proof. vm_compute. split; reflexivity. Qed.

(** ** The detail handler *)

(** C8. One run of the detail handler adds exactly one record to the
    dataset; it hands no request to the queue and writes no error sample. *)
Theorem jobDetailHandler_emits_one_record :
  forall (now : jsstr) (request : Request) (w : World),
    let w' := jobDetailHandler now request w in
    requests w' = requests w
    /\ errorSamples w' = errorSamples w
    /\ (exists job : ExtractedJob, dataset w' = dataset w ++ [job])
    /\ List.length (dataset w') = S (List.length (dataset w)).
Proof.
  intros now request w. cbn zeta. unfold jobDetailHandler.
  cbn [createFieldExtractor pushData set_page requests errorSamples dataset page].
  repeat split.
  - eexists. reflexivity.
  - rewrite length_app. cbn. lia.
Qed.

(** ** The listing handler *)

Lemma job_link_step_card (baseUrl : jsstr) (seen : gset jsstr) (links : list Source)
    (article : loc) :
  job_link_step baseUrl (seen, links) article
  = match card_url baseUrl article with
    | None => (seen, links)
    | Some u =>
        if decide (u ∈ seen) then (seen, links)
        else ({[u]} ∪ seen,
              links ++
                [{| q_url := u; q_label := Some JOB_DETAIL;
                    q_userData :=
                      {| ud_title := Some (trim (text (first (find card_title article))));
                         ud_subtitles := Some (card_subtitles article) |} |}])
    end.
Proof.
  unfold job_link_step, card_url.
  destruct (attr "href" (find card_link article)) as [href|]; [|reflexivity].
  destruct (truthy (Some href)); reflexivity.
Qed.

Lemma links_invariant_start : links_invariant ∅ [].
Proof.
  split.
  - intros u. cbn. split; [|tauto]. intros H. now apply not_elem_of_empty in H.
  - constructor.
  - constructor.
Qed.

Lemma job_link_step_invariant (baseUrl : jsstr) (seen : gset jsstr) (links : list Source)
    (article : loc) :
  links_invariant seen links ->
  let '(seen', links') := job_link_step baseUrl (seen, links) article in
  links_invariant seen' links'
  /\ (forall u, In u (map q_url links') <->
                In u (map q_url links) \/ card_url baseUrl article = Some u).
Proof.
  intros [Hseen Hnodup Hdetail]. rewrite job_link_step_card.
  destruct (card_url baseUrl article) as [u|] eqn:Hcard.
  - destruct (decide (u ∈ seen)) as [Hin|Hnot].
    + split; [now split|]. intros v. split; [tauto|].
      intros [Hv|Hv]; [assumption|]. injection Hv as <-. now apply Hseen.
    + split; [split|].
      * intros v. rewrite map_app, in_app_iff, elem_of_union, elem_of_singleton, Hseen.
        cbn. intuition congruence.
      * rewrite map_app. cbn. apply List.NoDup_app; [assumption|repeat constructor; tauto|].
        intros v Hv [<-|[]]. apply Hnot. now apply Hseen.
      * apply Forall_app. split; [assumption|]. now repeat constructor.
      * intros v. rewrite map_app, in_app_iff. cbn. intuition congruence.
  - split; [now split|]. intros v. split; [tauto|]. intros [H|H]; [assumption|discriminate].
Qed.

Lemma job_links_fold (baseUrl : jsstr) (cards : list loc) :
  forall (seen : gset jsstr) (links : list Source),
    links_invariant seen links ->
    let '(seen', links') := fold_left (job_link_step baseUrl) cards (seen, links) in
    links_invariant seen' links'
    /\ (forall u, In u (map q_url links') <->
                  In u (map q_url links)
                  \/ exists article, In article cards /\ card_url baseUrl article = Some u).
Proof.
  induction cards as [|article cards IH]; intros seen links Hinv.
  - cbn. split; [assumption|]. intros u. split; [tauto|].
    intros [H|(a & [] & _)]. assumption.
  - cbn [fold_left].
    pose proof (job_link_step_invariant baseUrl seen links article Hinv) as Hstep.
    destruct (job_link_step baseUrl (seen, links) article) as [seen1 links1].
    destruct Hstep as [Hinv1 Hurls1].
    specialize (IH seen1 links1 Hinv1).
    destruct (fold_left (job_link_step baseUrl) cards (seen1, links1)) as [seen2 links2].
    destruct IH as [Hinv2 Hurls2]. split; [assumption|].
    intros u. rewrite Hurls2, Hurls1. split.
    + intros [[H|H]|(a & Ha & Hu)]; [now left| |].
      * right. exists article. split; [now left|assumption].
      * right. exists a. split; [now right|assumption].
    + intros [H|(a & [<-|Ha] & Hu)]; [now left; left|now left; right|].
      right. now exists a.
Qed.

Lemma in_card_urls (baseUrl : jsstr) (d : document) (u : jsstr) :
  In u (card_urls baseUrl d) <->
  exists article, In article (select job_cards d) /\ card_url baseUrl article = Some u.
Proof.
  unfold card_urls. rewrite in_flat_map. split.
  - intros (a & Ha & Hu). exists a. split; [assumption|].
    destruct (card_url baseUrl a) as [v|]; [|destruct Hu].
    destruct Hu as [<-|[]]. reflexivity.
  - intros (a & Ha & Hu). exists a. split; [assumption|]. rewrite Hu. now left.
Qed.

Lemma collect_job_links_spec (baseUrl : jsstr) (d : document) :
  let links := collect_job_links baseUrl d in
  Forall (fun s => q_label s = Some JOB_DETAIL) links
  /\ List.NoDup (map q_url links)
  /\ (forall u, In u (map q_url links) <-> In u (card_urls baseUrl d)).
Proof.
  cbn zeta. unfold collect_job_links.
  pose proof (job_links_fold baseUrl (select job_cards d) ∅ [] links_invariant_start) as H.
  destruct (fold_left (job_link_step baseUrl) (select job_cards d) (∅, [])) as [seen links].
  destruct H as [[_ Hnodup Hdetail] Hurls]. cbn [snd].
  repeat split; try assumption.
  - intros Hu. apply in_card_urls. apply Hurls in Hu as [[]|Hu]. assumption.
  - intros Hu. apply Hurls. right. now apply in_card_urls.
Qed.

Lemma length_is_number_of_distinct (l l' : list jsstr) :
  List.NoDup l -> (forall u, In u l <-> In u l') ->
  List.length l = size (list_to_set l' : gset jsstr).
Proof.
  intros Hnodup Hsame.
  assert (Heq : (list_to_set l' : gset jsstr) = list_to_set l).
  { apply set_eq. intros u. rewrite !elem_of_list_to_set, !list_elem_of_In.
    symmetry. apply Hsame. }
  rewrite Heq. symmetry. apply size_list_to_set. now apply NoDup_ListNoDup.
Qed.

(** C7. The listing handler hands the queue one detail task for each
    distinct absolute job URL among the cards of the page: the URLs of the
    detail tasks are pairwise different, they are exactly the URLs of the
    cards, and their number is the number of distinct card URLs.  The other
    requests it adds are listing tasks for pagination.  A page without job
    links gives no detail task, and the handler never records an error.
    With three different cards and a repeat of one of them, three detail
    tasks are added; a page without jobs goes through the request handler
    without an error sample and without a task. *)
Theorem listingHandler_one_detail_task_per_url :
  (forall (request : Request) (w : World),
     let baseUrl := getBaseUrl (request_url request) in
     let w' := listingHandler request w in
     exists detail pagination : list Source,
       requests w' = requests w ++ detail ++ pagination
       /\ Forall (fun s => q_label s = Some JOB_DETAIL) detail
       /\ Forall (fun s => q_label s = Some LISTING) pagination
       /\ List.NoDup (map q_url detail)
       /\ (forall u, In u (map q_url detail) <-> In u (card_urls baseUrl (page w)))
       /\ List.length detail = size (list_to_set (card_urls baseUrl (page w)) : gset jsstr)
       /\ (card_urls baseUrl (page w) = [] -> detail = [])
       /\ dataset w' = dataset w
       /\ errorSamples w' = errorSamples w
       /\ page w' = page w)
  /\ (let request := Samples.listing_request "https://acme.avature.net/careers/SearchJobs" in
      let w' := listingHandler request (Samples.empty_world Samples.listing_with_duplicate) in
      map (fun s => (q_url s, q_label s)) (requests w')
      = [ (js "https://acme.avature.net/careers/JobDetail/Data-Engineer/101", Some JOB_DETAIL);
          (js "https://acme.avature.net/careers/JobDetail/Staff-Nurse/102", Some JOB_DETAIL);
          (js "https://acme.avature.net/careers/JobDetail/Ramp-Agent/103", Some JOB_DETAIL) ])
  /\ (let request := Samples.listing_request "https://acme.avature.net/careers/SearchJobs" in
      let ctx := {| c_request := request; c_statusCode := Some 200;
                    c_body := js "<html><head><title>Search jobs</title></head></html>" |} in
      let w' := requestHandler {| saveErrorSamples := true |} Samples.clock ctx
                  (Samples.empty_world Samples.listing_without_jobs) in
      requests w' = [] /\ errorSamples w' = [] /\ dataset w' = []).
Proof.
  split; [|split; [vm_compute; reflexivity|vm_compute; repeat split]].
  intros request w. cbn zeta. unfold listingHandler.
  set (baseUrl := getBaseUrl (request_url request)).
  pose proof (collect_job_links_spec baseUrl (page w)) as (Hdetail & Hnodup & Hurls).
  set (jobLinks := collect_job_links baseUrl (page w)) in *.
  set (pag := collect_pagination baseUrl (page w)).
  exists jobLinks,
    (map (fun u => {| q_url := u; q_label := Some LISTING; q_userData := no_userData |}) pag).
  assert (Hw1 : forall w1,
            w1 = match jobLinks with [] => w | _ :: _ => addRequests jobLinks w end ->
            requests w1 = requests w ++ jobLinks /\ dataset w1 = dataset w
            /\ errorSamples w1 = errorSamples w /\ page w1 = page w).
  { intros w1 ->. destruct jobLinks; cbn; [now rewrite app_nil_r|tauto]. }
  specialize (Hw1 _ eq_refl). destruct Hw1 as (Hreq & Hdata & Hsamples & Hpage).
  repeat split; try assumption.
  - destruct pag; cbn [map]; [now rewrite app_nil_r|].
    unfold enqueueLinks. cbn [addRequests requests map]. now rewrite Hreq, <- app_assoc.
  - apply List.Forall_forall. intros s Hs. apply in_map_iff in Hs as (u & <- & _). reflexivity.
  - apply Hurls.
  - apply Hurls.
  - rewrite <- (length_map q_url). now apply length_is_number_of_distinct.
  - intros Hnone. destruct jobLinks as [|s l]; [reflexivity|].
    assert (Hin : In (q_url s) (card_urls baseUrl (page w))) by (apply Hurls; now left).
    rewrite Hnone in Hin. destruct Hin.
  - destruct pag; [assumption|]. exact Hdata.
  - destruct pag; [assumption|]. exact Hsamples.
  - destruct pag; [assumption|]. exact Hpage.
Qed.

(** The theorem at the page with the repeated card. *)
Lemma listingHandler_one_detail_task_per_url_witness :
  (exists detail pagination : list Source,
     requests (listingHandler
                 (Samples.listing_request "https://acme.avature.net/careers/SearchJobs")
                 (Samples.empty_world Samples.listing_with_duplicate))
     = [] ++ detail ++ pagination
     /\ List.length detail = 3%nat)
  /\ (exists pagination : list Source,
        requests (listingHandler
                    (Samples.listing_request "https://acme.avature.net/careers/SearchJobs")
                    (Samples.empty_world Samples.listing_without_jobs))
        = [] ++ [] ++ pagination).
Proof.
  split.
  - destruct (proj1 listingHandler_one_detail_task_per_url
                (Samples.listing_request "https://acme.avature.net/careers/SearchJobs")
                (Samples.empty_world Samples.listing_with_duplicate))
      as (detail & pagination & Hreq & _ & _ & _ & _ & Hlen & _).
    exists detail, pagination. split; [exact Hreq|].
    rewrite Hlen. vm_compute. reflexivity.
  - destruct (proj1 listingHandler_one_detail_task_per_url
                (Samples.listing_request "https://acme.avature.net/careers/SearchJobs")
                (Samples.empty_world Samples.listing_without_jobs))
      as (detail & pagination & Hreq & _ & _ & _ & _ & _ & Hnone & _).
    exists pagination. rewrite Hreq, (Hnone ltac:(vm_compute; reflexivity)). reflexivity.
Defined.

(** ** The request handler: status and content checks *)

Lemma first_pattern_app (a b : list (regex * ErrorType)) (t : jsstr) :
  first_pattern (a ++ b) t
  = match first_pattern a t with
    | Some x => Some x
    | None => first_pattern b t
    end.
Proof.
  induction a as [|[r ty] a IH]; [reflexivity|].
  cbn [app first_pattern]. now destruct (test r t).
Qed.

Lemma first_pattern_some (rows : list (regex * ErrorType)) (t : jsstr) (ty : ErrorType) :
  first_pattern rows t = Some ty ->
  exists r, In (r, ty) rows /\ test r t = true.
Proof.
  induction rows as [|[r ty'] rows IH]; [discriminate|].
  cbn [first_pattern]. destruct (test r t) eqn:E.
  - intros [= ->]. exists r. split; [now left|assumption].
  - intros H. destruct (IH H) as (r' & Hin & Ht). exists r'. split; [now right|assumption].
Qed.

Lemma first_pattern_same_type (rows : list (regex * ErrorType)) (t : jsstr) (ty : ErrorType) :
  Forall (fun row => snd row = ty) rows ->
  existsb (fun row => test (fst row) t) rows = true ->
  first_pattern rows t = Some ty.
Proof.
  induction 1 as [|[r ty'] rows Hrow _ IH]; [discriminate|].
  cbn [existsb first_pattern fst]. cbn in Hrow. subst ty'.
  destruct (test r t); [reflexivity|]. exact IH.
Qed.

Lemma first_pattern_none (rows : list (regex * ErrorType)) (t : jsstr) :
  first_pattern rows t = None -> existsb (fun row => test (fst row) t) rows = false.
Proof.
  induction rows as [|[r ty] rows IH]; [reflexivity|].
  cbn [existsb first_pattern fst]. destruct (test r t); [discriminate|]. exact IH.
Qed.

Lemma error_table_split :
  ERROR_PAGE_PATTERNS = rows_before_auth ++ auth_rows ++ rows_after_auth.
Proof. reflexivity. Qed.

(** Which texts are classified as asking for a login. *)
Lemma auth_required_iff (t : jsstr) :
  first_pattern ERROR_PAGE_PATTERNS t = Some AUTH_REQUIRED
  <-> first_pattern rows_before_auth t = None
      /\ existsb (fun row => test (fst row) t) auth_rows = true.
Proof.
  rewrite error_table_split, !first_pattern_app. split.
  - destruct (first_pattern rows_before_auth t) as [ty|] eqn:E1.
    + intros [= ->]. apply first_pattern_some in E1 as (r & Hin & _).
      exfalso. cbn in Hin.
      repeat (destruct Hin as [Hin|Hin]; [discriminate Hin|]). destruct Hin.
    + intros H. split; [reflexivity|].
      destruct (first_pattern auth_rows t) as [ty|] eqn:E2.
      * apply first_pattern_some in E2 as (r & Hin & Ht).
        apply existsb_exists. exists (r, ty). split; assumption.
      * apply first_pattern_some in H as (r & Hin & _).
        exfalso. cbn in Hin.
        repeat (destruct Hin as [Hin|Hin]; [discriminate Hin|]). destruct Hin.
  - intros [-> Hauth].
    rewrite (first_pattern_same_type auth_rows t AUTH_REQUIRED); [reflexivity| |assumption].
    unfold auth_rows. cbn [firstn skipn ERROR_PAGE_PATTERNS]. repeat constructor.
Qed.

(** A page found in error is not routed: nothing but the samples changes. *)
Lemma requestHandler_status_error (cfg : Config) (now : jsstr) (ctx : Context) (w : World) :
  400 <= default 200 (c_statusCode ctx) ->
  let statusCode := default 200 (c_statusCode ctx) in
  let w' := requestHandler cfg now ctx w in
  dataset w' = dataset w /\ requests w' = requests w /\ page w' = page w
  /\ errorSamples w'
     = samples_after cfg w
         (sample_of now ctx (status_errorType statusCode)
            (js "HTTP " ++ decimal statusCode ++ js " error")).
Proof.
  intros Hge. cbn zeta. unfold requestHandler, samples_after, sample_of.
  apply N.leb_le in Hge. rewrite Hge.
  destruct (saveErrorSamples cfg); cbn; repeat split.
Qed.

Lemma requestHandler_content_error (cfg : Config) (now : jsstr) (ctx : Context) (w : World)
    (type : ErrorType) (message : jsstr) :
  default 200 (c_statusCode ctx) < 400 ->
  detectErrorInContent (c_body ctx) (Some (page w)) = Some (type, message) ->
  let w' := requestHandler cfg now ctx w in
  dataset w' = dataset w /\ requests w' = requests w /\ page w' = page w
  /\ errorSamples w' = samples_after cfg w (sample_of now ctx type message).
Proof.
  intros Hlt Hdetect. cbn zeta. unfold requestHandler, samples_after, sample_of.
  apply N.leb_gt in Hlt. rewrite Hlt, Hdetect.
  destruct (saveErrorSamples cfg); cbn; repeat split.
Qed.

(** C6, as stated, fails when error samples are switched off: a page answered
    with status 404 then leaves no sample at all. *)
Lemma not_found_leaves_no_sample_when_samples_are_off :
  let cfg := {| saveErrorSamples := false |} in
  let ctx := Samples.detail_context 404 (js "<html><body>Not here</body></html>") in
  let w := Samples.empty_world (Samples.html_page [] [Samples.txt "Not here"]) in
  let w' := requestHandler cfg Samples.clock ctx w in
  c_statusCode ctx = Some 404
  /\ errorSamples w' = []
  /\ ~ (exists e, errorSamples w' = errorSamples w ++ [e] /\ e_errorType e = PAGE_NOT_FOUND).
Proof.
  cbn zeta. split; [reflexivity|]. split; [reflexivity|].
  intros (e & He & _). vm_compute in He. discriminate He.
Qed.

(** C6 (amended). A response with status 404 is classified by the status
    alone, as PAGE_NOT_FOUND, whatever the page holds: the page is not
    routed, so no record is emitted, no task is enqueued and the document is
    left as it is.  When error samples are kept (the default) exactly one
    sample of kind PAGE_NOT_FOUND is written; when they are switched off,
    none is. *)
Theorem status_404_is_not_found :
  forall (cfg : Config) (now : jsstr) (ctx : Context) (w : World),
    c_statusCode ctx = Some 404 ->
    let w' := requestHandler cfg now ctx w in
    dataset w' = dataset w
    /\ requests w' = requests w
    /\ page w' = page w
    /\ errorSamples w'
       = (if saveErrorSamples cfg
          then errorSamples w ++
                 [{| e_url := request_url (c_request ctx);
                     e_errorType := PAGE_NOT_FOUND;
                     e_errorMessage := js "HTTP 404 error";
                     e_statusCode := Some 404;
                     e_html := c_body ctx;
                     e_capturedAt := now |}]
          else errorSamples w).
Proof.
  intros cfg now ctx w Hstatus.
  pose proof (requestHandler_status_error cfg now ctx w) as H.
  rewrite Hstatus in H. cbn [default] in H.
  specialize (H ltac:(discriminate)). cbn zeta in H.
  destruct H as (Hd & Hr & Hp & Hs). cbn zeta. repeat split; try assumption.
  rewrite Hs. unfold samples_after, sample_of. rewrite Hstatus. reflexivity.
Qed.

Lemma status_404_is_not_found_witness :
  let ctx := Samples.detail_context 404 (js "<html><body>Not here</body></html>") in
  let w := Samples.empty_world (Samples.html_page [] [Samples.txt "Not here"]) in
  let w' := requestHandler {| saveErrorSamples := true |} Samples.clock ctx w in
  dataset w' = [] /\ requests w' = []
  /\ map e_errorType (errorSamples w') = [PAGE_NOT_FOUND].
Proof.
  cbn zeta.
  destruct (status_404_is_not_found {| saveErrorSamples := true |} Samples.clock
              (Samples.detail_context 404 (js "<html><body>Not here</body></html>"))
              (Samples.empty_world (Samples.html_page [] [Samples.txt "Not here"]))
              eq_refl) as (Hd & Hr & _ & Hs).
  split; [exact Hd|]. split; [exact Hr|]. rewrite Hs. reflexivity.
Defined.

(** C5. The claim does not hold of the code: "Please sign in to continue"
    matches no row of the error table, so a page with status 200 and that
    text is found free of errors and routed to its handler, which emits a
    record; no sample is written.  A page that says "Sign in required",
    "Login required" or "Authentication required" is taken for a page that
    asks for a login: one sample of kind AUTH_REQUIRED, no record and no
    task. *)
Theorem please_sign_in_is_not_detected :
  let cfg := {| saveErrorSamples := true |} in
  let ctx := Samples.detail_context 200 Samples.sign_in_html in
  let w := Samples.empty_world Samples.sign_in_page in
  let w' := requestHandler cfg Samples.clock ctx w in
  let told (phrase : string) :=
    detectErrorInContent
      (js "<html><head><title>Careers</title></head><body><p>" ++ js phrase
         ++ js "</p></body></html>")
      (Some (Samples.html_page [Samples.el "title" [] [Samples.txt "Careers"]]
               [Samples.el "p" [] [Samples.txt phrase]])) in
  (c_statusCode ctx = Some 200
   /\ includes (js "Please sign in to continue") (c_body ctx) = true
   /\ includes (js "Please sign in to continue")
        (text (select (tags ["body"]) (page w))) = true)
  /\ detectErrorInContent (c_body ctx) (Some (page w)) = None
  /\ told "Please sign in to continue" = None
  /\ (errorSamples w' = []
      /\ requests w' = []
      /\ map title (dataset w') = [Some (js "Ramp Agent")])
  /\ (told "Sign in required" = Some (AUTH_REQUIRED, js "Detected error pattern: AUTH_REQUIRED")
      /\ told "Login required" = Some (AUTH_REQUIRED, js "Detected error pattern: AUTH_REQUIRED")
      /\ told "Authentication required"
         = Some (AUTH_REQUIRED, js "Detected error pattern: AUTH_REQUIRED"))
  /\ (let ctx := Samples.detail_context 200 Samples.sign_in_required_html in
      let w := Samples.empty_world Samples.sign_in_required_page in
      let w' := requestHandler cfg Samples.clock ctx w in
      map e_errorType (errorSamples w') = [AUTH_REQUIRED]
      /\ dataset w' = [] /\ requests w' = []).
Proof. vm_compute. repeat split. Qed.

(** ** The title cascade *)

Lemma company_name_is_no_heading (text : jsstr) :
  isCompanyName text = true -> heading_ok text = false.
Proof. intros H. unfold heading_ok. rewrite H. now rewrite !andb_false_r. Qed.

Lemma heading_ok_not_company (text : jsstr) :
  heading_ok text = true -> isCompanyName text = false.
Proof.
  intros H. destruct (isCompanyName text) eqn:E; [|reflexivity].
  rewrite (company_name_is_no_heading text E) in H. discriminate H.
Qed.

Lemma first_some_in {A B : Type} (f : A -> option B) (l : list A) (y : B) :
  first_some f l = Some y -> exists x, In x l /\ f x = Some y.
Proof.
  induction l as [|x l IH]; [discriminate|].
  cbn [first_some]. destruct (f x) as [y'|] eqn:E.
  - intros [= ->]. exists x. split; [now left|assumption].
  - intros H. destruct (IH H) as (x' & Hin & Hx'). exists x'. split; [now right|assumption].
Qed.

Lemma first_some_skip {A B : Type} (f : A -> option B) (x : A) (l : list A) :
  f x = None -> first_some f (x :: l) = first_some f l.
Proof. intros H. cbn [first_some]. now rewrite H. Qed.

Lemma selector_candidate_not_company (d : document) (sel : selector) (t : jsstr) :
  selector_candidate d sel = Some t -> isCompanyName t = false.
Proof.
  unfold selector_candidate. destruct (select sel d) as [|el l]; [discriminate|].
  destruct (heading_ok (trim (text_of (l_node el)))) eqn:E; [|discriminate].
  intros [= <-]. now apply heading_ok_not_company.
Qed.

Lemma h1_candidate_not_company (el : loc) (t : jsstr) :
  h1_candidate el = Some t -> isCompanyName t = false.
Proof.
  unfold h1_candidate.
  destruct (hasClass "visibility--hidden--visually" (l_node el) || hasClass "sr-only" (l_node el));
    [discriminate|].
  destruct (heading_ok (trim (text_of (l_node el)))) eqn:E; [|discriminate].
  intros [= <-]. now apply heading_ok_not_company.
Qed.

(** C4. The claim does not hold of the code: of the six strategies of
    [getJobTitle] only the two that read headings look at the names of the
    companies.  "Bloomberg", "UCLA Health" and "Avature" are such names, in
    any case; yet a page whose og:title is "Bloomberg" gets the title
    "Bloomberg", and so does a page whose page title is
    "Bloomberg - 12345 - Careers"; a page whose first field value is
    "UCLA Health" gets that title, and a URL whose slug is "Avature" gives
    the title "Avature".  The same name in a heading is rejected: on a page
    whose first heading is "Bloomberg", or "BLOOMBERG", the title is the next
    heading. *)
Theorem getJobTitle_returns_company_names_unchecked :
  let url := js "https://bloomberg.avature.net/careers/JobDetail/Senior-Software-Engineer/12345" in
  (isCompanyName (js "Bloomberg") = true
   /\ isCompanyName (js "UCLA Health") = true
   /\ isCompanyName (js "avature") = true
   /\ isCompanyName (js " UNIFI ") = true
   /\ isCompanyName (js "Senior Software Engineer") = false)
  /\ getJobTitle Samples.branded_page url = Some (js "Bloomberg")
  /\ getJobTitle Samples.branded_title_page url = Some (js "Bloomberg")
  /\ getJobTitle Samples.branded_field_page url = Some (js "UCLA Health")
  /\ getJobTitle Samples.untitled_page
       (js "https://avature.avature.net/careers/JobDetail/Avature/7")
     = Some (js "Avature")
  /\ getJobTitle Samples.branded_heading_page url = Some (js "Senior Software Engineer")
  /\ getJobTitle
       (Samples.html_page []
          [ Samples.el "main" [] [Samples.el "h1" [] [Samples.txt "BLOOMBERG"]];
            Samples.el "article" [] [Samples.el "h1" [] [Samples.txt "Data Engineer"]] ])
       url
     = Some (js "Data Engineer").
Proof. vm_compute. repeat split. Qed.

(** ** Hints of the listing card *)

(** C1, as stated, fails for the reference number.  The hint is lowered and
    its "ref #" prefixes are cut before it is used: "REQ-2024-001" is emitted
    as "req-2024-001"; "Ref #101" on the page of job 101 is emitted as null;
    and for the hint "Ref #" nothing is left, so the value found on the page
    is emitted. *)
Lemma reference_hint_is_not_emitted_as_given :
  let emitted (ref : string) :=
    map refNumber
      (dataset (jobDetailHandler Samples.clock
                  (Samples.detail_request
                     "https://acme.avature.net/careers/JobDetail/Data-Engineer/101"
                     (Samples.card_hints ref))
                  (Samples.empty_world Samples.labelled_page))) in
  emitted "REQ-2024-001" = [Some (js "req-2024-001")]
  /\ emitted "Ref #101" = [None]
  /\ emitted "Ref #" = [Some (js "55501")]
  /\ getFieldByLabels Samples.labelled_page ["ref #"] = Some (js "55501").
Proof. vm_compute. repeat split. Qed.

(** The reference is lowered in every script, not in the letters of ASCII
    only: a capital E with an acute accent (201) is emitted as the small one
    (233), Cyrillic capitals as small letters, and a Greek capital sigma (931)
    at the end of a word as the final sigma (962). *)
Example reference_hint_is_lowered_in_every_script :
  let emitted (ref : jsstr) :=
    map refNumber
      (dataset (jobDetailHandler Samples.clock
                  (Samples.detail_request
                     "https://acme.avature.net/careers/JobDetail/Data-Engineer/101"
                     (Samples.card_hints_of ref))
                  (Samples.empty_world Samples.labelled_page))) in
  emitted [82; 201; 70; 45; 55] = [Some [114; 233; 102; 45; 55]]
  /\ emitted [927; 916; 927; 931; 45; 55] = [Some [959; 948; 959; 962; 45; 55]]
  /\ emitted [1056; 1045; 1060; 45; 55] = [Some [1088; 1077; 1092; 45; 55]].
Proof. vm_compute. repeat split. Qed.

Lemma or_else_hint (a b : option jsstr) : truthy a = true -> or_else a b = a.
Proof. intros H. unfold or_else. now rewrite H. Qed.

Lemma or_else_no_hint (a b : option jsstr) : truthy a = false -> or_else a b = b.
Proof. intros H. unfold or_else. now rewrite H. Qed.

(** C1 (amended). A non-empty hint of the listing card is emitted as the
    value of its field, whatever the detail page holds, for the title and for
    the subtitle keys location (then locationBuiltIn), workingTime
    (employment type), contractType (duration), department and legalEntity
    (entity).  The hint for the reference number is first put in lower case
    and stripped of its "ref #" prefixes; if something is left, that text is
    the reference number, but null is emitted when it equals the job id.
    Lower case is that of JavaScript: in a hint of ASCII text the capital
    letters A to Z are replaced by the small ones and nothing else changes,
    and letters outside ASCII are lowered as well, a capital E with an acute
    accent (201) to the small one (233). *)
Theorem hints_win_over_the_page :
  (forall (now : jsstr) (request : Request) (w : World),
   exists job : ExtractedJob,
     dataset (jobDetailHandler now request w) = dataset w ++ [job]
     /\ (truthy (ud_title (r_userData request)) = true ->
         title job = ud_title (r_userData request))
     /\ (truthy (subtitle request "location") = true ->
         location job = subtitle request "location")
     /\ (truthy (subtitle request "location") = false ->
         truthy (subtitle request "locationBuiltIn") = true ->
         location job = subtitle request "locationBuiltIn")
     /\ (truthy (subtitle request "workingTime") = true ->
         employmentType job = subtitle request "workingTime")
     /\ (truthy (subtitle request "contractType") = true ->
         duration job = subtitle request "contractType")
     /\ (truthy (subtitle request "department") = true ->
         department job = subtitle request "department")
     /\ (truthy (subtitle request "legalEntity") = true ->
         entity job = subtitle request "legalEntity")
     /\ (truthy (ref_hint request) = true ->
         refNumber job
         = if decide (ref_hint request = jobId job) then None else ref_hint request))
  /\ (forall (request : Request) (r : jsstr),
        subtitle request "ref" = Some r ->
        forallb (fun c => c <? 128) r = true ->
        ref_hint request
        = Some (replace_all ref_prefix_re []
                  (map (fun c => if is_upper c then c + 32 else c) r)))
  /\ (let emitted (ref : jsstr) :=
        map refNumber
          (dataset (jobDetailHandler Samples.clock
                      (Samples.detail_request
                         "https://acme.avature.net/careers/JobDetail/Data-Engineer/101"
                         (Samples.card_hints_of ref))
                      (Samples.empty_world Samples.labelled_page))) in
      emitted (js "REQ-2024-001") = [Some (js "req-2024-001")]
      /\ emitted (js "Ref #REQ-7") = [Some (js "req-7")]
      /\ emitted [82; 201; 70; 45; 55] = [Some [114; 233; 102; 45; 55]]).
Proof.
  split; [|split].
  - intros now request w. eexists. split; [reflexivity|].
    cbn [build_job title location employmentType duration department entity refNumber jobId].
    repeat apply conj; intros H; try (now rewrite or_else_hint).
    intros H'. now rewrite (or_else_no_hint _ _ H), or_else_hint.
  - intros request r Href Hascii. unfold ref_hint. rewrite Href. cbn [option_map].
    now rewrite (toLowerCase_ascii r Hascii).
  - vm_compute. repeat split.
Qed.

Lemma hints_win_over_the_page_witness :
  exists job : ExtractedJob,
    dataset (jobDetailHandler Samples.clock
               (Samples.detail_request
                  "https://acme.avature.net/careers/JobDetail/Data-Engineer/101"
                  (Samples.card_hints "REQ-2024-001"))
               (Samples.empty_world Samples.labelled_page)) = [job]
    /\ title job = Some (js "Data Engineer")
    /\ location job = Some (js "London")
    /\ refNumber job = Some (js "req-2024-001").
Proof.
  destruct (proj1 hints_win_over_the_page Samples.clock
              (Samples.detail_request
                 "https://acme.avature.net/careers/JobDetail/Data-Engineer/101"
                 (Samples.card_hints "REQ-2024-001"))
              (Samples.empty_world Samples.labelled_page))
    as (job & Hdata & Htitle & Hloc & _ & _ & _ & _ & _ & Href).
  exists job. split; [exact Hdata|].
  split; [apply Htitle; reflexivity|].
  split; [apply Hloc; vm_compute; reflexivity|].
  etransitivity; [apply Href; vm_compute; reflexivity|].
  vm_compute in Hdata. injection Hdata as <-. vm_compute. reflexivity.
Defined.

(** ** The normalizers *)

(** *** The leftmost match *)

Lemma app_same_length {A : Type} (p p' t t' : list A) :
  p ++ t = p' ++ t' -> List.length p = List.length p' -> p = p' /\ t = t'.
Proof.
  revert p'. induction p as [|x p IH]; intros [|y p'] H Hlen; cbn in *; try lia.
  - now split.
  - injection H as -> H. destruct (IH p' H) as [-> ->]; [lia|now split].
Qed.

Lemma app_shorter {A : Type} (p p' t t' : list A) :
  p ++ t = p' ++ t' -> (List.length p' < List.length p)%nat ->
  exists p2, p = p' ++ p2 /\ p2 <> [] /\ t' = p2 ++ t.
Proof.
  revert p. induction p' as [|y p' IH]; intros [|x p] H Hlen; cbn in *; try lia.
  - exists (x :: p). repeat split; [discriminate|now symmetry].
  - injection H as -> H. destruct (IH p H) as (p2 & -> & Hne & ->); [lia|].
    now exists p2.
Qed.

(** The match [exec] finds is the first one. *)
Lemma parse_mdy_first_exists (s : jsstr) :
  mdy_occurs s ->
  exists p g1 g2 g3 q,
    first_mdy s p g1 g2 g3 q
    /\ parse_mdy s = Some (ymd g3 (padStart2 g1) (padStart2 g2)).
Proof.
  intros Hocc.
  destruct (parse_mdy_some s Hocc) as (p & g1 & g2 & g3 & q & Hshape & Hleft & Hparse).
  exists p, g1, g2, g3, q. split; [|exact Hparse]. split; [exact Hshape|].
  intros p' g1' g2' g3' q' Hshape'.
  destruct (Nat.le_gt_cases (jlen p) (jlen p')) as [Hle|Hlt]; [exact Hle|exfalso].
  destruct Hshape as (Hs & _), Hshape' as (Hs' & Hg').
  rewrite Hs in Hs'.
  destruct (app_shorter _ _ _ _ Hs' Hlt) as (p2 & Hp & Hne & Hrest).
  apply (Hleft p' p2 g1' g2' g3' q' Hp Hne). split; [|exact Hg'].
  now rewrite <- Hrest.
Qed.

Lemma first_mdy_unique (s p g1 g2 g3 q p' g1' g2' g3' q' : jsstr) :
  first_mdy s p g1 g2 g3 q -> first_mdy s p' g1' g2' g3' q' ->
  p = p' /\ g1 = g1' /\ g2 = g2' /\ g3 = g3' /\ q = q'.
Proof.
  intros [Hshape Hfirst] [Hshape' Hfirst'].
  pose proof (Hfirst _ _ _ _ _ Hshape') as H1. pose proof (Hfirst' _ _ _ _ _ Hshape) as H2.
  destruct Hshape as (Hs & Hg), Hshape' as (Hs' & Hg').
  rewrite Hs in Hs'. apply app_same_length in Hs' as [<- Hrest]; [|unfold jlen in *; lia].
  split; [reflexivity|].
  set (t := g1 ++ [47] ++ g2 ++ [47] ++ g3 ++ q) in *.
  assert (Ha : mdy_shape t [] g1' g2' g3' q') by (split; [exact Hrest|exact Hg']).
  assert (Hb : mdy_shape t [] g1 g2 g3 q) by (split; [reflexivity|exact Hg]).
  destruct (mdy_front_unique t g1' g2' g3' q' [] g1 g2 g3 q Ha Hb) as (_ & -> & -> & -> & ->).
  - intros p1 p2 ? ? ? ? Hp Hne. destruct p1, p2; try discriminate Hp. congruence.
  - now repeat split.
Qed.

Lemma parse_mdy_first (s p g1 g2 g3 q : jsstr) :
  first_mdy s p g1 g2 g3 q ->
  parse_mdy s = Some (ymd g3 (padStart2 g1) (padStart2 g2)).
Proof.
  intros Hfirst.
  assert (Hocc : mdy_occurs s) by (destruct Hfirst as [H _]; now exists p, g1, g2, g3, q).
  destruct (parse_mdy_first_exists s Hocc) as (p0 & a & b & c & q0 & Hfirst0 & ->).
  destruct (first_mdy_unique _ _ _ _ _ _ _ _ _ _ _ Hfirst0 Hfirst) as (_ & -> & -> & -> & _).
  reflexivity.
Qed.











(** *** A greedy quantifier takes all it can *)

Lemma rep_chr_greedy {R : Type} (step : jsstr -> caps -> cont R -> option R)
    (p : N -> bool) (lo : nat) (r : jsstr) (c : caps) (k : cont R) (x : R) :
  (forall s c' k', step s c' k'
                   = match s with
                     | [] => None
                     | y :: s' => if p y then k' s' c' else None
                     end) ->
  stops p r -> k r c = Some x ->
  forall w fuel n,
    forallb p w = true -> (lo <= n + jlen w)%nat -> (jlen w < fuel)%nat ->
    rep_loop step true lo None fuel n (w ++ r) c k = Some x.
Proof.
  intros Hstep Hstop Hk. induction w as [|y w IH]; intros fuel n Hw Hlo Hfuel.
  - destruct fuel as [|fuel]; [cbn in Hfuel; lia|]. cbn [app rep_loop].
    cbn in Hlo. assert (En : (n <? lo)%nat = false) by (apply Nat.ltb_ge; lia).
    rewrite En, Hstep.
    destruct r as [|z r]; [exact Hk|]. cbn in Hstop. now rewrite Hstop.
  - destruct fuel as [|fuel]; [lia|]. cbn [forallb] in Hw.
    apply andb_true_iff in Hw as [Hy Hw]. unfold jlen in *. cbn [List.length] in *.
    cbn [app rep_loop]. rewrite Hstep, Hy.
    assert (Hshort : (List.length (y :: w ++ r) <=? List.length (w ++ r))%nat = false).
    { apply Nat.leb_gt. cbn. lia. }
    unfold jlen. rewrite Hshort, andb_false_r.
    rewrite (IH fuel (S n) Hw) by lia.
    now destruct (n <? lo)%nat.
Qed.

Lemma run_plus_greedy {R : Type} (total : nat) (p : N -> bool) (w r : jsstr)
    (c : caps) (k : cont R) (x : R) :
  forallb p w = true -> (1 <= jlen w)%nat -> stops p r -> k r c = Some x ->
  run total (plus (Chr p)) (w ++ r) c k = Some x.
Proof.
  intros Hw Hlen Hstop Hk. unfold plus. cbn [run].
  apply (rep_chr_greedy _ p); try assumption; try reflexivity;
    unfold jlen in *; rewrite ?length_app; lia.
Qed.

Lemma run_plus_none {R : Type} (total : nat) (p : N -> bool) (r : jsstr)
    (c : caps) (k : cont R) :
  stops p r -> run total (plus (Chr p)) r c k = None.
Proof.
  intros Hstop. unfold plus. cbn [run rep_loop Nat.ltb Nat.leb].
  destruct r as [|z r]; [reflexivity|]. cbn in Hstop. now rewrite Hstop.
Qed.

(** The fraction of an amount, [(?:\.\d+)?]: taken when a point and a digit
    stand there, with all the digits that follow. *)
Lemma run_fraction_taken {R : Type} (total : nat) (d r : jsstr) (c : caps) (k : cont R) (x : R) :
  forallb is_digit d = true -> (1 <= jlen d)%nat -> stops is_digit r -> k r c = Some x ->
  run total (opt (Seq (chr 46) (plus digit))) (46 :: d ++ r) c k = Some x.
Proof.
  intros Hd Hlen Hstop Hk. unfold opt, chr. cbn [run rep_loop Nat.ltb Nat.leb Nat.add].
  rewrite N.eqb_refl. unfold digit.
  rewrite (run_plus_greedy total is_digit d r c _ x); try assumption; [reflexivity|].
  assert (Hshort : (jlen (46%N :: d ++ r) <=? jlen r)%nat = false).
  { apply Nat.leb_gt. unfold jlen. cbn. rewrite length_app. lia. }
  rewrite Hshort. cbn [andb]. unfold jlen at 1. cbn [List.length rep_loop Nat.ltb Nat.leb].
  exact Hk.
Qed.

Lemma run_fraction_skipped {R : Type} (total : nat) (r : jsstr) (c : caps) (k : cont R) :
  match r with
  | 46 :: r' => stops is_digit r'
  | _ => True
  end ->
  run total (opt (Seq (chr 46) (plus digit))) r c k = k r c.
Proof.
  intros Hr. unfold opt, chr. cbn [run rep_loop Nat.ltb Nat.leb Nat.add].
  destruct r as [|z r]; [now destruct (k [] c)|].
  destruct (46 =? z) eqn:E.
  - apply N.eqb_eq in E. subst z. unfold digit. rewrite run_plus_none by exact Hr.
    reflexivity.
  - reflexivity.
Qed.

(** *** The amount a pattern ends with *)

Lemma run_amount_greedy {R : Type} (total : nat) (i f q : jsstr) (c : caps)
    (k : cont R) (x : R) :
  forallb amount_char i = true -> (1 <= jlen i)%nat ->
  (f = [] /\ stops amount_char q
   /\ match q with 46 :: r' => stops is_digit r' | _ => True end)
  \/ (exists d, f = 46 :: d /\ forallb is_digit d = true /\ (1 <= jlen d)%nat
                /\ stops is_digit q) ->
  k q c = Some x ->
  run total amount (i ++ f ++ q) c k = Some x.
Proof.
  intros Hi Hlen Hf Hk. unfold amount. cbn [run].
  apply run_plus_greedy; try assumption.
  - destruct Hf as [(-> & Hq & _)|(d & -> & _)]; [exact Hq|reflexivity].
  - destruct Hf as [(-> & _ & Hq)|(d & -> & Hd & Hdl & Hq)].
    + cbn [app]. now rewrite run_fraction_skipped.
    + cbn [app]. now apply run_fraction_taken.
Qed.

Lemma span_exists (p : N -> bool) (s : jsstr) :
  exists w r, s = w ++ r /\ forallb p w = true /\ stops p r.
Proof.
  induction s as [|x s (w & r & -> & Hw & Hr)].
  - now exists [], [].
  - destruct (p x) eqn:E.
    + exists (x :: w), r. cbn. now rewrite E, Hw.
    + exists [], (x :: w ++ r). now repeat split.
Qed.

Lemma run_prefix_le (p : N -> bool) (w' r' w r : jsstr) :
  forallb p w' = true -> w' ++ r' = w ++ r -> stops p r -> (jlen w' <= jlen w)%nat.
Proof.
  revert w. induction w' as [|x w' IH]; intros w Hw' H Hr; [cbn; lia|].
  cbn [forallb] in Hw'. apply andb_true_iff in Hw' as [Hx Hw'].
  destruct w as [|y w].
  - cbn in H. subst r. cbn in Hr. congruence.
  - cbn in H. injection H as -> H. specialize (IH w Hw' H Hr). unfold jlen in *. cbn. lia.
Qed.

(** The amount a greedy match takes: all the digits and commas, and the
    fraction when there is one, with all its digits. *)
Lemma greedy_amount_exists (a0 q0 : jsstr) :
  is_amount a0 ->
  exists i f q,
    a0 ++ q0 = i ++ f ++ q
    /\ forallb amount_char i = true /\ (1 <= jlen i)%nat
    /\ ((f = [] /\ stops amount_char q
         /\ match q with 46 :: r' => stops is_digit r' | _ => True end)
        \/ (exists d, f = 46 :: d /\ forallb is_digit d = true /\ (1 <= jlen d)%nat
                      /\ stops is_digit q)).
Proof.
  intros (i0 & f0 & -> & Hi0 & Hi0l & _).
  destruct (span_exists amount_char ((i0 ++ f0) ++ q0)) as (w & r & Hs & Hw & Hr).
  assert (Hwl : (1 <= jlen w)%nat).
  { destruct w as [|y w]; [|unfold jlen; cbn; lia]. exfalso.
    destruct i0 as [|x i0]; [cbn in Hi0l; lia|].
    cbn in Hs. subst r. cbn in Hr, Hi0. apply andb_true_iff in Hi0 as [Hx _]. congruence. }
  rewrite Hs.
  destruct r as [|z r'].
  { exists w, [], []. repeat split; try assumption. left. now repeat split. }
  destruct (z =? 46) eqn:Ez.
  - apply N.eqb_eq in Ez. subst z.
    destruct (span_exists is_digit r') as (d & r2 & -> & Hd & Hr2).
    destruct d as [|y d].
    + exists w, [], (46 :: r2). repeat split; try assumption. left. now repeat split.
    + exists w, (46 :: y :: d), r2. repeat split; try assumption.
      right. exists (y :: d). repeat split; try assumption. unfold jlen. cbn. lia.
  - exists w, [], (z :: r'). repeat split; try assumption. left. repeat split; [assumption|].
    destruct z as [|z]; [exact I|]. do 6 (destruct z as [z|z|]; try exact I).
    discriminate Ez.
Qed.

Lemma greedy_amount_is_longest (i f q : jsstr) :
  forallb amount_char i = true -> (1 <= jlen i)%nat ->
  (f = [] /\ stops amount_char q
   /\ match q with 46 :: r' => stops is_digit r' | _ => True end)
  \/ (exists d, f = 46 :: d /\ forallb is_digit d = true /\ (1 <= jlen d)%nat
                /\ stops is_digit q) ->
  is_amount (i ++ f) /\ longest_amount (i ++ f) q.
Proof.
  intros Hi Hil Hf. split.
  { exists i, f. repeat split; try assumption.
    destruct Hf as [(-> & _)|(d & -> & Hd & Hdl & _)]; [now left|right; now exists d]. }
  intros a' q' (i' & f' & -> & Hi' & Hi'l & Hf') H.
  rewrite <- !app_assoc in H.
  assert (Hstop : stops amount_char (f ++ q)).
  { destruct Hf as [(-> & Hq & _)|(d & -> & _)]; [exact Hq|reflexivity]. }
  pose proof (run_prefix_le amount_char i' (f' ++ q') i (f ++ q) Hi' H Hstop) as Hle.
  unfold jlen in *. rewrite !length_app.
  destruct (Nat.eq_dec (List.length i') (List.length i)) as [Heq|Hne].
  - apply same_length_prefix in H as [-> H]; [|exact Heq].
    destruct Hf' as [-> | (d' & -> & Hd' & Hd'l)]; [cbn; lia|].
    destruct Hf as [(-> & _ & Hq)|(d & -> & Hd & Hdl & Hq)].
    + exfalso. cbn [app] in H. subst q. destruct d' as [|y d']; [cbn in Hd'l; lia|].
      cbn in Hq, Hd'. apply andb_true_iff in Hd' as [Hy _]. congruence.
    + cbn [app] in H. injection H as H.
      pose proof (run_prefix_le is_digit d' q' d q Hd' H Hq) as Hdle.
      unfold jlen in Hdle. cbn. lia.
  - destruct Hf' as [-> | (d' & -> & Hd' & Hd'l)]; [cbn; lia|]. exfalso.
    assert (Hlt : (List.length i' < List.length i)%nat) by lia.
    destruct (app_shorter i i' (f ++ q) ((46 :: d') ++ q') (eq_sym H) Hlt)
      as (p2 & -> & Hne2 & Hrest).
    destruct p2 as [|y p2]; [congruence|]. cbn in Hrest. injection Hrest as <- _.
    rewrite forallb_app in Hi. apply andb_true_iff in Hi as [_ Hi]. discriminate Hi.
Qed.

Lemma longest_amount_is_greedy (a q : jsstr) :
  is_amount a -> longest_amount a q ->
  exists i f,
    a = i ++ f
    /\ forallb amount_char i = true /\ (1 <= jlen i)%nat
    /\ ((f = [] /\ stops amount_char q
         /\ match q with 46 :: r' => stops is_digit r' | _ => True end)
        \/ (exists d, f = 46 :: d /\ forallb is_digit d = true /\ (1 <= jlen d)%nat
                      /\ stops is_digit q)).
Proof.
  intros Ha Hlong.
  destruct (greedy_amount_exists a q Ha) as (i & f & q1 & Hs & Hi & Hil & Hf).
  destruct (greedy_amount_is_longest i f q1 Hi Hil Hf) as (Ha1 & Hlong1).
  rewrite app_assoc in Hs.
  pose proof (Hlong (i ++ f) q1 Ha1 (eq_sym Hs)) as H1.
  pose proof (Hlong1 a q Ha Hs) as H2.
  apply same_length_prefix in Hs as [-> ->]; [|lia].
  now exists i, f.
Qed.

(** *** The range and the single amount of parseSalary *)

Lemma search_match_here (r : regex) (input : jsstr) :
  forall s t t' c, search r input s = Some (t, t', c) -> match_here r input t = Some (t', c).
Proof.
  induction s as [|x s IH]; intros t t' c H; cbn [search] in H.
  - destruct (match_here r input []) as [[s' c0]|] eqn:E; [|discriminate].
    injection H as <- <- <-. exact E.
  - destruct (match_here r input (x :: s)) as [[s' c0]|] eqn:E.
    + injection H as <- <- <-. exact E.
    + now apply IH.
Qed.

Lemma amount_char_cases (x : N) :
  amount_char x = true ->
  x <> 36 /\ x <> 46 /\ is_space x = false /\ is_range_sep x = false.
Proof.
  unfold amount_char, is_digit, is_space, is_range_sep. cbn [existsb]. intros H.
  class_true H; repeat split; try lia; class_false; reflexivity.
Qed.

Lemma range_sep_cases (x : N) :
  is_range_sep x = true ->
  x <> 36 /\ x <> 46 /\ is_space x = false /\ amount_char x = false /\ is_digit x = false.
Proof.
  unfold amount_char, is_digit, is_space, is_range_sep. cbn [existsb]. intros H.
  class_true H; subst; repeat split; try lia; reflexivity.
Qed.

Lemma space_cases (x : N) :
  is_space x = true ->
  x <> 36 /\ x <> 46 /\ is_range_sep x = false /\ amount_char x = false.
Proof.
  unfold amount_char, is_digit, is_space, is_range_sep. cbn [existsb]. intros H.
  class_true H; repeat split; try lia; class_false; reflexivity.
Qed.

Lemma amount_head (a r : jsstr) :
  is_amount a -> exists x l, a ++ r = x :: l /\ amount_char x = true.
Proof.
  intros (i & f & -> & Hi & Hil & _). destruct i as [|x i]; [cbn in Hil; lia|].
  cbn in Hi. apply andb_true_iff in Hi as [Hx _]. now exists x, ((i ++ f) ++ r).
Qed.

Lemma run_head (p : N -> bool) (w r : jsstr) :
  forallb p w = true -> (1 <= jlen w)%nat -> exists x l, w ++ r = x :: l /\ p x = true.
Proof.
  intros Hw Hl. destruct w as [|x w]; [cbn in Hl; lia|].
  cbn in Hw. apply andb_true_iff in Hw as [Hx _]. now exists x, (w ++ r).
Qed.

Lemma dollar_unique (d d' t t' : jsstr) :
  dollar d -> dollar d' ->
  (exists x l, t = x :: l /\ amount_char x = true) ->
  (exists x l, t' = x :: l /\ amount_char x = true) ->
  d ++ t = d' ++ t' -> d = d' /\ t = t'.
Proof.
  intros [-> | ->] [-> | ->] (x & l & -> & Hx) (x' & l' & -> & Hx') H; cbn in H.
  - now split.
  - injection H as -> _. now destruct (amount_char_cases 36 Hx).
  - injection H as <- _. now destruct (amount_char_cases 36 Hx').
  - injection H as -> ->. now split.
Qed.

Lemma amount_unique (a a' t t' : jsstr) :
  is_amount a -> is_amount a' ->
  (exists x l, t = x :: l /\ amount_char x = false /\ x <> 46) ->
  (exists x l, t' = x :: l /\ amount_char x = false /\ x <> 46) ->
  a ++ t = a' ++ t' -> a = a' /\ t = t'.
Proof.
  intros (i & f & -> & Hi & Hil & Hf) (i' & f' & -> & Hi' & Hi'l & Hf')
         (x & l & -> & Hx & Hx46) (x' & l' & -> & Hx' & Hx'46) H.
  rewrite <- !app_assoc in H.
  apply run_unique with (p := amount_char) in H as [<- H]; try assumption.
  2:{ destruct Hf as [-> | (d & -> & _)]; [exact Hx|reflexivity]. }
  2:{ destruct Hf' as [-> | (d & -> & _)]; [exact Hx'|reflexivity]. }
  destruct Hf as [-> | (d & -> & Hd & Hdl)], Hf' as [-> | (d' & -> & Hd' & Hd'l)];
    cbn [app] in H.
  - now rewrite !app_nil_r.
  - injection H as -> _. congruence.
  - injection H as <- _. congruence.
  - injection H as H.
    assert (Hdx : is_digit x = false).
    { unfold amount_char in Hx. now apply orb_false_iff in Hx as [Hx _]. }
    assert (Hdx' : is_digit x' = false).
    { unfold amount_char in Hx'. now apply orb_false_iff in Hx' as [Hx' _]. }
    apply run_unique with (p := is_digit) in H as [<- H]; try assumption.
    now split.
Qed.

Lemma den_range_front (total : nat) (t s1 : jsstr) (c1 : caps) :
  den total (seq_of [ opt (chr 36); Grp 1 amount; star space;
                      plus (one_of [45; 8211; 116; 84; 111; 79]);
                      star space; opt (chr 36) ]) t [] s1 c1 ->
  exists d1 a1 ws1 sep ws2 d2,
    t = d1 ++ a1 ++ ws1 ++ sep ++ ws2 ++ d2 ++ s1
    /\ dollar d1 /\ is_amount a1 /\ forallb is_space ws1 = true
    /\ (forallb is_range_sep sep = true /\ (1 <= jlen sep)%nat)
    /\ forallb is_space ws2 = true /\ dollar d2
    /\ c1 = [ (1%nat, (jlen (a1 ++ ws1 ++ sep ++ ws2 ++ d2 ++ s1),
                       jlen (ws1 ++ sep ++ ws2 ++ d2 ++ s1))) ].
Proof.
  intros H.
  apply den_seq_of_cons in H as (s2 & c2 & H1 & H).
  apply den_seq_of_cons in H as (s3 & c3 & H2 & H).
  apply den_seq_of_cons in H as (s4 & c4 & H3 & H).
  apply den_seq_of_cons in H as (s5 & c5 & H4 & H).
  apply den_seq_of_cons in H as (s6 & c6 & H5 & H).
  apply den_seq_of_cons in H as (s7 & c7 & H6 & H).
  apply den_seq_of_nil in H as (-> & ->).
  apply den_opt_dollar in H1 as (d1 & -> & Hd1 & ->).
  apply den_grp in H2 as (c0 & H2 & ->).
  apply den_amount in H2 as (a1 & -> & Ha1 & ->).
  apply (den_star_chr total) in H3 as (ws1 & -> & Hws1 & ->).
  apply (den_plus_chr total) in H4 as (sep & -> & Hsep & ->).
  apply (den_star_chr total) in H5 as (ws2 & -> & Hws2 & ->).
  apply den_opt_dollar in H6 as (d2 & -> & Hd2 & ->).
  exists d1, a1, ws1, sep, ws2, d2. pieces.
Qed.

(** The parts of a range before its second amount are the same however the
    text is read. *)
Lemma range_front_unique (d1 a1 ws1 sep ws2 d2 t d1' a1' ws1' sep' ws2' d2' t' : jsstr) :
  dollar d1 -> is_amount a1 -> forallb is_space ws1 = true ->
  forallb is_range_sep sep = true -> (1 <= jlen sep)%nat ->
  forallb is_space ws2 = true -> dollar d2 ->
  (exists x l, t = x :: l /\ amount_char x = true) ->
  dollar d1' -> is_amount a1' -> forallb is_space ws1' = true ->
  forallb is_range_sep sep' = true -> (1 <= jlen sep')%nat ->
  forallb is_space ws2' = true -> dollar d2' ->
  (exists x l, t' = x :: l /\ amount_char x = true) ->
  d1 ++ a1 ++ ws1 ++ sep ++ ws2 ++ d2 ++ t = d1' ++ a1' ++ ws1' ++ sep' ++ ws2' ++ d2' ++ t' ->
  d1 = d1' /\ a1 = a1' /\ ws1 = ws1' /\ sep = sep' /\ ws2 = ws2' /\ d2 = d2' /\ t = t'.
Proof.
  intros Hd1 Ha1 Hws1 Hsep Hsepl Hws2 Hd2 Ht Hd1' Ha1' Hws1' Hsep' Hsepl' Hws2' Hd2' Ht' H.
  assert (Htail : forall d u, dollar d -> (exists x l, u = x :: l /\ amount_char x = true) ->
            exists x l, d ++ u = x :: l /\ is_space x = false /\ is_range_sep x = false).
  { intros d u [-> | ->] (x & l & -> & Hx).
    - exists x, l. destruct (amount_char_cases x Hx) as (_ & _ & Hs & Hr). now repeat split.
    - exists 36, (x :: l). now repeat split. }
  assert (Hafter_sep : forall ws d u, forallb is_space ws = true -> dollar d ->
            (exists x l, u = x :: l /\ amount_char x = true) ->
            stops is_range_sep (ws ++ d ++ u)).
  { intros ws d u Hws Hd Hu. destruct ws as [|y ws].
    - destruct (Htail d u Hd Hu) as (x & l & -> & _ & Hr). exact Hr.
    - cbn in Hws. apply andb_true_iff in Hws as [Hy _]. cbn.
      now destruct (space_cases y Hy) as (_ & _ & Hr & _). }
  assert (Hafter_amount : forall ws sp u, forallb is_space ws = true ->
            forallb is_range_sep sp = true -> (1 <= jlen sp)%nat ->
            exists x l, ws ++ sp ++ u = x :: l /\ amount_char x = false /\ x <> 46).
  { intros ws sp u Hws Hsp Hspl. destruct ws as [|y ws].
    - destruct (run_head is_range_sep sp u Hsp Hspl) as (x & l & -> & Hx).
      exists x, l. destruct (range_sep_cases x Hx) as (_ & H46 & _ & Ha & _). now repeat split.
    - cbn in Hws. apply andb_true_iff in Hws as [Hy _]. exists y, (ws ++ sp ++ u).
      destruct (space_cases y Hy) as (_ & H46 & _ & Ha). now repeat split. }
  apply dollar_unique in H as [<- H]; try assumption; try now apply amount_head.
  apply amount_unique in H as [<- H]; try assumption; try now apply Hafter_amount.
  apply run_unique with (p := is_space) in H as [<- H]; try assumption.
  2:{ destruct (run_head is_range_sep sep (ws2 ++ d2 ++ t) Hsep Hsepl) as (x & l & -> & Hx).
      now destruct (range_sep_cases x Hx) as (_ & _ & Hs & _). }
  2:{ destruct (run_head is_range_sep sep' (ws2' ++ d2' ++ t') Hsep' Hsepl') as (x & l & -> & Hx).
      now destruct (range_sep_cases x Hx) as (_ & _ & Hs & _). }
  apply run_unique with (p := is_range_sep) in H as [<- H]; try assumption;
    try now apply Hafter_sep.
  apply run_unique with (p := is_space) in H as [<- H]; try assumption.
  2:{ destruct (Htail d2 t Hd2 Ht) as (x & l & -> & Hs & _). exact Hs. }
  2:{ destruct (Htail d2' t' Hd2' Ht') as (x & l & -> & Hs & _). exact Hs. }
  apply dollar_unique in H as [<- <-]; try assumption.
  now repeat split.
Qed.

(** A group that holds an amount takes the longest one. *)
Lemma run_group_amount (total : nat) (g : nat) (a0 q0 : jsstr) (c1 : caps) :
  is_amount a0 ->
  exists a q,
    a0 ++ q0 = a ++ q /\ is_amount a /\ longest_amount a q
    /\ run total (Grp g amount) (a0 ++ q0) c1 (fun s' c' => Some (s', c'))
       = Some (q, (g, (jlen (a ++ q), jlen q)) :: c1).
Proof.
  intros Ha0.
  destruct (greedy_amount_exists a0 q0 Ha0) as (i & f & q & Hs & Hi & Hil & Hf).
  destruct (greedy_amount_is_longest i f q Hi Hil Hf) as (Ha & Hlong).
  exists (i ++ f), q. rewrite <- app_assoc. repeat split; try assumption.
  cbn [run]. rewrite Hs.
  now apply (run_amount_greedy total i f q c1 _ _ Hi Hil Hf).
Qed.

Lemma exec_range_first_exists (s : jsstr) :
  range_occurs s ->
  exists p d1 a1 ws1 sep ws2 d2 a2 q,
    first_range s p d1 a1 ws1 sep ws2 d2 a2 q
    /\ exec 2 range_re s
       = Some [Some (d1 ++ a1 ++ ws1 ++ sep ++ ws2 ++ d2 ++ a2); Some a1; Some a2].
Proof.
  intros Hocc.
  assert (Hsome : exec 2 range_re s <> None).
  { intros H. now apply exec_range_none in H. }
  unfold exec in *.
  destruct (search range_re s s) as [[[t t'] c]|] eqn:E; [clear Hsome|now contradiction Hsome].
  pose proof (search_match_here _ _ _ _ _ _ E) as Hm.
  apply search_sound in E as (p & Hs & _ & Hleft); [|reflexivity].
  unfold match_here in Hm.
  change (run (jlen s) range_re t [] (fun s' c' => Some (s', c')))
    with (run (jlen s)
            (seq_of [ opt (chr 36); Grp 1 amount; star space;
                      plus (one_of [45; 8211; 116; 84; 111; 79]);
                      star space; opt (chr 36) ]) t []
            (fun s1 c1 => run (jlen s) (Grp 2 amount) s1 c1 (fun s' c' => Some (s', c'))))
    in Hm.
  apply run_sound in Hm as (s1 & c1 & Hfront & Hm).
  apply den_range_front in Hfront
    as (d1 & a1 & ws1 & sep & ws2 & d2 & Ht & Hd1 & Ha1 & Hws1 & Hsep & Hws2 & Hd2 & ->).
  pose proof Hm as Hm'. apply run_sound in Hm' as (s2 & c2 & Hgrp & _).
  apply den_grp in Hgrp as (c0 & Hgrp & _).
  apply den_amount in Hgrp as (a0 & -> & Ha0 & _).
  match type of Hm with run _ _ _ ?c1 _ = _ =>
    destruct (run_group_amount (jlen s) 2 a0 s2 c1 Ha0)
      as (a2 & q & Hsplit & Ha2 & Hlong & Hrun)
  end.
  rewrite Hrun in Hm. injection Hm as <- <-. rewrite Hsplit in Ht.
  exists p, d1, a1, ws1, sep, ws2, d2, a2, q. split.
  - split; [subst s t; pieces|]. split; [|exact Hlong].
    intros p' d1' a1' ws1' sep' ws2' d2' a2' q' (Hs' & Hshape').
    destruct (Nat.le_gt_cases (jlen p) (jlen p')) as [Hle|Hlt]; [exact Hle|exfalso].
    rewrite Hs in Hs'.
    destruct (app_shorter _ _ _ _ Hs' Hlt) as (p2 & Hp & Hne & Hrest).
    eapply (Hleft p' p2 q' _ Hp Hne).
    apply den_range. exists d1', a1', ws1', sep', ws2', d2', a2'.
    split; [now rewrite <- Hrest|].
    destruct Hshape' as (? & ? & ? & (? & ?) & ? & ? & ?). pieces.
  - unfold match_array. cbn [seq map cap_lookup Nat.eqb option_map]. subst s t.
    rewrite Hsplit. repeat f_equal.
    + slice_of p (d1 ++ a1 ++ ws1 ++ sep ++ ws2 ++ d2 ++ a2) q.
    + slice_of (p ++ d1) a1 (ws1 ++ sep ++ ws2 ++ d2 ++ a2 ++ q).
    + slice_of (p ++ d1 ++ a1 ++ ws1 ++ sep ++ ws2 ++ d2) a2 q.
Qed.

Lemma first_range_unique
    (s p d1 a1 ws1 sep ws2 d2 a2 q p' d1' a1' ws1' sep' ws2' d2' a2' q' : jsstr) :
  first_range s p d1 a1 ws1 sep ws2 d2 a2 q ->
  first_range s p' d1' a1' ws1' sep' ws2' d2' a2' q' ->
  p = p' /\ a1 = a1' /\ a2 = a2'.
Proof.
  intros (Hshape & Hfirst & Hlong) (Hshape' & Hfirst' & Hlong').
  pose proof (Hfirst _ _ _ _ _ _ _ _ _ Hshape') as H1.
  pose proof (Hfirst' _ _ _ _ _ _ _ _ _ Hshape) as H2.
  destruct Hshape as (Hs & Hd1 & Ha1 & Hws1 & [Hsep Hsepl] & Hws2 & Hd2 & Ha2).
  destruct Hshape' as (Hs' & Hd1' & Ha1' & Hws1' & [Hsep' Hsepl'] & Hws2' & Hd2' & Ha2').
  rewrite Hs in Hs'. apply app_same_length in Hs' as [<- Hrest]; [|unfold jlen in *; lia].
  split; [reflexivity|].
  apply range_front_unique in Hrest as (_ & <- & _ & _ & _ & _ & Hrest);
    try assumption; try now apply amount_head.
  split; [reflexivity|].
  pose proof (Hlong a2' q' Ha2' (eq_sym Hrest)) as H3.
  pose proof (Hlong' a2 q Ha2 Hrest) as H4.
  apply same_length_prefix in Hrest as [-> _]; [reflexivity|lia].
Qed.

(** What parseSalary reads off a range. *)
Lemma parseSalary_first_range (s p d1 a1 ws1 sep ws2 d2 a2 q : jsstr) :
  first_range s p d1 a1 ws1 sep ws2 d2 a2 q ->
  parseSalary (Some s)
  = {| s_min := Some (strip_commas a1); s_max := Some (strip_commas a2);
       s_raw := Some s; s_period := detect_period s |}.
Proof.
  intros Hfirst.
  assert (Hocc : range_occurs s).
  { destruct Hfirst as [H _]. now exists p, d1, a1, ws1, sep, ws2, d2, a2, q. }
  destruct (exec_range_first_exists s Hocc)
    as (p0 & e1 & b1 & w1 & sp & w2 & e2 & b2 & q0 & Hfirst0 & Hexec).
  destruct (first_range_unique _ _ _ _ _ _ _ _ _ _ _ _ _ _ _ _ _ _ _ Hfirst0 Hfirst)
    as (_ & -> & ->).
  rewrite parseSalary_steps.
  - rewrite Hexec. reflexivity.
  - intros ->. destruct Hfirst as [(Hs & _ & Ha1 & _) _].
    destruct (amount_head a1 (ws1 ++ sep ++ ws2 ++ d2 ++ a2 ++ q) Ha1) as (x & l & Hx & _).
    destruct p, d1; cbn in Hs; try discriminate Hs. rewrite Hx in Hs. discriminate Hs.
Qed.

Lemma exec_single_first_exists (s : jsstr) :
  amount_occurs s ->
  exists p d a q,
    first_single s p d a q /\ exec 1 single_re s = Some [Some (d ++ a); Some a].
Proof.
  intros Hocc.
  assert (Hsome : exec 1 single_re s <> None).
  { intros H. now apply exec_single_none in H. }
  unfold exec in *.
  destruct (search single_re s s) as [[[t t'] c]|] eqn:E; [clear Hsome|now contradiction Hsome].
  pose proof (search_match_here _ _ _ _ _ _ E) as Hm.
  apply search_sound in E as (p & Hs & _ & Hleft); [|reflexivity].
  unfold match_here in Hm.
  change (run (jlen s) single_re t [] (fun s' c' => Some (s', c')))
    with (run (jlen s) (opt (chr 36)) t []
            (fun s1 c1 => run (jlen s) (Grp 1 amount) s1 c1 (fun s' c' => Some (s', c'))))
    in Hm.
  apply run_sound in Hm as (s1 & c1 & Hfront & Hm).
  apply den_opt_dollar in Hfront as (d & Ht & Hd & ->).
  pose proof Hm as Hm'. apply run_sound in Hm' as (s2 & c2 & Hgrp & _).
  apply den_grp in Hgrp as (c0 & Hgrp & _).
  apply den_amount in Hgrp as (a0 & -> & Ha0 & _).
  match type of Hm with run _ _ _ ?c1 _ = _ =>
    destruct (run_group_amount (jlen s) 1 a0 s2 c1 Ha0)
      as (a & q & Hsplit & Ha & Hlong & Hrun)
  end.
  rewrite Hrun in Hm. injection Hm as <- <-. rewrite Hsplit in Ht.
  exists p, d, a, q. split.
  - split; [subst s t; pieces|]. split; [|exact Hlong].
    intros p' d' a' q' (Hs' & Hshape').
    destruct (Nat.le_gt_cases (jlen p) (jlen p')) as [Hle|Hlt]; [exact Hle|exfalso].
    rewrite Hs in Hs'.
    destruct (app_shorter _ _ _ _ Hs' Hlt) as (p2 & Hp & Hne & Hrest).
    eapply (Hleft p' p2 q' _ Hp Hne).
    apply den_single. exists d', a'. split; [now rewrite <- Hrest|].
    destruct Hshape' as (? & ?). pieces.
  - unfold match_array. cbn [seq map cap_lookup Nat.eqb option_map]. subst s t.
    repeat f_equal.
    + slice_of p (d ++ a) q.
    + slice_of (p ++ d) a q.
Qed.

Lemma first_single_unique (s p d a q p' d' a' q' : jsstr) :
  first_single s p d a q -> first_single s p' d' a' q' -> p = p' /\ a = a'.
Proof.
  intros (Hshape & Hfirst & Hlong) (Hshape' & Hfirst' & Hlong').
  pose proof (Hfirst _ _ _ _ Hshape') as H1. pose proof (Hfirst' _ _ _ _ Hshape) as H2.
  destruct Hshape as (Hs & Hd & Ha), Hshape' as (Hs' & Hd' & Ha').
  rewrite Hs in Hs'. apply app_same_length in Hs' as [<- Hrest]; [|unfold jlen in *; lia].
  split; [reflexivity|].
  apply dollar_unique in Hrest as [_ Hrest]; try assumption; try now apply amount_head.
  pose proof (Hlong a' q' Ha' (eq_sym Hrest)) as H3.
  pose proof (Hlong' a q Ha Hrest) as H4.
  apply same_length_prefix in Hrest as [-> _]; [reflexivity|lia].
Qed.

Lemma parseSalary_first_single (s p d a q : jsstr) :
  ~ range_occurs s -> first_single s p d a q ->
  parseSalary (Some s)
  = {| s_min := Some (strip_commas a); s_max := Some (strip_commas a);
       s_raw := Some s; s_period := detect_period s |}.
Proof.
  intros Hno Hfirst.
  assert (Hocc : amount_occurs s) by (destruct Hfirst as [H _]; now exists p, d, a, q).
  destruct (exec_single_first_exists s Hocc) as (p0 & e & b & q0 & Hfirst0 & Hexec).
  destruct (first_single_unique _ _ _ _ _ _ _ _ _ Hfirst0 Hfirst) as (_ & ->).
  apply exec_range_none in Hno.
  rewrite parseSalary_steps.
  - rewrite Hno, Hexec. reflexivity.
  - intros ->. destruct Hfirst as [(Hs & _ & Ha) _].
    destruct (amount_head a q Ha) as (x & l & Hx & _).
    destruct p, d; cbn in Hs; try discriminate Hs. rewrite Hx in Hs. discriminate Hs.
Qed.

(** *** The branches of parseDate *)






(** The M/D/Y branch. *)
Lemma parseDate_first_mdy (s p g1 g2 g3 q : jsstr) :
  ~ iso_prefixed s -> first_mdy s p g1 g2 g3 q ->
  parseDate (Some s) = Some (ymd g3 (padStart2 g1) (padStart2 g2)).
Proof.
  intros Hiso Hfirst.
  assert (Hocc : mdy_occurs s) by (destruct Hfirst as [H _]; now exists p, g1, g2, g3, q).
  rewrite parseDate_steps by now apply mdy_occurs_nonempty.
  now rewrite (not_iso s Hiso), (parse_mdy_first _ _ _ _ _ _ Hfirst).
Qed.




Lemma first_mdy_exists (s : jsstr) :
  mdy_occurs s -> exists p g1 g2 g3 q, first_mdy s p g1 g2 g3 q.
Proof.
  intros H. destruct (parse_mdy_first_exists s H) as (p & g1 & g2 & g3 & q & Hf & _).
  now exists p, g1, g2, g3, q.
Qed.



Lemma first_range_exists (s : jsstr) :
  range_occurs s ->
  exists p d1 a1 ws1 sep ws2 d2 a2 q, first_range s p d1 a1 ws1 sep ws2 d2 a2 q.
Proof.
  intros H.
  destruct (exec_range_first_exists s H)
    as (p & d1 & a1 & ws1 & sep & ws2 & d2 & a2 & q & Hf & _).
  now exists p, d1, a1, ws1, sep, ws2, d2, a2, q.
Qed.

Lemma first_single_exists (s : jsstr) :
  amount_occurs s -> exists p d a q, first_single s p d a q.
Proof.
  intros H. destruct (exec_single_first_exists s H) as (p & d & a & q & Hf & _).
  now exists p, d, a, q.
Qed.

(** A text begins with its own first match. *)
Lemma at_the_front (p p' : jsstr) : p = [] -> (jlen p <= jlen p')%nat.
Proof. intros ->. cbn. lia. Qed.

(** *** Every text is of one kind *)

Lemma range_occurs_when_found (s : jsstr) (m : list (option jsstr)) :
  exec 2 range_re s = Some m -> range_occurs s.
Proof.
  intros E. apply exec_range_some in E as (p & d1 & a1 & ws1 & sep & ws2 & d2 & a2 & q & H & _).
  now exists p, d1, a1, ws1, sep, ws2, d2, a2, q.
Qed.




Lemma range_occurs_dec (s : jsstr) : range_occurs s \/ ~ range_occurs s.
Proof.
  destruct (exec 2 range_re s) as [m|] eqn:E; [left|right; now apply exec_range_none].
  now apply (range_occurs_when_found s m).
Qed.

Lemma amount_occurs_dec (s : jsstr) : amount_occurs s \/ ~ amount_occurs s.
Proof.
  destruct (exec 1 single_re s) as [m|] eqn:E; [left|right; now apply exec_single_none].
  apply exec_single_some in E as (p & d & a & q & H & _). now exists p, d, a, q.
Qed.



(** *** parseSalary *)

(** C2, as stated, fails: the two amounts of a range are taken in the order
    in which they stand in the text, and nothing compares them. *)
Lemma salary_range_is_not_ordered :
  let salary := parseSalary (Some (js "$60 - $45")) in
  range_occurs (js "$60 - $45")
  /\ s_min salary = Some (js "60")
  /\ s_max salary = Some (js "45")
  /\ ~ decimal_le (js "60") (js "45").
Proof.
  cbn zeta. repeat apply conj.
  - destruct (exec 2 range_re (js "$60 - $45")) as [m|] eqn:E; [|vm_compute in E; discriminate E].
    now apply (range_occurs_when_found _ m).
  - vm_compute. reflexivity.
  - vm_compute. reflexivity.
  - vm_compute. intros H. apply H. reflexivity.
Qed.

(** C2 (amended). Where a range stands in the text, the range pattern matches
    the leftmost one, its second amount taken as long as it can be: salaryMin
    is the first amount of that match and salaryMax the second, both without
    their commas, in the order in which the text gives them, and the raw text
    and the period are kept; no comparison is made, so min is at most max
    exactly when the text gives the lower amount first.  Where no range stands
    in the text but an amount does, min and max are both the leftmost amount,
    as long as it can be, without its commas.  Where there is no amount, both
    are null and the raw text is kept.  A text in which a range (an amount)
    stands has such a leftmost range (amount), and every text is of one of
    the three kinds.  The text
    "Pay: $45.50 - $60.00 per hour" gives 45.50, 60.00 and hourly. *)
Theorem parseSalary_reads_amounts_in_text_order :
  (forall s p d1 a1 ws1 sep ws2 d2 a2 q : jsstr,
     first_range s p d1 a1 ws1 sep ws2 d2 a2 q ->
     parseSalary (Some s)
     = {| s_min := Some (strip_commas a1); s_max := Some (strip_commas a2);
          s_raw := Some s; s_period := detect_period s |})
  /\ (forall s : jsstr,
        range_occurs s ->
        exists p d1 a1 ws1 sep ws2 d2 a2 q, first_range s p d1 a1 ws1 sep ws2 d2 a2 q)
  /\ (forall s p d a q : jsstr,
        ~ range_occurs s -> first_single s p d a q ->
        parseSalary (Some s)
        = {| s_min := Some (strip_commas a); s_max := Some (strip_commas a);
             s_raw := Some s; s_period := detect_period s |})
  /\ (forall s : jsstr,
        amount_occurs s -> exists p d a q, first_single s p d a q)
  /\ (forall s : jsstr,
        ~ amount_occurs s ->
        s_min (parseSalary (Some s)) = None /\ s_max (parseSalary (Some s)) = None
        /\ s_raw (parseSalary (Some s)) = Some s)
  /\ (forall s : jsstr,
        range_occurs s \/ (~ range_occurs s /\ amount_occurs s) \/ ~ amount_occurs s)
  /\ (parseSalary (Some (js "Pay: $45.50 - $60.00 per hour"))
      = {| s_min := Some (js "45.50"); s_max := Some (js "60.00");
           s_raw := Some (js "Pay: $45.50 - $60.00 per hour");
           s_period := Some (js "hourly") |}
      /\ decimal_le (js "45.50") (js "60.00")
      /\ parseSalary (Some (js "from 1,250.75 a week"))
         = {| s_min := Some (js "1250.75"); s_max := Some (js "1250.75");
              s_raw := Some (js "from 1,250.75 a week");
              s_period := Some (js "weekly") |}).
Proof.
  split; [exact parseSalary_first_range|].
  split; [exact first_range_exists|].
  split; [exact parseSalary_first_single|].
  split; [exact first_single_exists|].
  split; [exact parseSalary_none|].
  split.
  { intros s. destruct (range_occurs_dec s) as [H|H]; [now left|].
    destruct (amount_occurs_dec s) as [H'|H']; [right; left; now split|right; now right]. }
  split; [vm_compute; reflexivity|].
  split; [vm_compute; discriminate|vm_compute; reflexivity].
Qed.

Lemma parseSalary_reads_amounts_in_text_order_witness :
  first_range (js "$60 - $45 per hour")
    [] (js "$") (js "60") (js " ") (js "-") (js " ") (js "$") (js "45") (js " per hour")
  /\ parseSalary (Some (js "$60 - $45 per hour"))
     = {| s_min := Some (strip_commas (js "60")); s_max := Some (strip_commas (js "45"));
          s_raw := Some (js "$60 - $45 per hour");
          s_period := detect_period (js "$60 - $45 per hour") |}.
Proof.
  assert (H : first_range (js "$60 - $45 per hour")
                [] (js "$") (js "60") (js " ") (js "-") (js " ") (js "$") (js "45")
                (js " per hour")).
  { split; [|split].
    - split; [reflexivity|]. split; [now right|].
      split; [exists (js "60"), []; repeat split; try reflexivity; [cbn; lia|now left]|].
      split; [reflexivity|]. split; [split; [reflexivity|cbn; lia]|].
      split; [reflexivity|]. split; [now right|].
      exists (js "45"), []. repeat split; try reflexivity; [cbn; lia|now left].
    - intros. now apply at_the_front.
    - apply (greedy_amount_is_longest (js "45") [] (js " per hour")).
      + reflexivity.
      + cbn. lia.
      + left. repeat split; reflexivity. }
  split; [exact H|].
  exact (proj1 parseSalary_reads_amounts_in_text_order _ _ _ _ _ _ _ _ _ _ H).
Defined.

(** *** parseDate *)

(** C9, as stated, fails for a text that begins with an ISO date: the shape
    M/D/Y stands in it, yet the text comes back as it is, the M/D/Y branch
    never being reached. *)
Lemma parseDate_after_an_iso_date_reads_no_mdy :
  mdy_occurs (js "2023-01-01 13/45/2023")
  /\ iso_prefixed (js "2023-01-01 13/45/2023")
  /\ parseDate (Some (js "2023-01-01 13/45/2023")) = Some (js "2023-01-01 13/45/2023")
  /\ parseDate (Some (js "2023-01-01 13/45/2023")) <> Some (js "2023-13-45").
Proof.
  split; [|split; [|split]].
  - exists (js "2023-01-01 "), (js "13"), (js "45"), (js "2023"), [].
    split; [reflexivity|]. repeat split; try reflexivity; cbn; lia.
  - apply test_iso. vm_compute. reflexivity.
  - vm_compute. reflexivity.
  - vm_compute. discriminate.
Qed.

(** C9 (amended). On its M/D/Y branch [parseDate] checks no range.  For a
    text that does not begin with an ISO date, and in which one or two digits,
    a slash, one or two digits, a slash and four digits stand somewhere, the
    result is the year, the month and the day of the leftmost such occurrence,
    the last two padded to two digits, whatever the numbers are; where the
    shape stands, there is a leftmost occurrence.  A text that begins with the
    shape is such a text.  So "13/45/2023" gives "2023-13-45", which is no
    date of the calendar, and "on 12/25/2023" gives "2023-12-25". *)
Theorem parseDate_mdy_is_not_range_checked :
  (forall s p g1 g2 g3 q : jsstr,
     ~ iso_prefixed s -> first_mdy s p g1 g2 g3 q ->
     parseDate (Some s) = Some (ymd g3 (padStart2 g1) (padStart2 g2)))
  /\ (forall s : jsstr,
        mdy_occurs s -> exists p g1 g2 g3 q, first_mdy s p g1 g2 g3 q)
  /\ (forall g1 g2 g3 r : jsstr,
        digits 1 2 g1 -> digits 1 2 g2 -> digits 4 4 g3 ->
        parseDate (Some (g1 ++ [47] ++ g2 ++ [47] ++ g3 ++ r))
        = Some (ymd g3 (padStart2 g1) (padStart2 g2)))
  /\ (parseDate (Some (js "13/45/2023")) = Some (js "2023-13-45")
      /\ parseDate (Some (js "on 12/25/2023")) = Some (js "2023-12-25")
      /\ parseDate (Some (js "due 0/0/0000, or 1/2/2024")) = Some (js "0000-00-00")).
Proof.
  split; [exact parseDate_first_mdy|].
  split; [exact first_mdy_exists|].
  split; [exact parseDate_mdy_text|].
  repeat split; vm_compute; reflexivity.
Qed.

Lemma parseDate_mdy_is_not_range_checked_witness :
  ~ iso_prefixed (js "13/45/2023 (posted)")
  /\ first_mdy (js "13/45/2023 (posted)") [] (js "13") (js "45") (js "2023") (js " (posted)")
  /\ parseDate (Some (js "13/45/2023 (posted)"))
     = Some (ymd (js "2023") (padStart2 (js "13")) (padStart2 (js "45"))).
Proof.
  assert (Hiso : ~ iso_prefixed (js "13/45/2023 (posted)")).
  { intros H. apply test_iso in H. vm_compute in H. discriminate H. }
  assert (Hfirst : first_mdy (js "13/45/2023 (posted)") [] (js "13") (js "45") (js "2023")
                     (js " (posted)")).
  { split.
    - split; [reflexivity|]. repeat split; try reflexivity; cbn; lia.
    - intros. now apply at_the_front. }
  split; [exact Hiso|]. split; [exact Hfirst|].
  exact (proj1 parseDate_mdy_is_not_range_checked _ _ _ _ _ _ Hiso Hfirst).
Defined.


(** A word that is no month, looked up in the table of months, can reach a
    property every object inherits: the text that comes back is then neither
    the input nor a date. *)
Example parseDate_with_an_inherited_property :
  parseDate (Some (js "Constructor 5, 2025"))
  = Some (js "2025-function Object() { [native code] }-05").
Proof. vm_compute. reflexivity. Qed.

(** Each pattern is tried at its leftmost match only: a date that stands
    after a word, a number and a year that name no month is not read. *)
Example parseDate_reads_the_leftmost_match :
  parseDate (Some (js "Due 5, 2025 or October 28, 2025"))
  = Some (js "Due 5, 2025 or October 28, 2025").
Proof. vm_compute. reflexivity. Qed.



(** * Further properties *)

(** ** Strings *)

Lemma startsWith_true_iff (p s : jsstr) :
  startsWith p s = true <-> exists b, s = p ++ b.
Proof.
  revert s. induction p as [|x p IH]; intros s.
  - cbn. split; [intros _; now exists s|reflexivity].
  - destruct s as [|y s]; cbn.
    + split; [discriminate|intros (b & Hb); discriminate Hb].
    + rewrite andb_true_iff, N.eqb_eq, IH. split.
      * intros (-> & b & ->). now exists b.
      * intros (b & [= -> ->]). split; [reflexivity|now exists b].
Qed.

Lemma includes_true_iff (p s : jsstr) :
  includes p s = true <-> exists a b, s = a ++ p ++ b.
Proof.
  induction s as [|y s IH]; cbn [includes]; rewrite orb_true_iff, startsWith_true_iff.
  - split.
    + intros [(b & Hb)|H]; [|discriminate]. now exists [], b.
    + intros (a & b & H). left. destruct a; [now exists b|discriminate].
  - rewrite IH. split.
    + intros [(b & Hb)|(a & b & ->)]; [now exists [], b|now exists (y :: a), b].
    + intros (a & b & H). destruct a as [|z a].
      * left. now exists b.
      * right. injection H as -> ->. now exists a, b.
Qed.

(** ** Patterns of words *)

Lemma forallb_same {A : Type} (f g : A -> bool) (l : list A) :
  (forall x, f x = g x) -> forallb f l = forallb g l.
Proof. intros H. induction l as [|x l IH]; [reflexivity|]. cbn. now rewrite H, IH. Qed.

Lemma den_chr_i (total : nat) (x : N) (s : jsstr) (c : caps) (s' : jsstr) (c' : caps) :
  den total (chr_i x) s c s' c' <-> exists y, s = y :: s' /\ same_letter x y = true /\ c' = c.
Proof.
  unfold chr_i, same_letter. destruct (is_upper x); [|destruct (is_lower x)]; cbn [den];
    reflexivity.
Qed.

Lemma den_word_i (total : nat) (w : jsstr) :
  forall s c s' c',
    den total (seq_of (map chr_i w)) s c s' c'
    <-> exists t, s = t ++ s' /\ Forall2 (fun x y => same_letter x y = true) w t /\ c' = c.
Proof.
  induction w as [|x w IH]; intros s c s' c'.
  - cbn [map]. rewrite den_seq_of_nil. split.
    + intros [-> ->]. exists []. repeat split. constructor.
    + intros (t & -> & Ht & ->). inversion Ht. now split.
  - cbn [map]. rewrite den_seq_of_cons. split.
    + intros (s1 & c1 & Hx & Hw). apply den_chr_i in Hx as (y & -> & Hy & ->).
      apply IH in Hw as (t & -> & Ht & ->). exists (y :: t). repeat split. now constructor.
    + intros (t & -> & Ht & ->). inversion Ht as [|x' y w' t' Hy Ht']; subst.
      exists (t' ++ s'), c. split; [apply den_chr_i; now exists y|].
      apply IH. now exists t'.
Qed.

Lemma den_lit_i (total : nat) (w : string) (s : jsstr) (c : caps) (s' : jsstr) (c' : caps) :
  den total (lit_i w) s c s' c' <-> exists t, s = t ++ s' /\ reads_as w t /\ c' = c.
Proof. apply den_word_i. Qed.

Lemma plain_word_i (w : jsstr) : plain_lookaheads (seq_of (map chr_i w)) = true.
Proof.
  induction w as [|x w IH]; [reflexivity|]. destruct w as [|y w].
  - cbn. unfold chr_i. now destruct (is_upper x), (is_lower x).
  - change (plain_lookaheads (chr_i x) && plain_lookaheads (seq_of (map chr_i (y :: w))) = true).
    rewrite IH. unfold chr_i. now destruct (is_upper x), (is_lower x).
Qed.

Lemma plain_spaced (ws : list string) : plain_lookaheads (spaced ws) = true.
Proof.
  induction ws as [|w ws IH]; [reflexivity|]. destruct ws as [|w' ws].
  - apply plain_word_i.
  - change (plain_lookaheads (lit_i w) && (true && plain_lookaheads (spaced (w' :: ws))) = true).
    rewrite IH. unfold lit_i. now rewrite plain_word_i.
Qed.

Lemma den_spaced_iff (total : nat) (ws : list string) :
  forall s c s' c',
    den total (spaced ws) s c s' c'
    <-> exists body, s = body ++ s' /\ spelled ws body /\ c' = c.
Proof.
  induction ws as [|w ws IH]; intros s c s' c'.
  - cbn [spaced spelled den]. split.
    + intros [-> ->]. exists []. now repeat split.
    + intros (body & -> & -> & ->). now split.
  - destruct ws as [|w' ws].
    + cbn [spaced spelled]. apply den_lit_i.
    + change (spaced (w :: w' :: ws))
        with (Seq (lit_i w) (Seq (star space) (spaced (w' :: ws)))).
      cbn [den]. split.
      * intros (s1 & c1 & H1 & s2 & c2 & H2 & H3).
        apply den_lit_i in H1 as (u & -> & Hu & ->).
        apply (den_star_chr total) in H2 as (gap & -> & Hgap & ->).
        apply IH in H3 as (rest & -> & Hrest & ->).
        exists (u ++ gap ++ rest). split; [now rewrite <- !app_assoc|]. split; [|reflexivity].
        exists u, gap, rest. now repeat split.
      * intros (body & -> & (u & gap & rest & -> & Hu & Hgap & Hrest) & ->).
        exists (gap ++ rest ++ s'), c. split.
        { apply den_lit_i. exists u. rewrite <- !app_assoc. now repeat split. }
        exists (rest ++ s'), c. split.
        { apply (den_star_chr total). exists gap. now repeat split. }
        apply IH. now exists rest.
Qed.

(** A row of plain words matches where its phrase stands. *)
Lemma test_spaced_iff (ws : list string) (t : jsstr) :
  test (spaced ws) t = true <-> phrase_occurs ws t.
Proof.
  rewrite test_true_iff by apply plain_spaced. split.
  - intros (p & u & u' & c & -> & H). apply den_spaced_iff in H as (body & -> & Hb & _).
    now exists p, body, u'.
  - intros (p & body & q & -> & Hb). exists p, (body ++ q), q, []. split; [reflexivity|].
    apply den_spaced_iff. now exists body.
Qed.

Lemma first_pattern_spaced_none (phrases : list (list string)) (kinds : list ErrorType)
    (t : jsstr) :
  List.length kinds = List.length phrases ->
  first_pattern (combine (map spaced phrases) kinds) t = None
  <-> Forall (fun ws => ~ phrase_occurs ws t) phrases.
Proof.
  revert kinds. induction phrases as [|ws phrases IH]; intros [|k kinds] Hlen;
    try discriminate Hlen.
  - cbn. split; [constructor|reflexivity].
  - cbn [map combine first_pattern]. injection Hlen as Hlen.
    destruct (test (spaced ws) t) eqn:E.
    + split; [discriminate|]. intros H. inversion H as [|? ? Hws _]; subst.
      apply test_spaced_iff in E. contradiction.
    + rewrite (IH kinds Hlen). split.
      * intros H. constructor; [|exact H]. intros Hocc. apply test_spaced_iff in Hocc.
        rewrite Hocc in E. discriminate E.
      * intros H. now inversion H.
Qed.

Lemma existsb_spaced (phrases : list (list string)) (kinds : list ErrorType) (t : jsstr) :
  List.length kinds = List.length phrases ->
  existsb (fun row => test (fst row) t) (combine (map spaced phrases) kinds) = true
  <-> Exists (fun ws => phrase_occurs ws t) phrases.
Proof.
  revert kinds. induction phrases as [|ws phrases IH]; intros [|k kinds] Hlen;
    try discriminate Hlen.
  - cbn. split; [discriminate|intros H; inversion H].
  - cbn [map combine existsb fst]. injection Hlen as Hlen.
    rewrite orb_true_iff, test_spaced_iff, (IH kinds Hlen). split.
    + intros [H|H]; [now left|now right].
    + intros H. inversion H; subst; [now left|now right].
Qed.

(** ** The request handler and the router *)

Lemma listingHandler_frame (request : Request) (w : World) :
  let w' := listingHandler request w in
  dataset w' = dataset w /\ errorSamples w' = errorSamples w /\ page w' = page w
  /\ exists tasks, requests w' = requests w ++ tasks.
Proof.
  cbn zeta. unfold listingHandler.
  destruct (collect_job_links _ _) as [|s l]; destruct (collect_pagination _ _) as [|u us];
    cbn; repeat split; eexists; try (symmetry; apply app_nil_r); try reflexivity.
  now rewrite <- app_assoc.
Qed.

Lemma defaultHandler_frame (request : Request) (w : World) :
  let w' := defaultHandler request w in
  dataset w' = dataset w /\ errorSamples w' = errorSamples w /\ page w' = page w
  /\ exists tasks, requests w' = requests w ++ tasks.
Proof.
  cbn zeta. unfold defaultHandler.
  destruct (scan_links _ _ _) as [|s l]; destruct (scan_links _ _ _) as [|u us];
    cbn; repeat split; eexists; try (symmetry; apply app_nil_r); try reflexivity.
  now rewrite <- app_assoc.
Qed.

Lemma first_pattern_hit (rows : list (regex * ErrorType)) (t : jsstr) (r : regex) (ty : ErrorType) :
  In (r, ty) rows -> test r t = true -> exists ty', first_pattern rows t = Some ty'.
Proof.
  induction rows as [|[r' ty'] rows IH]; intros Hin Ht; [destruct Hin|].
  cbn [first_pattern]. destruct (test r' t) eqn:E; [now eexists|].
  destruct Hin as [[= -> ->]|Hin]; [congruence|now apply IH].
Qed.

(** X1. Whatever the response, one run of the request handler only adds to
    the dataset, to the queue and to the error samples; it adds at most one
    record and at most one sample, and never a sample together with a record
    or a task.  A record comes from a request labelled JOB_DETAIL only, and
    with it no task.  With error samples switched off none is written. *)
Theorem a_request_leaves_output_or_a_sample :
  forall (cfg : Config) (now : jsstr) (ctx : Context) (w : World),
    let w' := requestHandler cfg now ctx w in
    exists (jobs : list ExtractedJob) (tasks : list Source) (samples : list ErrorSample),
      dataset w' = dataset w ++ jobs
      /\ requests w' = requests w ++ tasks
      /\ errorSamples w' = errorSamples w ++ samples
      /\ (List.length jobs <= 1)%nat
      /\ (List.length samples <= 1)%nat
      /\ (samples <> [] -> jobs = [] /\ tasks = [] /\ page w' = page w)
      /\ (jobs <> [] -> r_label (c_request ctx) = Some JOB_DETAIL /\ tasks = [])
      /\ (saveErrorSamples cfg = false -> samples = []).
Proof.
  intros cfg now ctx w. cbn zeta. unfold requestHandler.
  assert (Hsample : forall ty msg st,
            let w' := if saveErrorSamples cfg
                      then saveErrorSample now (request_url (c_request ctx)) (c_body ctx)
                             ty msg st w
                      else w in
            exists (jobs : list ExtractedJob) (tasks : list Source) (samples : list ErrorSample),
              dataset w' = dataset w ++ jobs
              /\ requests w' = requests w ++ tasks
              /\ errorSamples w' = errorSamples w ++ samples
              /\ (List.length jobs <= 1)%nat
              /\ (List.length samples <= 1)%nat
              /\ (samples <> [] -> jobs = [] /\ tasks = [] /\ page w' = page w)
              /\ (jobs <> [] -> r_label (c_request ctx) = Some JOB_DETAIL /\ tasks = [])
              /\ (saveErrorSamples cfg = false -> samples = [])).
  { intros ty msg st. cbn zeta. destruct (saveErrorSamples cfg).
    - exists [], [], [{| e_url := request_url (c_request ctx); e_errorType := ty;
                         e_errorMessage := msg; e_statusCode := st; e_html := c_body ctx;
                         e_capturedAt := now |}].
      cbn. rewrite !app_nil_r. repeat split; try lia; try congruence.
    - exists [], [], []. cbn. rewrite !app_nil_r. repeat split; try lia; congruence. }
  destruct (400 <=? default 200 (c_statusCode ctx)); [apply Hsample|].
  destruct (detectErrorInContent (c_body ctx) (Some (page w))) as [[ty msg]|]; [apply Hsample|].
  clear Hsample. set (w1 := set_page _ w). unfold router.
  destruct (r_label (c_request ctx)) as [[|]|].
  - destruct (listingHandler_frame (c_request ctx) w1) as (Hd & Hs & _ & tasks & Hr).
    exists [], tasks, []. rewrite Hd, Hs, Hr. cbn. rewrite !app_nil_r.
    repeat split; try lia; congruence.
  - exists [build_job now (c_request ctx) (snd (createFieldExtractor (page w1)))
              (fst (createFieldExtractor (page w1)))], [], [].
    cbn. rewrite !app_nil_r. repeat split; try lia; congruence.
  - destruct (defaultHandler_frame (c_request ctx) w1) as (Hd & Hs & _ & tasks & Hr).
    exists [], tasks, []. rewrite Hd, Hs, Hr. cbn. rewrite !app_nil_r.
    repeat split; try lia; congruence.
Qed.

(** X2. A response with a status of 400 or more is never routed: no record,
    no task, the page untouched.  Its sample, written when samples are kept,
    carries the message "HTTP <status> error" and a kind read off the status
    alone: 401, 403, 404, 429 and 499 have kinds of their own, every status
    from 500 on is SERVER_ERROR, every other one HTTP_ERROR. *)
Theorem error_status_is_classified_and_not_routed :
  forall (cfg : Config) (now : jsstr) (ctx : Context) (w : World) (status : N),
    c_statusCode ctx = Some status ->
    400 <= status ->
    let w' := requestHandler cfg now ctx w in
    dataset w' = dataset w /\ requests w' = requests w /\ page w' = page w
    /\ exists kind : ErrorType,
         errorSamples w'
         = (if saveErrorSamples cfg
            then errorSamples w ++
                   [{| e_url := request_url (c_request ctx);
                       e_errorType := kind;
                       e_errorMessage := js "HTTP " ++ decimal status ++ js " error";
                       e_statusCode := Some status;
                       e_html := c_body ctx;
                       e_capturedAt := now |}]
            else errorSamples w)
         /\ (status = 401 -> kind = UNAUTHORIZED)
         /\ (status = 403 -> kind = ACCESS_DENIED)
         /\ (status = 404 -> kind = PAGE_NOT_FOUND)
         /\ (status = 429 -> kind = RATE_LIMITED)
         /\ (status = 499 -> kind = PROXY_RATE_LIMITED)
         /\ (500 <= status -> kind = SERVER_ERROR)
         /\ (status < 500 -> ~ In status [401; 403; 404; 429; 499] -> kind = HTTP_ERROR).
Proof.
  intros cfg now ctx w status Hstatus Hge.
  pose proof (requestHandler_status_error cfg now ctx w) as H.
  rewrite Hstatus in H. cbn [default] in H. specialize (H Hge). cbn zeta in H.
  destruct H as (Hd & Hr & Hp & Hs). cbn zeta. repeat split; try assumption.
  exists (status_errorType status). split.
  { rewrite Hs. unfold samples_after, sample_of. now rewrite Hstatus. }
  unfold status_errorType.
  repeat split; intros; subst; try reflexivity.
  - destruct (status =? 401) eqn:E1; [apply N.eqb_eq in E1; lia|].
    destruct (status =? 403) eqn:E2; [apply N.eqb_eq in E2; lia|].
    destruct (status =? 404) eqn:E3; [apply N.eqb_eq in E3; lia|].
    destruct (status =? 429) eqn:E4; [apply N.eqb_eq in E4; lia|].
    destruct (status =? 499) eqn:E5; [apply N.eqb_eq in E5; lia|].
    destruct (500 <=? status) eqn:E6; [reflexivity|apply N.leb_gt in E6; lia].
  - destruct (status =? 401) eqn:E1; [apply N.eqb_eq in E1; subst; cbn in *; tauto|].
    destruct (status =? 403) eqn:E2; [apply N.eqb_eq in E2; subst; cbn in *; tauto|].
    destruct (status =? 404) eqn:E3; [apply N.eqb_eq in E3; subst; cbn in *; tauto|].
    destruct (status =? 429) eqn:E4; [apply N.eqb_eq in E4; subst; cbn in *; tauto|].
    destruct (status =? 499) eqn:E5; [apply N.eqb_eq in E5; subst; cbn in *; tauto|].
    destruct (500 <=? status) eqn:E6; [apply N.leb_le in E6; lia|reflexivity].
Qed.

(** X3. The content check takes a job page for an error page as soon as a phrase
    of the error table stands in it.  For a response with a status below 400
    and a row of the table made of plain words: when the words, with white
    space or nothing between them, stand in the text that is scanned (the
    title of the markup and the first 5000 code units of the body text, in
    lower case), the page is not routed, so no record and no task come of it; the sample, when
    samples are kept, is of the kind of the first row that matches.  A
    posting for a "Maintenance Technician" is dropped in this way. *)
Theorem pages_that_hold_an_error_phrase_are_not_scraped :
  forall (cfg : Config) (now : jsstr) (ctx : Context) (w : World)
         (ws : list string) (kind : ErrorType),
    In (spaced ws, kind) ERROR_PAGE_PATTERNS ->
    default 200 (c_statusCode ctx) < 400 ->
    phrase_occurs ws (scanned_text (c_body ctx) (Some (page w))) ->
    let w' := requestHandler cfg now ctx w in
    dataset w' = dataset w /\ requests w' = requests w /\ page w' = page w
    /\ exists kind' : ErrorType,
         first_pattern ERROR_PAGE_PATTERNS (scanned_text (c_body ctx) (Some (page w)))
         = Some kind'
         /\ errorSamples w'
            = (if saveErrorSamples cfg
               then errorSamples w ++
                      [{| e_url := request_url (c_request ctx);
                          e_errorType := kind';
                          e_errorMessage :=
                            js "Detected error pattern: " ++ js (errorType_name kind');
                          e_statusCode := Some (default 200 (c_statusCode ctx));
                          e_html := c_body ctx;
                          e_capturedAt := now |}]
               else errorSamples w).
Proof.
  intros cfg now ctx w ws kind Hrow Hlt Hinc.
  assert (Htest : test (spaced ws) (scanned_text (c_body ctx) (Some (page w))) = true).
  { apply test_spaced_iff. exact Hinc. }
  destruct (first_pattern_hit _ _ _ _ Hrow Htest) as (kind' & Hfirst).
  pose proof (requestHandler_content_error cfg now ctx w kind'
                (js "Detected error pattern: " ++ js (errorType_name kind')) Hlt) as H.
  unfold detectErrorInContent in H. rewrite Hfirst in H. specialize (H eq_refl).
  cbn zeta in H. destruct H as (Hd & Hr & Hp & Hs). cbn zeta.
  repeat split; try assumption. exists kind'. split; [exact Hfirst|].
  rewrite Hs. reflexivity.
Qed.

Lemma pages_that_hold_an_error_phrase_are_not_scraped_witness :
  let ctx := Samples.detail_context 200 Fixtures.maintenance_job_html in
  let w := Samples.empty_world Fixtures.maintenance_job_page in
  let w' := requestHandler {| saveErrorSamples := true |} Samples.clock ctx w in
  dataset w' = [] /\ requests w' = []
  /\ map e_errorType (errorSamples w') = [MAINTENANCE].
Proof.
  cbn zeta.
  destruct (pages_that_hold_an_error_phrase_are_not_scraped
              {| saveErrorSamples := true |} Samples.clock
              (Samples.detail_context 200 Fixtures.maintenance_job_html)
              (Samples.empty_world Fixtures.maintenance_job_page)
              ["maintenance"] MAINTENANCE
              ltac:(cbn; tauto) ltac:(reflexivity)
              ltac:(apply test_spaced_iff; vm_compute; reflexivity))
    as (Hd & Hr & _ & kind' & Hfirst & Hs).
  split; [exact Hd|]. split; [exact Hr|].
  rewrite Hs. vm_compute in Hfirst. injection Hfirst as <-. reflexivity.
Defined.

Lemma error_status_is_classified_and_not_routed_witness :
  let ctx := Samples.detail_context 503 (js "<html><body>Back soon</body></html>") in
  let w := Samples.empty_world (Samples.html_page [] [Samples.txt "Back soon"]) in
  let w' := requestHandler {| saveErrorSamples := true |} Samples.clock ctx w in
  dataset w' = [] /\ requests w' = []
  /\ map (fun e => (e_errorType e, e_errorMessage e)) (errorSamples w')
     = [(SERVER_ERROR, js "HTTP 503 error")].
Proof.
  cbn zeta.
  destruct (error_status_is_classified_and_not_routed
              {| saveErrorSamples := true |} Samples.clock
              (Samples.detail_context 503 (js "<html><body>Back soon</body></html>"))
              (Samples.empty_world (Samples.html_page [] [Samples.txt "Back soon"]))
              503 eq_refl ltac:(discriminate))
    as (Hd & Hr & _ & kind & Hs & _ & _ & _ & _ & _ & Hserver & _).
  split; [exact Hd|]. split; [exact Hr|].
  rewrite Hs, (Hserver ltac:(discriminate)). reflexivity.
Defined.

(** X4. A request that failed for good leaves no record and no task, and the
    page is not looked at.  When samples are kept, one sample is written,
    without a status, with a placeholder page that quotes the error; its
    kind is read off the text of the error, the first of "timeout",
    "ECONNREFUSED", "ENOTFOUND" and "certificate" that stands in it deciding,
    and REQUEST_FAILED when none does. *)
Theorem failed_request_leaves_a_sample_only :
  forall (cfg : Config) (now : jsstr) (request : Request) (errorMessage : jsstr) (w : World),
    let w' := failedRequestHandler cfg now request errorMessage w in
    dataset w' = dataset w /\ requests w' = requests w /\ page w' = page w
    /\ exists kind : ErrorType,
         errorSamples w'
         = (if saveErrorSamples cfg
            then errorSamples w ++
                   [{| e_url := request_url request;
                       e_errorType := kind;
                       e_errorMessage := errorMessage;
                       e_statusCode := None;
                       e_html := failed_page errorMessage;
                       e_capturedAt := now |}]
            else errorSamples w)
         /\ includes errorMessage (failed_page errorMessage) = true
         /\ (includes (js "timeout") errorMessage = true -> kind = TIMEOUT)
         /\ (includes (js "timeout") errorMessage = false ->
             includes (js "ECONNREFUSED") errorMessage = true -> kind = CONNECTION_REFUSED)
         /\ (includes (js "timeout") errorMessage = false ->
             includes (js "ECONNREFUSED") errorMessage = false ->
             includes (js "ENOTFOUND") errorMessage = true -> kind = DNS_ERROR)
         /\ (includes (js "timeout") errorMessage = false ->
             includes (js "ECONNREFUSED") errorMessage = false ->
             includes (js "ENOTFOUND") errorMessage = false ->
             includes (js "certificate") errorMessage = true -> kind = SSL_ERROR)
         /\ (kind = REQUEST_FAILED <->
             existsb (fun word => includes (js word) errorMessage)
               ["timeout"; "ECONNREFUSED"; "ENOTFOUND"; "certificate"] = false).
Proof.
  intros cfg now request errorMessage w. cbn zeta. unfold failedRequestHandler.
  split; [now destruct (saveErrorSamples cfg)|].
  split; [now destruct (saveErrorSamples cfg)|].
  split; [now destruct (saveErrorSamples cfg)|].
  exists (failed_errorType errorMessage).
  split; [now destruct (saveErrorSamples cfg)|].
  split.
  { apply includes_true_iff. unfold failed_page.
    exists (js "<!DOCTYPE html>" ++ [10] ++ js "<html>" ++ [10]
            ++ js "<head><title>Request Failed</title></head>" ++ [10]
            ++ js "<body>" ++ [10] ++ js "<h1>Request Failed</h1>" ++ [10]
            ++ js "<p>The request to this URL failed completely.</p>" ++ [10]
            ++ js "<p>Error: "),
           (js "</p>" ++ [10] ++ js "</body>" ++ [10] ++ js "</html>").
    now rewrite <- !app_assoc. }
  unfold failed_errorType. cbn [existsb].
  destruct (includes (js "timeout") errorMessage);
    destruct (includes (js "ECONNREFUSED") errorMessage);
    destruct (includes (js "ENOTFOUND") errorMessage);
    destruct (includes (js "certificate") errorMessage);
    cbn [orb]; repeat apply conj; try discriminate; try reflexivity;
    try (intros; discriminate); try (intros; reflexivity).
Qed.

(** ** The listing handler: hints and pagination *)

Lemma fold_left_prefix {A B : Type} (f : A -> B -> A) (P : list B -> A -> Prop) :
  (forall done x acc, P done acc -> P (done ++ [x]) (f acc x)) ->
  forall l done acc, P done acc -> P (done ++ l) (fold_left f l acc).
Proof.
  intros Hstep. induction l as [|x l IH]; intros done acc H.
  - now rewrite app_nil_r.
  - cbn [fold_left]. replace (done ++ x :: l) with ((done ++ [x]) ++ l)
      by now rewrite <- app_assoc.
    apply IH. now apply Hstep.
Qed.

Lemma from_first_card_more (baseUrl : jsstr) (cards : list loc) (x : loc) (s : Source) :
  from_first_card baseUrl cards s -> from_first_card baseUrl (cards ++ [x]) s.
Proof.
  intros (before & article & after & -> & H). exists before, article, (after ++ [x]).
  split; [now rewrite <- app_assoc|exact H].
Qed.

Lemma job_links_from_first_card (baseUrl : jsstr) (cards : list loc) :
  Forall (from_first_card baseUrl cards)
    (snd (fold_left (job_link_step baseUrl) cards (∅, []))).
Proof.
  pose (P := fun (done : list loc) (acc : gset jsstr * list Source) =>
    (forall u, u ∈ fst acc -> exists a, In a done /\ card_url baseUrl a = Some u)
    /\ (forall a u, In a done -> card_url baseUrl a = Some u -> u ∈ fst acc)
    /\ Forall (from_first_card baseUrl done) (snd acc)).
  assert (H : P ([] ++ cards) (fold_left (job_link_step baseUrl) cards (∅, []))).
  { apply fold_left_prefix.
    - intros done x [seen links] (Hseen & Hall & Hlinks). rewrite job_link_step_card.
      cbn [fst snd] in *.
      assert (Hmore : Forall (from_first_card baseUrl (done ++ [x])) links).
      { eapply List.Forall_impl; [|exact Hlinks]. intros s. apply from_first_card_more. }
      destruct (card_url baseUrl x) as [u|] eqn:Hcard.
      + destruct (decide (u ∈ seen)) as [Hin|Hnot]; cbn [fst snd].
        * repeat split; [| |exact Hmore].
          -- intros v Hv. destruct (Hseen v Hv) as (a & Ha & Hu). exists a.
             split; [apply in_or_app; now left|assumption].
          -- intros a v Ha Hv. apply in_app_or in Ha as [Ha|[<-|[]]]; [now apply (Hall a)|].
             rewrite Hcard in Hv. injection Hv as <-. exact Hin.
        * repeat split; cbn [fst snd].
          -- intros v Hv. apply elem_of_union in Hv as [Hv|Hv].
             ++ apply elem_of_singleton in Hv as ->. exists x.
                split; [apply in_or_app; right; now left|assumption].
             ++ destruct (Hseen v Hv) as (a & Ha & Hu). exists a.
                split; [apply in_or_app; now left|assumption].
          -- intros a v Ha Hv. apply elem_of_union.
             apply in_app_or in Ha as [Ha|[<-|[]]]; [right; now apply (Hall a)|].
             left. apply elem_of_singleton. rewrite Hcard in Hv. now injection Hv as <-.
          -- apply Forall_app. split; [exact Hmore|]. constructor; [|constructor].
             exists done, x, []. cbn [q_url q_label q_userData]. repeat split; try assumption.
             apply List.Forall_forall. intros a Ha Hu. apply Hnot. now apply (Hall a).
      + cbn [fst snd]. repeat split; [| |exact Hmore].
        * intros v Hv. destruct (Hseen v Hv) as (a & Ha & Hu). exists a.
          split; [apply in_or_app; now left|assumption].
        * intros a v Ha Hv. apply in_app_or in Ha as [Ha|[<-|[]]]; [now apply (Hall a)|].
          rewrite Hcard in Hv. discriminate Hv.
    - repeat split; cbn.
      + intros u Hu. now apply not_elem_of_empty in Hu.
      + intros a u [].
      + constructor. }
  exact (proj2 (proj2 H)).
Qed.


Lemma NoDup_app_one {A : Type} (l : list A) (x : A) :
  List.NoDup l -> ~ In x l -> List.NoDup (l ++ [x]).
Proof.
  induction 1 as [|y l Hy Hl IH]; intros Hx; cbn.
  - constructor; [intros []|constructor].
  - constructor.
    + intros Hin. apply in_app_or in Hin as [Hin|[<-|[]]]; [now apply Hy|].
      apply Hx. now left.
    + apply IH. intros Hin. apply Hx. now right.
Qed.

Lemma str_eqb_neq (a b : jsstr) : str_eqb a b = false <-> a <> b.
Proof.
  rewrite <- str_eqb_eq. destruct (str_eqb a b); split; congruence.
Qed.

Lemma truthy_some (s : jsstr) : truthy (Some s) = true <-> s <> [].
Proof. destruct s; cbn; split; congruence. Qed.

Lemma pagination_step_spec (baseUrl : jsstr) (seen : gset jsstr) (links : list jsstr)
    (link : loc) :
  (exists u, followed_to baseUrl link u
             /\ pagination_step baseUrl (seen, links) link
                = if decide (u ∈ seen) then (seen, links)
                  else ({[u]} ∪ seen, links ++ [u]))
  \/ ((forall u, ~ followed_to baseUrl link u)
      /\ pagination_step baseUrl (seen, links) link = (seen, links)).
Proof.
  unfold pagination_step, followed_to. cbn [existsb]. rewrite orb_false_r.
  destruct (attr "href" [link]) as [href|] eqn:Hattr.
  2:{ right. split; [|reflexivity]. intros u (h & Hh & _). discriminate Hh. }
  destruct (truthy (Some href)) eqn:Ht; cbn [negb].
  2:{ right. split; [|reflexivity]. intros u (h & [= <-] & Hne & _).
      apply truthy_some in Hne. congruence. }
  set (text := toLowerCase (trim (text_of (l_node link)))).
  destruct (includes (js "prev") text || includes (js "<<") text || includes (js "back") text)
    eqn:Hprev.
  { right. split; [|reflexivity]. intros u (h & _ & _ & _ & Hp & _).
    rewrite <- orb_assoc in Hprev. congruence. }
  destruct (str_eqb href (js "#") || str_eqb href []) eqn:Hcur.
  { right. split; [|reflexivity]. intros u (h & [= <-] & Hne & Hhash & _).
    apply orb_true_iff in Hcur as [Hcur|Hcur]; apply str_eqb_eq in Hcur; congruence. }
  left. exists (resolve baseUrl href). split; [|reflexivity].
  apply orb_false_iff in Hcur as [Hhash Hempty]. apply str_eqb_neq in Hhash, Hempty.
  exists href. rewrite <- orb_assoc in Hprev. now repeat split.
Qed.

Lemma followed_to_one (baseUrl : jsstr) (link : loc) (u v : jsstr) :
  followed_to baseUrl link u -> followed_to baseUrl link v -> u = v.
Proof. intros (h & Hh & _ & _ & _ & ->) (h' & Hh' & _ & _ & _ & ->). congruence. Qed.

Lemma collect_pagination_spec (baseUrl : jsstr) (d : document) :
  List.NoDup (collect_pagination baseUrl d)
  /\ forall u, In u (collect_pagination baseUrl d)
               <-> exists link, In link (select pagination_anchors d)
                                /\ followed_to baseUrl link u.
Proof.
  unfold collect_pagination.
  pose (P := fun (done : list loc) (acc : gset jsstr * list jsstr) =>
    (forall u, u ∈ fst acc <-> In u (snd acc))
    /\ List.NoDup (snd acc)
    /\ (forall u, In u (snd acc) <-> exists link, In link done /\ followed_to baseUrl link u)).
  assert (H : P ([] ++ select pagination_anchors d)
                (fold_left (pagination_step baseUrl) (select pagination_anchors d) (∅, []))).
  { apply fold_left_prefix.
    - intros done x [seen links] (Hseen & Hnodup & Hlinks). cbn [fst snd] in *.
      assert (Hsame : (forall u, followed_to baseUrl x u -> In u links) ->
                      P (done ++ [x]) (seen, links)).
      { intros Hx. split; [exact Hseen|]. split; [exact Hnodup|]. cbn [fst snd].
        intros u. split.
        - intros Hu. apply Hlinks in Hu as (l & Hl & Hf). exists l.
          split; [apply in_or_app; now left|assumption].
        - intros (l & Hl & Hf). apply in_app_or in Hl as [Hl|[<-|[]]].
          + apply Hlinks. now exists l.
          + now apply Hx. }
      destruct (pagination_step_spec baseUrl seen links x) as [(u & Hu & ->)|[Hnone ->]].
      + destruct (decide (u ∈ seen)) as [Hin|Hnot].
        * apply Hsame. intros v Hv. rewrite (followed_to_one _ _ _ _ Hv Hu). now apply Hseen.
        * split; [|split]; cbn [fst snd].
          -- intros v. split.
             ++ intros Hv. apply in_or_app. apply elem_of_union in Hv as [Hv|Hv].
                ** apply elem_of_singleton in Hv as ->. right. now left.
                ** left. now apply Hseen.
             ++ intros Hv. apply elem_of_union. apply in_app_or in Hv as [Hv|[<-|[]]].
                ** right. now apply Hseen.
                ** left. now apply elem_of_singleton.
          -- apply NoDup_app_one; [assumption|]. intros Hv. apply Hnot. now apply Hseen.
          -- intros v. split.
             ++ intros Hv. apply in_app_or in Hv as [Hv|[<-|[]]].
                ** apply Hlinks in Hv as (l & Hl & Hf). exists l.
                   split; [apply in_or_app; now left|assumption].
                ** exists x. split; [apply in_or_app; right; now left|assumption].
             ++ intros (l & Hl & Hf). apply in_or_app.
                apply in_app_or in Hl as [Hl|[<-|[]]].
                ** left. apply Hlinks. now exists l.
                ** right. left. now apply (followed_to_one baseUrl x).
      + apply Hsame. intros v Hv. now destruct (Hnone v).
    - split; [|split]; cbn.
      + intros u. split; [intros Hu; now apply not_elem_of_empty in Hu|intros []].
      + constructor.
      + intros u. split; [intros []|intros (l & [] & _)]. }
  destruct H as (_ & Hnodup & Hlinks). cbn [app] in Hlinks. split; assumption.
Qed.


(** ** The default handler *)

Lemma existsb_str_eqb (x : jsstr) (l : list jsstr) : existsb (str_eqb x) l = true <-> In x l.
Proof.
  rewrite existsb_exists. split.
  - intros (y & Hy & He). apply str_eqb_eq in He. now subst.
  - intros H. exists x. split; [assumption|now apply str_eqb_eq].
Qed.

Lemma scan_links_spec (sel : selector) (baseUrl : jsstr) (d : document) :
  List.NoDup (scan_links sel baseUrl d)
  /\ forall u, In u (scan_links sel baseUrl d)
               <-> exists a, In a (select sel d) /\ linked_to baseUrl a u.
Proof.
  unfold scan_links.
  set (step := fun (links : list jsstr) (el : loc) => _).
  pose (P := fun (done : list loc) (links : list jsstr) =>
    List.NoDup links
    /\ (forall u, In u links <-> exists a, In a done /\ linked_to baseUrl a u)).
  assert (H : P ([] ++ select sel d) (fold_left step (select sel d) [])).
  { apply fold_left_prefix.
    - intros done x links (Hnodup & Hlinks).
      assert (Hsame : (forall u, linked_to baseUrl x u -> In u links) ->
                      P (done ++ [x]) links).
      { intros Hx. split; [assumption|]. intros u. split.
        - intros Hu. apply Hlinks in Hu as (a & Ha & Hl). exists a.
          split; [apply in_or_app; now left|assumption].
        - intros (a & Ha & Hl). apply in_app_or in Ha as [Ha|[<-|[]]].
          + apply Hlinks. now exists a.
          + now apply Hx. }
      unfold step. destruct (attr "href" [x]) as [href|] eqn:Hattr.
      2:{ apply Hsame. intros u (h & Hh & _). rewrite Hattr in Hh. discriminate Hh. }
      destruct (truthy (Some href)) eqn:Ht.
      2:{ apply Hsame. intros u (h & Hh & Hne & _). rewrite Hattr in Hh. injection Hh as <-.
          apply truthy_some in Hne. rewrite Hne in Ht. discriminate Ht. }
      set (u := if startsWith (js "http") href then href else baseUrl ++ href).
      assert (Hu : linked_to baseUrl x u).
      { exists href. repeat split; [assumption|now apply truthy_some]. }
      assert (Honly : forall v, linked_to baseUrl x v -> v = u).
      { intros v (h & Hh & _ & ->). unfold u. rewrite Hattr in Hh. now injection Hh as <-. }
      unfold push_new. destruct (existsb (str_eqb u) links) eqn:Hex.
      + apply Hsame. intros v Hv. rewrite (Honly v Hv). now apply existsb_str_eqb.
      + assert (Hnot : ~ In u links).
        { intros Hin. apply existsb_str_eqb in Hin. rewrite Hin in Hex. discriminate Hex. }
        split.
        * now apply NoDup_app_one.
        * intros v. split.
          -- intros Hv. apply in_app_or in Hv as [Hv|[<-|[]]].
             ++ apply Hlinks in Hv as (a & Ha & Hl). exists a.
                split; [apply in_or_app; now left|assumption].
             ++ exists x. split; [apply in_or_app; right; now left|assumption].
          -- intros (a & Ha & Hl). apply in_or_app.
             apply in_app_or in Ha as [Ha|[<-|[]]].
             ++ left. apply Hlinks. now exists a.
             ++ right. left. symmetry. now apply Honly.
    - split; [constructor|]. intros u. split; [intros []|intros (a & [] & _)]. }
  exact H.
Qed.

(** X7. The default handler only feeds the queue.  It hands over one JOB_DETAIL
    task for each URL the job anchors of the page lead to, then one LISTING
    task for each URL the search anchors lead to, none of them twice within
    its group and all without hints; an [href] that does not begin with
    "http" is put right behind the base URL.  It emits no record, writes no
    sample and leaves the page as it is. *)
Theorem default_handler_enqueues_each_link_once :
  forall (request : Request) (w : World),
    let baseUrl := getBaseUrl (request_url request) in
    let w' := defaultHandler request w in
    exists jobs listings : list jsstr,
      requests w' = requests w ++ map detail_task jobs ++ map listing_task listings
      /\ List.NoDup jobs
      /\ List.NoDup listings
      /\ (forall u, In u jobs
                    <-> exists a, In a (select job_anchors (page w)) /\ linked_to baseUrl a u)
      /\ (forall u, In u listings
                    <-> exists a, In a (select listing_anchors (page w))
                                  /\ linked_to baseUrl a u)
      /\ dataset w' = dataset w
      /\ errorSamples w' = errorSamples w
      /\ page w' = page w.
Proof.
  intros request w. cbn zeta. unfold defaultHandler.
  set (baseUrl := getBaseUrl (request_url request)).
  fold job_anchors. fold listing_anchors.
  destruct (scan_links_spec job_anchors baseUrl (page w)) as (Hn1 & Hl1).
  destruct (scan_links_spec listing_anchors baseUrl (page w)) as (Hn2 & Hl2).
  exists (scan_links job_anchors baseUrl (page w)),
    (scan_links listing_anchors baseUrl (page w)).
  repeat split; try assumption; try apply Hl1; try apply Hl2;
    destruct (scan_links job_anchors baseUrl (page w)) as [|s l];
    destruct (scan_links listing_anchors baseUrl (page w)) as [|u us]; cbn;
    rewrite ?app_nil_r, <- ?app_assoc; reflexivity.
Qed.

Lemma listingHandler_requests (request : Request) (w : World) :
  requests (listingHandler request w)
  = requests w ++ collect_job_links (getBaseUrl (request_url request)) (page w)
      ++ map listing_task (collect_pagination (getBaseUrl (request_url request)) (page w)).
Proof.
  unfold listingHandler.
  destruct (collect_job_links _ (page w)) as [|s l];
    destruct (collect_pagination _ (page w)) as [|u us]; cbn;
    rewrite ?app_nil_r, <- ?app_assoc; reflexivity.
Qed.

Lemma defaultHandler_requests (request : Request) (w : World) :
  requests (defaultHandler request w)
  = requests w
      ++ map detail_task (scan_links job_anchors (getBaseUrl (request_url request)) (page w))
      ++ map listing_task
           (scan_links listing_anchors (getBaseUrl (request_url request)) (page w)).
Proof.
  unfold defaultHandler. fold job_anchors. fold listing_anchors.
  destruct (scan_links job_anchors _ (page w)) as [|s l];
    destruct (scan_links listing_anchors _ (page w)) as [|u us]; cbn;
    rewrite ?app_nil_r, <- ?app_assoc; reflexivity.
Qed.

(** ** Absolute URLs *)

Lemma absolute_app (u v : jsstr) : absolute u -> absolute (u ++ v).
Proof.
  unfold absolute. rewrite !startsWith_true_iff. intros (b & ->). exists (b ++ v).
  now rewrite <- app_assoc.
Qed.

Lemma absolute_or_based (baseUrl href tail : jsstr) :
  absolute baseUrl ->
  absolute (if startsWith (js "http") href then href else baseUrl ++ tail).
Proof.
  intros H. destruct (startsWith (js "http") href) eqn:E; [exact E|now apply absolute_app].
Qed.

Lemma absolute_resolve (baseUrl href : jsstr) : absolute baseUrl -> absolute (resolve baseUrl href).
Proof. intros H. unfold resolve. now apply absolute_or_based. Qed.

Lemma absolute_linked (baseUrl : jsstr) (a : loc) (u : jsstr) :
  absolute baseUrl -> linked_to baseUrl a u -> absolute u.
Proof. intros H (href & _ & _ & ->). now apply absolute_or_based. Qed.

Lemma absolute_applyUrl (d : document) (url u : jsstr) :
  absolute (getBaseUrl url) -> find_applyUrl d url = Some u -> absolute u.
Proof.
  intros H Hu. unfold find_applyUrl in Hu. apply first_some_in in Hu as (el & _ & Hu).
  destruct (attr "href" [el]) as [href|]; [|discriminate].
  destruct (truthy (Some href)); [|discriminate]. injection Hu as <-.
  now apply absolute_or_based.
Qed.

(** X8. The crawl stays on absolute URLs.  When the base URL of the request
    (its scheme and host) begins with "http", so does the URL of every task
    its handler hands to the queue, whatever the label of the request and
    whatever the [href]s of the page look like, and so does the apply link
    of a record that has one; the record carries the URL of the request. *)
Theorem handlers_enqueue_absolute_urls :
  forall (now : jsstr) (request : Request) (w : World),
    absolute (getBaseUrl (request_url request)) ->
    let w' := router now request w in
    (exists tasks : list Source,
       requests w' = requests w ++ tasks
       /\ Forall (fun s => absolute (q_url s)) tasks)
    /\ (exists jobs : list ExtractedJob,
          dataset w' = dataset w ++ jobs
          /\ Forall (fun job => url job = request_url request
                                /\ forall u, applyUrl job = Some u -> absolute u) jobs).
Proof.
  intros now request w Hbase. cbn zeta. unfold router.
  destruct (r_label request) as [[|]|].
  - split.
    + eexists. split; [apply listingHandler_requests|].
      destruct (collect_pagination_spec (getBaseUrl (request_url request)) (page w))
        as (_ & Hpages).
      apply Forall_app. split.
      * eapply List.Forall_impl; [|apply job_links_from_first_card].
        intros s (before & article & after & _ & Hcard & _). unfold card_url in Hcard.
        destruct (attr "href" (find card_link article)) as [href|]; [|discriminate].
        destruct (truthy (Some href)); [|discriminate]. injection Hcard as <-.
        now apply absolute_resolve.
      * apply List.Forall_forall. intros s Hs. apply in_map_iff in Hs as (u & <- & Hu).
        apply Hpages in Hu as (link & _ & href & _ & _ & _ & _ & ->).
        now apply absolute_resolve.
    + exists []. destruct (listingHandler_frame request w) as (Hd & _).
      rewrite Hd, app_nil_r. split; [reflexivity|constructor].
  - split.
    + exists []. cbn. rewrite app_nil_r. split; [reflexivity|constructor].
    + eexists [_]. split; [reflexivity|]. constructor; [|constructor].
      cbn [build_job url applyUrl]. split; [reflexivity|].
      intros u Hu. now apply (absolute_applyUrl _ _ _ Hbase Hu).
  - split.
    + eexists. split; [apply defaultHandler_requests|].
      destruct (scan_links_spec job_anchors (getBaseUrl (request_url request)) (page w))
        as (_ & Hjobs).
      destruct (scan_links_spec listing_anchors (getBaseUrl (request_url request)) (page w))
        as (_ & Hlistings).
      apply Forall_app. split; apply List.Forall_forall; intros s Hs;
        apply in_map_iff in Hs as (u & <- & Hu).
      * apply Hjobs in Hu as (a & _ & Hl). exact (absolute_linked _ a u Hbase Hl).
      * apply Hlistings in Hu as (a & _ & Hl). exact (absolute_linked _ a u Hbase Hl).
    + exists []. destruct (defaultHandler_frame request w) as (Hd & _).
      rewrite Hd, app_nil_r. split; [reflexivity|constructor].
Qed.

Lemma handlers_enqueue_absolute_urls_witness :
  let request := Samples.listing_request "https://acme.avature.net/careers/SearchJobs" in
  let w' := router Samples.clock request (Samples.empty_world Samples.listing_with_duplicate) in
  absolute (getBaseUrl (request_url request))
  /\ (exists tasks : list Source,
        requests w' = [] ++ tasks /\ Forall (fun s => absolute (q_url s)) tasks)
  /\ List.length (requests w') = 3%nat.
Proof.
  cbn zeta.
  assert (Hbase : absolute (getBaseUrl (request_url
                    (Samples.listing_request "https://acme.avature.net/careers/SearchJobs")))).
  { reflexivity. }
  split; [exact Hbase|]. split; [|vm_compute; reflexivity].
  exact (proj1 (handlers_enqueue_absolute_urls Samples.clock
                  (Samples.listing_request "https://acme.avature.net/careers/SearchJobs")
                  (Samples.empty_world Samples.listing_with_duplicate) Hbase)).
Defined.

(** ** URLs *)

Lemma den_job_detail (total : nat) (t t' : jsstr) (c c' : caps) :
  den total job_detail_re t c t' c'
  <-> exists w slug id,
        t = w ++ slug ++ [47] ++ id ++ t'
        /\ reads_as "/careers/JobDetail/" w
        /\ (forallb (fun x => negb (x =? 47)) slug = true /\ (1 <= jlen slug)%nat)
        /\ (forallb is_digit id = true /\ (1 <= jlen id)%nat)
        /\ c' = c.
Proof.
  unfold job_detail_re. rewrite den_seq_of_cons. split.
  - intros (s1 & c1 & H1 & H). apply den_lit_i in H1 as (w & -> & Hw & ->).
    apply den_seq_of_cons in H as (s2 & c2 & H2 & H).
    apply den_plus_chr in H2 as (slug & -> & Hslug & ->).
    apply den_seq_of_cons in H as (s3 & c3 & H3 & H).
    apply den_chr in H3 as (-> & ->).
    apply den_seq_of_cons in H as (s4 & c4 & H4 & H).
    apply den_plus_chr in H4 as (id & -> & Hid & ->). destruct H as [-> ->].
    exists w, slug, id. repeat split; try tauto.
    destruct Hslug as [Hslug _]. rewrite <- Hslug. apply forallb_same.
    intros x. cbn. now rewrite orb_false_r.
  - intros (w & slug & id & -> & Hw & Hslug & Hid & ->).
    exists (slug ++ [47] ++ id ++ t'), c. split; [apply den_lit_i; now exists w|].
    apply den_seq_of_cons. exists ([47] ++ id ++ t'), c. split.
    { apply den_plus_chr. exists slug. repeat split; try tauto.
      destruct Hslug as [Hslug _]. rewrite <- Hslug. apply forallb_same.
      intros x. cbn. now rewrite orb_false_r. }
    apply den_seq_of_cons. exists (id ++ t'), c. split; [now apply den_chr|].
    apply den_seq_of_cons. exists t', c. split; [|now split].
    apply den_plus_chr. exists id. now repeat split.
Qed.

Lemma test_job_detail (url : jsstr) : test job_detail_re url = true <-> detail_url url.
Proof.
  rewrite test_true_iff by reflexivity. split.
  - intros (p & t & t' & c & -> & H). apply den_job_detail in H as (w & slug & id & -> & H).
    exists p, w, slug, id, t'. tauto.
  - intros (p & w & slug & id & q & -> & H).
    exists p, (w ++ slug ++ [47] ++ id ++ q), q, []. split; [reflexivity|].
    apply den_job_detail. exists w, slug, id. tauto.
Qed.

Lemma test_listing (url : jsstr) : test listing_re url = true <-> listing_url url.
Proof.
  rewrite test_true_iff by reflexivity. split.
  - intros (p & t & t' & c & -> & H). apply den_lit_i in H as (w & -> & Hw & _).
    now exists p, w, t'.
  - intros (p & w & q & -> & Hw). exists p, (w ++ q), q, []. split; [reflexivity|].
    apply den_lit_i. now exists w.
Qed.

(** X9. The label of a URL.  A URL is labelled JOB_DETAIL exactly when
    /careers/JobDetail/, a slug, a slash and a digit stand somewhere in it,
    LISTING exactly when they do not and /careers/SearchJobs stands in it,
    and gets no label otherwise; the letter case of the two path words does
    not matter, and the detail shape wins over the listing shape. *)
Theorem route_label_follows_the_shape_of_the_url :
  forall url : jsstr,
    (getRouteLabel url = Some JOB_DETAIL <-> detail_url url)
    /\ (getRouteLabel url = Some LISTING <-> ~ detail_url url /\ listing_url url)
    /\ (getRouteLabel url = None <-> ~ detail_url url /\ ~ listing_url url).
Proof.
  intros url. unfold getRouteLabel.
  rewrite <- test_job_detail, <- test_listing.
  destruct (test job_detail_re url), (test listing_re url);
    repeat split; try congruence; try tauto; intros [? ?]; congruence.
Qed.

Lemma take_until_app (stop : N -> bool) (a b : jsstr) :
  forallb (fun c => negb (stop c)) a = true ->
  take_until stop (a ++ b) = a ++ take_until stop b.
Proof.
  induction a as [|x a IH]; [reflexivity|]. cbn [forallb app take_until].
  intros H. apply andb_true_iff in H as [Hx Ha]. apply negb_true_iff in Hx. rewrite Hx.
  now rewrite IH.
Qed.

Lemma take_until_after_host (rest : jsstr) :
  after_host rest ->
  take_until (fun c => (c =? 47) || (c =? 63) || (c =? 35)) rest = [].
Proof.
  intros [->|(c & r & -> & Hc)]; [reflexivity|]. cbn [take_until].
  destruct Hc as [<-|[<-|[<-|[]]]]; reflexivity.
Qed.

Lemma split_on_parts (c : N) (s : jsstr) : split_on c s <> [].
Proof.
  induction s as [|x s IH]; [discriminate|]. cbn [split_on].
  destruct (split_on c s) as [|w ws]; [discriminate|]. now destruct (x =? c).
Qed.

Lemma split_on_app (c : N) (a b : jsstr) :
  forallb (fun x => negb (x =? c)) a = true ->
  split_on c (a ++ c :: b) = a :: split_on c b.
Proof.
  induction a as [|x a IH]; intros H.
  - cbn [app split_on]. rewrite N.eqb_refl. pose proof (split_on_parts c b) as Hb.
    now destruct (split_on c b).
  - cbn [forallb] in H. apply andb_true_iff in H as [Hx Ha]. apply negb_true_iff in Hx.
    cbn [app split_on]. rewrite (IH Ha), Hx. reflexivity.
Qed.

Lemma host_label_plain (l : jsstr) (stop : N -> bool) :
  host_label l ->
  (forall c, is_lower c || is_digit c || (c =? 45) = true -> stop c = false) ->
  forallb (fun c => negb (stop c)) l = true.
Proof.
  intros [Hl _] Hstop. apply forallb_forall. intros c Hc.
  rewrite forallb_forall in Hl. now rewrite (Hstop c (Hl c Hc)).
Qed.

Ltac label_char :=
  let c := fresh "c" in let H := fresh "H" in
  intros c H; cbn beta;
  repeat match goal with
         | |- context [N.eqb ?a ?b] =>
             let E := fresh "E" in
             destruct (N.eqb a b) eqn:E;
             [apply N.eqb_eq in E; subst; vm_compute in H; discriminate H|]
         end; reflexivity.

Lemma scheme_of_url (scheme x : jsstr) :
  scheme = js "http" \/ scheme = js "https" ->
  take_until (N.eqb 58) (scheme ++ js "://" ++ x) = scheme
  /\ drop_until (N.eqb 58) (scheme ++ js "://" ++ x) = 58 :: 47 :: 47 :: x.
Proof. intros [-> | ->]; split; reflexivity. Qed.

Lemma new_URL_of_tenant (scheme label rest : jsstr) :
  scheme = js "http" \/ scheme = js "https" ->
  host_label label ->
  after_host rest ->
  new_URL (scheme ++ js "://" ++ label ++ js ".avature.net" ++ rest)
  = {| protocol := scheme ++ js ":";
       host := label ++ js ".avature.net";
       hostname := label ++ js ".avature.net" |}.
Proof.
  intros Hscheme Hlabel Hrest.
  assert (Hhost : take_until (fun c => (c =? 47) || (c =? 63) || (c =? 35))
                    (label ++ js ".avature.net" ++ rest)
                  = label ++ js ".avature.net").
  { rewrite take_until_app by (apply (host_label_plain _ _ Hlabel); label_char).
    rewrite (take_until_app _ (js ".avature.net")) by reflexivity.
    now rewrite (take_until_after_host _ Hrest), app_nil_r. }
  assert (Hname : take_until (N.eqb 58) (label ++ js ".avature.net")
                  = label ++ js ".avature.net").
  { rewrite take_until_app by (apply (host_label_plain _ _ Hlabel); label_char).
    reflexivity. }
  destruct (scheme_of_url scheme (label ++ js ".avature.net" ++ rest) Hscheme)
    as [Htake Hdrop].
  unfold new_URL. rewrite Htake, Hdrop, Hhost, Hname. reflexivity.
Qed.

(** X10. The base URL and the subdomain of a tenant's URL.  For a URL made of
    http or https, a host [label.avature.net] whose label is written in
    lower-case letters, digits and hyphens (and is no Punycode label), and
    then nothing, a path, a
    query or a fragment: the base URL is the URL up to the end of the host,
    and the subdomain is the label. *)
Theorem tenant_url_has_its_label_as_subdomain :
  forall scheme label rest : jsstr,
    scheme = js "http" \/ scheme = js "https" ->
    host_label label ->
    after_host rest ->
    let url := scheme ++ js "://" ++ label ++ js ".avature.net" ++ rest in
    getBaseUrl url = scheme ++ js "://" ++ label ++ js ".avature.net"
    /\ getSubdomain url = label.
Proof.
  intros scheme label rest Hscheme Hlabel Hrest. cbn zeta.
  unfold getBaseUrl, getSubdomain.
  rewrite (new_URL_of_tenant scheme label rest Hscheme Hlabel Hrest).
  cbn [protocol host hostname]. split.
  - rewrite <- !app_assoc. reflexivity.
  - change (js ".avature.net") with (46 :: js "avature.net").
    rewrite split_on_app; [reflexivity|].
    apply (host_label_plain label (fun x => x =? 46) Hlabel). label_char.
Qed.

Lemma tenant_url_has_its_label_as_subdomain_witness :
  getBaseUrl (js "https://acme.avature.net/careers/JobDetail/Ramp-Agent/7")
  = js "https://acme.avature.net"
  /\ getSubdomain (js "https://acme.avature.net/careers/JobDetail/Ramp-Agent/7") = js "acme".
Proof.
  apply (tenant_url_has_its_label_as_subdomain (js "https") (js "acme")
           (js "/careers/JobDetail/Ramp-Agent/7")).
  - right. reflexivity.
  - split; [reflexivity|]. split; [vm_compute; lia|reflexivity].
  - right. eexists _, _. split; [reflexivity|]. left. reflexivity.
Defined.

(** ** Names of companies *)

(** An anchored pattern matches the whole text. *)
Lemma p_is_nil (p t : jsstr) : jlen t = jlen (p ++ t) -> p = [].
Proof.
  unfold jlen. rewrite length_app. destruct p; [reflexivity|]. cbn. lia.
Qed.

Lemma test_whole_word (w : string) (t : jsstr) :
  test (seq_of [Bol; lit_i w; Eol]) t = true <-> spelled [w] t.
Proof.
  rewrite test_true_iff by (cbn; unfold lit_i; now rewrite plain_word_i). cbn [spelled]. split.
  - intros (p & u & u' & c & Hs & H).
    apply den_seq_of_cons in H as (s1 & c1 & (Hlen & -> & ->) & H).
    apply den_seq_of_cons in H as (s2 & c2 & H2 & (-> & -> & ->)).
    apply den_lit_i in H2 as (b & -> & Hb & ->). rewrite Hs in Hlen.
    apply p_is_nil in Hlen as ->. subst t. cbn [app]. now rewrite app_nil_r.
  - intros Hw. exists [], t, [], []. split; [reflexivity|].
    apply den_seq_of_cons. exists t, []. split; [now repeat split|].
    apply den_seq_of_cons. exists [], []. split; [|now repeat split].
    apply den_lit_i. exists t. rewrite app_nil_r. now repeat split.
Qed.

Lemma test_whole_pair (w1 w2 : string) (t : jsstr) :
  test (seq_of [Bol; lit_i w1; star space; lit_i w2; Eol]) t = true <-> spelled [w1; w2] t.
Proof.
  rewrite test_true_iff
    by (cbn; unfold lit_i; now rewrite !plain_word_i).
  cbn [spelled]. split.
  - intros (p & u & u' & c & Hs & H).
    apply den_seq_of_cons in H as (s1 & c1 & (Hlen & -> & ->) & H).
    apply den_seq_of_cons in H as (s2 & c2 & H2 & H).
    apply den_seq_of_cons in H as (s3 & c3 & H3 & H).
    apply den_seq_of_cons in H as (s4 & c4 & H4 & (-> & -> & ->)).
    apply den_lit_i in H2 as (a & -> & Ha & ->).
    apply (den_star_chr (jlen t)) in H3 as (gap & -> & Hgap & ->).
    apply den_lit_i in H4 as (b & -> & Hb & ->). rewrite Hs in Hlen.
    apply p_is_nil in Hlen as ->. subst t. cbn [app]. rewrite app_nil_r.
    now exists a, gap, b.
  - intros (a & gap & b & -> & Ha & Hgap & Hb).
    exists [], (a ++ gap ++ b), [], []. split; [reflexivity|].
    apply den_seq_of_cons. exists (a ++ gap ++ b), []. split; [now repeat split|].
    apply den_seq_of_cons. exists (gap ++ b), []. split.
    { apply den_lit_i. exists a. now repeat split. }
    apply den_seq_of_cons. exists b, []. split.
    { apply (den_star_chr (jlen (a ++ gap ++ b))). exists gap. now repeat split. }
    apply den_seq_of_cons. exists [], []. split; [|now repeat split].
    apply den_lit_i. exists b. rewrite app_nil_r. now repeat split.
Qed.

(** [isCompanyName] tells the names of the four companies, in any letter
    case and with white space around them. *)
Lemma isCompanyName_iff (text : jsstr) :
  isCompanyName text = true <-> company_name (trim text).
Proof.
  unfold isCompanyName, companyPatterns, company_name. cbn [existsb].
  rewrite !orb_true_iff, !test_whole_word, test_whole_pair. split.
  - intros [H|[H|[H|[H|H]]]]; [| | | |discriminate H].
    + now apply Exists_cons_hd.
    + now apply Exists_cons_tl, Exists_cons_hd.
    + now apply Exists_cons_tl, Exists_cons_tl, Exists_cons_hd.
    + now apply Exists_cons_tl, Exists_cons_tl, Exists_cons_tl, Exists_cons_hd.
  - intros H. inversion H as [? ? H1|? ? H1]; subst; [now left|].
    inversion H1 as [? ? H2|? ? H2]; subst; [right; now left|].
    inversion H2 as [? ? H3|? ? H3]; subst; [right; right; now left|].
    inversion H3 as [? ? H4|? ? H4]; subst; [right; right; right; now left|].
    inversion H4.
Qed.

(** X11. Headings that name the company are skipped.  [isCompanyName] holds
    of a text exactly when, white space at its ends apart, it is "bloomberg",
    "ucla health" (with any white space or none between the two words),
    "unifi" or "avature", in any letter case.  A title taken from a heading
    selector or from the scan of the h1 elements is never such a name: a
    heading that is one is passed over, and the cascade goes on with the
    next selector or the next h1.  So when the og:title, the page title and
    the field value give no title, a company name can only come back as the
    slug of the URL. *)
Theorem headings_that_name_a_company_are_passed_over :
  (forall text : jsstr, isCompanyName text = true <-> company_name (trim text))
  /\ (forall (d : document) (t : jsstr),
        title_from_selectors d = Some t -> isCompanyName t = false)
  /\ (forall (d : document) (t : jsstr),
        title_from_h1 d = Some t -> isCompanyName t = false)
  /\ (forall (d : document) (sel : selector) (rest : list selector) (el : loc) (l : list loc),
        select sel d = el :: l ->
        isCompanyName (trim (text_of (l_node el))) = true ->
        first_some (selector_candidate d) (sel :: rest)
        = first_some (selector_candidate d) rest)
  /\ (forall (el : loc) (rest : list loc),
        isCompanyName (trim (text_of (l_node el))) = true ->
        first_some h1_candidate (el :: rest) = first_some h1_candidate rest)
  /\ (forall (d : document) (url t : jsstr),
        title_from_og d = None ->
        title_from_page_title d = None ->
        title_from_field_value d = None ->
        getJobTitle d url = Some t ->
        isCompanyName t = true ->
        title_from_selectors d = None /\ title_from_h1 d = None
        /\ title_from_url url = Some t).
Proof.
  split; [exact isCompanyName_iff|].
  split.
  { intros d t H. apply first_some_in in H as (sel & _ & H).
    now apply (selector_candidate_not_company d sel). }
  split.
  { intros d t H. apply first_some_in in H as (el & _ & H).
    now apply (h1_candidate_not_company el). }
  split.
  { intros d sel rest el l Hsel Hname. apply first_some_skip.
    unfold selector_candidate. rewrite Hsel.
    now rewrite (company_name_is_no_heading _ Hname). }
  split.
  { intros el rest Hname. apply first_some_skip. unfold h1_candidate.
    rewrite (company_name_is_no_heading _ Hname). now destruct (_ || _). }
  intros d url t Hog Hpage Hfield Htitle Hname.
  unfold getJobTitle in Htitle. rewrite Hog, Hpage, Hfield in Htitle.
  destruct (title_from_selectors d) as [t1|] eqn:E1.
  - injection Htitle as ->. apply first_some_in in E1 as (sel & _ & E1).
    apply selector_candidate_not_company in E1. congruence.
  - destruct (title_from_h1 d) as [t2|] eqn:E2.
    + injection Htitle as ->. apply first_some_in in E2 as (el & _ & E2).
      apply h1_candidate_not_company in E2. congruence.
    + repeat split. assumption.
Qed.

Lemma headings_that_name_a_company_are_passed_over_witness :
  title_from_h1 Samples.branded_heading_page = Some (js "Senior Software Engineer")
  /\ isCompanyName (js "Senior Software Engineer") = false
  /\ isCompanyName (js " BloomBerg ") = true
  /\ company_name (trim (js " BloomBerg ")).
Proof.
  assert (H : title_from_h1 Samples.branded_heading_page
              = Some (js "Senior Software Engineer")) by (vm_compute; reflexivity).
  assert (Hname : isCompanyName (js " BloomBerg ") = true) by (vm_compute; reflexivity).
  split; [exact H|]. split.
  - exact (proj1 (proj2 (proj2 headings_that_name_a_company_are_passed_over)) _ _ H).
  - split; [exact Hname|].
    exact (proj1 (proj1 headings_that_name_a_company_are_passed_over (js " BloomBerg ")) Hname).
Defined.

(** ** Login walls *)

(** X12. Login walls.  The content check reports AUTH_REQUIRED exactly when
    the scanned text (the title of the markup and the first 5000 code units
    of the body text, in lower case) holds "login required", "sign in
    required" or "authentication required", the words in any letter case
    with white space or nothing between them, and none of the phrases of the
    eight rows before: "page not found", "404 error", "not found", "access
    denied", "forbidden", "403 error", "unauthorized", "401 error".  Such a
    page, served with a status below 400, is not routed: no record, no task,
    the document untouched; when error samples are kept, one sample of kind
    AUTH_REQUIRED is written. *)
Theorem login_walls_are_told_by_three_phrases :
  (forall (html : jsstr) (doc : option document),
     detectErrorInContent html doc
       = Some (AUTH_REQUIRED, js "Detected error pattern: AUTH_REQUIRED")
     <-> Forall (fun ws => ~ phrase_occurs ws (scanned_text html doc)) phrases_before_auth
         /\ Exists (fun ws => phrase_occurs ws (scanned_text html doc)) auth_phrases)
  /\ (forall (cfg : Config) (now : jsstr) (ctx : Context) (w : World) (message : jsstr),
        default 200 (c_statusCode ctx) < 400 ->
        detectErrorInContent (c_body ctx) (Some (page w)) = Some (AUTH_REQUIRED, message) ->
        let w' := requestHandler cfg now ctx w in
        dataset w' = dataset w
        /\ requests w' = requests w
        /\ page w' = page w
        /\ errorSamples w'
           = (if saveErrorSamples cfg
              then errorSamples w ++ [sample_of now ctx AUTH_REQUIRED message]
              else errorSamples w)).
Proof.
  split.
  - intros html doc.
    rewrite <- (first_pattern_spaced_none phrases_before_auth
                  [PAGE_NOT_FOUND; PAGE_NOT_FOUND; PAGE_NOT_FOUND; ACCESS_DENIED;
                   ACCESS_DENIED; ACCESS_DENIED; UNAUTHORIZED; UNAUTHORIZED])
      by reflexivity.
    rewrite <- (existsb_spaced auth_phrases [AUTH_REQUIRED; AUTH_REQUIRED; AUTH_REQUIRED])
      by reflexivity.
    change (combine (map spaced phrases_before_auth) _) with rows_before_auth.
    change (combine (map spaced auth_phrases) _) with auth_rows.
    rewrite <- auth_required_iff. unfold detectErrorInContent.
    destruct (first_pattern ERROR_PAGE_PATTERNS (scanned_text html doc)) as [ty|].
    + split; [intros [= ->]; reflexivity|intros [= ->]; reflexivity].
    + split; discriminate.
  - intros cfg now ctx w message Hlt Hdetect.
    exact (requestHandler_content_error cfg now ctx w AUTH_REQUIRED message Hlt Hdetect).
Qed.

Lemma login_walls_are_told_by_three_phrases_witness :
  let ctx := Samples.detail_context 200 Samples.sign_in_required_html in
  let w := Samples.empty_world Samples.sign_in_required_page in
  let w' := requestHandler {| saveErrorSamples := true |} Samples.clock ctx w in
  dataset w' = [] /\ requests w' = []
  /\ errorSamples w'
     = [sample_of Samples.clock ctx AUTH_REQUIRED (js "Detected error pattern: AUTH_REQUIRED")].
Proof.
  cbn zeta.
  destruct (proj2 login_walls_are_told_by_three_phrases
              {| saveErrorSamples := true |} Samples.clock
              (Samples.detail_context 200 Samples.sign_in_required_html)
              (Samples.empty_world Samples.sign_in_required_page)
              (js "Detected error pattern: AUTH_REQUIRED")
              ltac:(reflexivity) ltac:(vm_compute; reflexivity))
    as (Hd & Hr & _ & Hs).
  split; [exact Hd|]. split; [exact Hr|]. exact Hs.
Defined.
